(** * WaveSource: marigram field extraction, validation and resume logic

    A shallow embedding of [Tsunami_Marigram.py]: the text helpers, the
    regular expressions of the module and the functions that use them, the
    allow-list resolvers, the variant scorer, the review prompts, the
    progress log and the run loop of [main].

    Text is modelled as [string] over 7-bit ASCII: case conversion, the
    whitespace, digit, letter and word classes are Python's on that range;
    a character with a code of 128 or more is kept as it is and belongs to
    none of the classes. *)

From Stdlib Require Import ZArith QArith Ascii String List Lia Bool.
From stdpp Require Import gmap strings list pretty.

Local Open Scope nat_scope.

#[local] Arguments String.append !s1 s2 : simpl nomatch.

(** ** Characters *)

Module Chars.

Definition in_range (lo hi c : ascii) : bool :=
  (nat_of_ascii lo <=? nat_of_ascii c) && (nat_of_ascii c <=? nat_of_ascii hi).

Definition is_char (a c : ascii) : bool := Ascii.eqb a c.

Definition is_digit (c : ascii) : bool := in_range "0" "9" c.
Definition is_upper (c : ascii) : bool := in_range "A" "Z" c.
Definition is_lower (c : ascii) : bool := in_range "a" "z" c.
Definition is_alpha (c : ascii) : bool := is_upper c || is_lower c.
Definition is_alnum (c : ascii) : bool := is_alpha c || is_digit c.

(** [\w] of the [re] module. *)
Definition is_word (c : ascii) : bool := is_alnum c || is_char "_" c.

(** [str.isspace] and [\s]: TAB, LF, VT, FF, CR, FS, GS, RS, US, space. *)
Definition is_space (c : ascii) : bool :=
  in_range "009" "013" c || in_range "028" "031" c || is_char " " c.

(** The line boundaries of [str.splitlines]: LF, VT, FF, CR, FS, GS, RS. *)
Definition is_linebreak (c : ascii) : bool :=
  in_range "010" "013" c || in_range "028" "030" c.

Definition upper_char (c : ascii) : ascii :=
  if is_lower c then ascii_of_nat (nat_of_ascii c - 32) else c.

Definition lower_char (c : ascii) : ascii :=
  if is_upper c then ascii_of_nat (nat_of_ascii c + 32) else c.

(** A character class compiled under [re.I]. *)
Definition ci (p : ascii -> bool) (c : ascii) : bool :=
  p (upper_char c) || p (lower_char c).

Definition neg (p : ascii -> bool) (c : ascii) : bool := negb (p c).

Definition either (p q : ascii -> bool) (c : ascii) : bool := p c || q c.

(** [c] is one of the characters of [s]. *)
Fixpoint one_of (s : string) (c : ascii) : bool :=
  match s with
  | EmptyString => false
  | String a s' => Ascii.eqb a c || one_of s' c
  end.

End Chars.

Import Chars.

#[local] Arguments one_of : simpl never.

(** ** Python's [str] methods used by the module *)

Module Str.

Fixpoint map (f : ascii -> ascii) (s : string) : string :=
  match s with
  | EmptyString => EmptyString
  | String c s' => String (f c) (map f s')
  end.

Definition upper (s : string) : string := map upper_char s.
Definition lower (s : string) : string := map lower_char s.

Definition is_empty (s : string) : bool :=
  match s with EmptyString => true | _ => false end.

Fixpoint lstrip (s : string) : string :=
  match s with
  | EmptyString => EmptyString
  | String c s' => if is_space c then lstrip s' else s
  end.

Fixpoint rstrip (s : string) : string :=
  match s with
  | EmptyString => EmptyString
  | String c s' =>
      let r := rstrip s' in
      if is_space c && is_empty r then EmptyString else String c r
  end.

Definition strip (s : string) : string := rstrip (lstrip s).

(** [s.replace(a, b)] for single characters [a] and [b]. *)
Definition replace_char (a b : ascii) (s : string) : string :=
  map (fun c => if Ascii.eqb a c then b else c) s.

(** [s.replace(a, b)] for a single character [a] and the empty [b]. *)
Fixpoint remove_char (a : ascii) (s : string) : string :=
  match s with
  | EmptyString => EmptyString
  | String c s' => if Ascii.eqb a c then remove_char a s' else String c (remove_char a s')
  end.

(** [s[:n]]. *)
Fixpoint take (n : nat) (s : string) : string :=
  match n, s with
  | S n', String c s' => String c (take n' s')
  | _, _ => EmptyString
  end.

Fixpoint repeat (c : ascii) (n : nat) : string :=
  match n with
  | 0 => EmptyString
  | S n' => String c (repeat c n')
  end.

(** [s.zfill(w)] for a string without a sign, which is all the module
    passes (runs of digits). *)
Definition zfill (w : nat) (s : string) : string :=
  repeat "0" (w - String.length s) +:+ s.

(** The number of alphabetic characters, [sum(ch.isalpha() for ch in s)]. *)
Fixpoint count (p : ascii -> bool) (s : string) : nat :=
  match s with
  | EmptyString => 0
  | String c s' => (if p c then 1 else 0) + count p s'
  end.

(** [sep.join(l)]. *)
Fixpoint join (sep : string) (l : list string) : string :=
  match l with
  | [] => EmptyString
  | [x] => x
  | x :: l' => x +:+ sep +:+ join sep l'
  end.

(** [s.splitlines()]: the line currently read is [cur] (in order). *)
Fixpoint splitlines_aux (cur : string) (s : string) : list string :=
  match s with
  | EmptyString => if is_empty cur then [] else [cur]
  | String c s' =>
      if is_linebreak c then
        match c, s' with
        | "013"%char, String "010"%char s'' => cur :: splitlines_aux EmptyString s''
        | _, _ => cur :: splitlines_aux EmptyString s'
        end
      else splitlines_aux (cur +:+ String c EmptyString) s'
  end.

Definition splitlines (s : string) : list string := splitlines_aux EmptyString s.

(** [s.split(sep)] for a single character [sep]. *)
Fixpoint split_aux (sep : ascii) (cur : string) (s : string) : list string :=
  match s with
  | EmptyString => [cur]
  | String c s' =>
      if Ascii.eqb sep c then cur :: split_aux sep EmptyString s'
      else split_aux sep (cur +:+ String c EmptyString) s'
  end.

Definition split (sep : ascii) (s : string) : list string := split_aux sep EmptyString s.

End Str.

(** ** The regular expressions of Python's [re] module

    A backtracking matcher for the fragment the module's patterns use:
    character classes, sequence, ordered alternation, greedy and lazy
    repetition of a character class, capturing groups, the anchors [^] and
    [$], the word boundary, and one-character negative look-behind and
    look-ahead. Alternatives are tried left to right, a greedy repetition
    tries the longest run first and a lazy one the shortest, as [re] does. *)

Module Re.

Inductive regex : Type :=
| Eps
| Chr (p : ascii -> bool)
| Seq (r1 r2 : regex)
| Alt (r1 r2 : regex)
| Star (greedy : bool) (p : ascii -> bool)
| Group (name : string) (r : regex)
| Bol
| Eol
| WordB
| NotBehind (p : ascii -> bool)
| NotAhead (p : ascii -> bool).

(** Where the matcher stands: the character just before it, if any, and
    the text still to read. *)
Record cursor : Type := Cursor { prev : option ascii; rest : string }.

(** The groups set so far, the latest first. *)
Definition captures : Type := list (string * string).

Fixpoint group (n : string) (caps : captures) : option string :=
  match caps with
  | [] => None
  | (n', v) :: caps' => if String.eqb n n' then Some v else group n caps'
  end.

Definition next (cur : cursor) : option ascii :=
  match rest cur with
  | EmptyString => None
  | String c _ => Some c
  end.

Definition holds (p : ascii -> bool) (o : option ascii) : bool :=
  match o with
  | Some c => p c
  | None => false
  end.

Definition at_eol (cur : cursor) : bool :=
  match rest cur with
  | EmptyString => true
  | String "010"%char EmptyString => true
  | _ => false
  end.

Definition at_word_boundary (cur : cursor) : bool :=
  xorb (holds is_word (prev cur)) (holds is_word (next cur)).

Section Matcher.
Context {R : Type}.

(** [p*]: the continuation gets the run that was read. *)
Fixpoint star_greedy (p : ascii -> bool) (pv : option ascii) (s : string)
    (k : string -> cursor -> option R) : option R :=
  match s with
  | String c s' =>
      if p c then
        match star_greedy p (Some c) s' (fun u cur => k (String c u) cur) with
        | Some x => Some x
        | None => k EmptyString (Cursor pv s)
        end
      else k EmptyString (Cursor pv s)
  | EmptyString => k EmptyString (Cursor pv s)
  end.

(** [p*?]. *)
Fixpoint star_lazy (p : ascii -> bool) (pv : option ascii) (s : string)
    (k : string -> cursor -> option R) : option R :=
  match k EmptyString (Cursor pv s) with
  | Some x => Some x
  | None =>
      match s with
      | String c s' =>
          if p c then star_lazy p (Some c) s' (fun u cur => k (String c u) cur)
          else None
      | EmptyString => None
      end
  end.

(** [rmatch r cur caps k]: match [r] at [cur]; on success the
    continuation gets the text [r] read, the new cursor and the groups. *)
Fixpoint rmatch (r : regex) (cur : cursor) (caps : captures)
    (k : string -> cursor -> captures -> option R) : option R :=
  match r with
  | Eps => k EmptyString cur caps
  | Chr p =>
      match rest cur with
      | String c s' => if p c then k (String c EmptyString) (Cursor (Some c) s') caps else None
      | EmptyString => None
      end
  | Seq r1 r2 =>
      rmatch r1 cur caps (fun u1 c1 caps1 =>
        rmatch r2 c1 caps1 (fun u2 c2 caps2 => k (u1 +:+ u2) c2 caps2))
  | Alt r1 r2 =>
      match rmatch r1 cur caps k with
      | Some x => Some x
      | None => rmatch r2 cur caps k
      end
  | Star true p => star_greedy p (prev cur) (rest cur) (fun u c => k u c caps)
  | Star false p => star_lazy p (prev cur) (rest cur) (fun u c => k u c caps)
  | Group n r1 => rmatch r1 cur caps (fun u c caps' => k u c ((n, u) :: caps'))
  | Bol => match prev cur with None => k EmptyString cur caps | Some _ => None end
  | Eol => if at_eol cur then k EmptyString cur caps else None
  | WordB => if at_word_boundary cur then k EmptyString cur caps else None
  | NotBehind p => if holds p (prev cur) then None else k EmptyString cur caps
  | NotAhead p => if holds p (next cur) then None else k EmptyString cur caps
  end.
End Matcher.

(** A match object: the text before the match, the matched text, the
    groups, and the cursor after the match. *)
Record rmatch_result : Type := Match {
  m_before : string;
  m_text : string;
  m_groups : captures;
  m_after : cursor
}.

Definition match_at (r : regex) (before : string) (cur : cursor) : option rmatch_result :=
  rmatch r cur [] (fun u c caps => Some (Match before u caps c)).

(** [pattern.match(s)]: a match at the start of [s]. *)
Definition re_match (r : regex) (s : string) : option rmatch_result :=
  match_at r EmptyString (Cursor None s).

(** The leftmost match at or after the cursor; [before] is the text
    already passed. *)
Fixpoint search_from (r : regex) (before : string) (pv : option ascii) (s : string)
    : option rmatch_result :=
  match match_at r before (Cursor pv s) with
  | Some m => Some m
  | None =>
      match s with
      | EmptyString => None
      | String c s' => search_from r (before +:+ String c EmptyString) (Some c) s'
      end
  end.

(** [pattern.search(s)]. *)
Definition search (r : regex) (s : string) : option rmatch_result :=
  search_from r EmptyString None s.

(** [if m:] for the result of a search. *)
Definition found (m : option rmatch_result) : bool :=
  match m with Some _ => true | None => false end.

(** [m.group(n)], read as the empty string when the group did not take part. *)
Definition group_or_empty (n : string) (m : rmatch_result) : string :=
  match group n (m_groups m) with Some v => v | None => EmptyString end.

(** [re.sub(pattern, repl, s)] for a pattern that matches no empty text
    and a replacement without group references: every match, found left
    to right, is replaced. *)
Fixpoint sub_from (fuel : nat) (r : regex) (repl : string) (pv : option ascii) (s : string)
    : string :=
  match fuel with
  | 0 => s
  | S fuel' =>
      match match_at r EmptyString (Cursor pv s) with
      | Some (Match _ (String _ _) _ cur') =>
          repl +:+ sub_from fuel' r repl (prev cur') (rest cur')
      | _ =>
          match s with
          | EmptyString => EmptyString
          | String c s' => String c (sub_from fuel' r repl (Some c) s')
          end
      end
  end.

Definition sub (r : regex) (repl : string) (s : string) : string :=
  sub_from (S (String.length s)) r repl None s.

(** [re.split(pattern, s)] for a pattern without groups that matches no
    empty text; [cur] is the piece being read. *)
Fixpoint split_from (fuel : nat) (r : regex) (piece : string) (pv : option ascii) (s : string)
    : list string :=
  match fuel with
  | 0 => [piece +:+ s]
  | S fuel' =>
      match match_at r EmptyString (Cursor pv s) with
      | Some (Match _ (String _ _) _ cur') =>
          piece :: split_from fuel' r EmptyString (prev cur') (rest cur')
      | _ =>
          match s with
          | EmptyString => [piece]
          | String c s' => split_from fuel' r (piece +:+ String c EmptyString) (Some c) s'
          end
      end
  end.

Definition split (r : regex) (s : string) : list string :=
  split_from (S (String.length s)) r EmptyString None s.

(** *** Derived forms *)

Definition lit (c : ascii) : regex := Chr (is_char c).

(** A literal word; under [re.I] when [icase]. *)
Fixpoint word (icase : bool) (s : string) : regex :=
  match s with
  | EmptyString => Eps
  | String c EmptyString => Chr (if icase then ci (is_char c) else is_char c)
  | String c s' => Seq (Chr (if icase then ci (is_char c) else is_char c)) (word icase s')
  end.

(** [r?] (greedy). *)
Definition opt (r : regex) : regex := Alt r Eps.

(** [p+] and [p+?]. *)
Definition plus (greedy : bool) (p : ascii -> bool) : regex := Seq (Chr p) (Star greedy p).

(** [p{n}]. *)
Fixpoint times (n : nat) (p : ascii -> bool) : regex :=
  match n with
  | 0 => Eps
  | 1 => Chr p
  | S n' => Seq (Chr p) (times n' p)
  end.

(** [p{0,n}] (greedy). *)
Fixpoint upto (n : nat) (p : ascii -> bool) : regex :=
  match n with
  | 0 => Eps
  | S n' => opt (Seq (Chr p) (upto n' p))
  end.

(** [p{lo,hi}] (greedy), [lo <= hi]. *)
Definition between (lo hi : nat) (p : ascii -> bool) : regex :=
  Seq (times lo p) (upto (hi - lo) p).

(** [p{n,}] (greedy). *)
Definition at_least (n : nat) (p : ascii -> bool) : regex :=
  Seq (times n p) (Star true p).

Fixpoint seqs (l : list regex) : regex :=
  match l with
  | [] => Eps
  | [r] => r
  | r :: l' => Seq r (seqs l')
  end.

Fixpoint alts (l : list regex) : regex :=
  match l with
  | [] => Eps
  | [r] => r
  | r :: l' => Alt r (alts l')
  end.

End Re.

Import Re.

(** ** The patterns of the module *)

Module Patterns.

Definition year : regex :=
  Alt (Seq (word false "19") (times 2 is_digit)) (Seq (word false "20") (times 2 is_digit)).

(** [0[1-9]|1[0-2]] *)
Definition month2 : regex :=
  Alt (Seq (lit "0") (Chr (in_range "1" "9"))) (Seq (lit "1") (Chr (in_range "0" "2"))).

(** [0[1-9]|[12]\d|3[01]] *)
Definition day2 : regex :=
  alts [Seq (lit "0") (Chr (in_range "1" "9"));
        Seq (Chr (one_of "12")) (Chr is_digit);
        Seq (lit "3") (Chr (one_of "01"))].

(** [0?[1-9]|1[0-2]] *)
Definition month12 : regex :=
  Alt (Seq (opt (lit "0")) (Chr (in_range "1" "9"))) (Seq (lit "1") (Chr (in_range "0" "2"))).

(** [0?[1-9]|[12]\d|3[01]] *)
Definition day12 : regex :=
  alts [Seq (opt (lit "0")) (Chr (in_range "1" "9"));
        Seq (Chr (one_of "12")) (Chr is_digit);
        Seq (lit "3") (Chr (one_of "01"))].

(** [Jan|Feb|Mar|Apr|May|Jun|Jul|Aug|Sep|Sept|Oct|Nov|Dec], under [re.I]. *)
Definition month_name : regex :=
  alts (List.map (word true)
          ["Jan"; "Feb"; "Mar"; "Apr"; "May"; "Jun"; "Jul"; "Aug"; "Sep"; "Sept";
           "Oct"; "Nov"; "Dec"]).

(** [(?<!\d)(?P<y>19\d{2}|20\d{2})-(?P<m>0[1-9]|1[0-2])-(?P<d>0[1-9]|[12]\d|3[01])(?!\d)] *)
Definition DATE_ISO : regex :=
  seqs [NotBehind is_digit; Group "y" year; lit "-"; Group "m" month2; lit "-";
        Group "d" day2; NotAhead is_digit].

(** [(?<!\d)(?P<m>0?[1-9]|1[0-2])[\-/](?P<d>0?[1-9]|[12]\d|3[01])[\-/](?P<y>19\d{2}|20\d{2})(?!\d)] *)
Definition DATE_MDY : regex :=
  seqs [NotBehind is_digit; Group "m" month12; Chr (one_of "-/"); Group "d" day12;
        Chr (one_of "-/"); Group "y" year; NotAhead is_digit].

(** [(?<!\w)(?P<d>0?[1-9]|[12]\d|3[01])\s+(?P<mon>Jan|...|Dec)[a-z]*\s+(?P<y>19\d{2}|20\d{2})(?!\w)], [re.I] *)
Definition DATE_DMY : regex :=
  seqs [NotBehind is_word; Group "d" day12; plus true is_space; Group "mon" month_name;
        Star true (ci is_lower); plus true is_space; Group "y" year; NotAhead is_word].

Definition DATE_PATTERNS : list regex := [DATE_ISO; DATE_MDY; DATE_DMY].

Definition MONTH_MAP : list (string * string) :=
  [("JAN", "01"); ("FEB", "02"); ("MAR", "03"); ("APR", "04"); ("MAY", "05"); ("JUN", "06");
   ("JUL", "07"); ("AUG", "08"); ("SEP", "09"); ("SEPT", "09"); ("OCT", "10"); ("NOV", "11");
   ("DEC", "12")].

(** An optional [SCALE\s*[:=]?\s*], then [1\s*[:/]\s*(?P<den>\d{1,4})]; [re.I] *)
Definition SCALE_PATTERN : regex :=
  seqs [opt (seqs [word true "SCALE"; Star true is_space; opt (Chr (one_of ":="));
                   Star true is_space]);
        lit "1"; Star true is_space; Chr (one_of ":/"); Star true is_space;
        Group "den" (between 1 4 is_digit)].

Definition SCALE_PATTERNS : list regex := [SCALE_PATTERN].

(** [[A-Z\- .'()&/]] *)
Definition upper_part : ascii -> bool := either is_upper (one_of "- .'()&/").

(** [[A-Z0-9\- .,'()&/]] *)
Definition upper_digit_part : ascii -> bool :=
  either (either is_upper is_digit) (one_of "- .,'()&/").

(** [^([A-Z][A-Z\- .'()&/]+?)\s{2,}([A-Z][A-Z\- .'()&/]+?)\s{2,}([A-Z0-9][A-Z0-9\- .,'()&/]+)$] *)
Definition UPPER_TRIPLE_SPLIT : regex :=
  seqs [Bol;
        Group "1" (Seq (Chr is_upper) (plus false upper_part));
        at_least 2 is_space;
        Group "2" (Seq (Chr is_upper) (plus false upper_part));
        at_least 2 is_space;
        Group "3" (Seq (Chr (either is_upper is_digit)) (plus true upper_digit_part));
        Eol].

(** [^[A-Za-z0-9]{3,6}$] *)
Definition IOC_CODE_RE : regex := seqs [Bol; between 3 6 is_alnum; Eol].

(** [\bCOUNTRY\b] and the like. *)
Definition anchor (w : string) : regex := seqs [WordB; word false w; WordB].

Definition OCR_ANCHORS : list regex :=
  List.map anchor ["COUNTRY"; "STATE"; "LOCATION"; "SCALE"; "REGION"].

(** [\[(\d{2})\]] *)
Definition REGION_BRACKET : regex := seqs [lit "["; Group "1" (times 2 is_digit); lit "]"].

(** [\bREGION\b[^0-9]*(\d{2})\b], [re.I] *)
Definition REGION_WORD : regex :=
  seqs [WordB; word true "REGION"; WordB; Star true (neg is_digit);
        Group "1" (times 2 is_digit); WordB].

(** [[ \t]+] *)
Definition BLANKS : regex := plus true (either (is_char " ") (is_char "009")).

(** [\s*[;,\t]\s*] *)
Definition PART_SEP : regex :=
  seqs [Star true is_space; Chr (either (one_of ";,") (is_char "009")); Star true is_space].

(** [[:\-\s]+] *)
Definition label_sep : regex := plus true (either (one_of ":-") is_space).

(** [COUNTRY[:\-\s]+([A-Z .,'()&/-]+)], [re.I] *)
Definition COUNTRY_LABEL : regex :=
  seqs [word true "COUNTRY"; label_sep;
        Group "1" (plus true (ci (either is_upper (one_of " .,'()&/-"))))].

(** [[A-Z0-9 .,'()&/-]] under [re.I] *)
Definition label_value : ascii -> bool :=
  ci (either (either is_upper is_digit) (one_of " .,'()&/-")).

(** [STATE[:\-\s]+([A-Z0-9 .,'()&/-]+)], [re.I] *)
Definition STATE_LABEL : regex :=
  seqs [word true "STATE"; label_sep; Group "1" (plus true label_value)].

(** [LOCATION[:\-\s]+([A-Z0-9 .,'()&/-]+)], [re.I] *)
Definition LOCATION_LABEL : regex :=
  seqs [word true "LOCATION"; label_sep; Group "1" (plus true label_value)].

End Patterns.

Import Patterns.

(** ** Small utils *)

Definition _upper (s : string) : string := Str.upper (Str.strip s).

Definition sanitize_text (text : string) : string :=
  let text := Str.replace_char "012" " " text in
  (* the zero-width marks U+200B..U+200D are not ASCII: nothing to remove *)
  Re.sub BLANKS " " text.

(** ** Parsing helpers (COUNTRY/STATE/LOCATION/DATE/SCALE) *)

Definition _looks_like_text (s : string) : bool :=
  if Str.is_empty s then false else 2 <=? Str.count is_alpha s.

Definition triple_of_match (m : rmatch_result) : string * string * string :=
  (Str.strip (group_or_empty "1" m), Str.strip (group_or_empty "2" m),
   Str.strip (group_or_empty "3" m)).

(** Strategy A over the lines it is given. *)
Fixpoint strategy_a (lines : list string) : option (string * string * string) :=
  match lines with
  | [] => None
  | line :: lines' =>
      match re_match UPPER_TRIPLE_SPLIT (Str.strip line) with
      | Some m => Some (triple_of_match m)
      | None => strategy_a lines'
      end
  end.

(** Strategy B over the lines it is given. *)
Fixpoint strategy_b (lines : list string) : option (string * string * string) :=
  match lines with
  | [] => None
  | line :: lines' =>
      match Re.split PART_SEP (Str.strip line) with
      | p0 :: p1 :: p2 :: _ =>
          let a := Str.strip p0 in
          let b := Str.strip p1 in
          let c := Str.strip p2 in
          if _looks_like_text a && _looks_like_text b && _looks_like_text c
          then Some (a, b, c)
          else strategy_b lines'
      | _ => strategy_b lines'
      end
  end.

Definition label_value_of (r : regex) (blob : string) : string :=
  match search r blob with
  | Some m => Str.strip (group_or_empty "1" m)
  | None => EmptyString
  end.

Definition strategy_c (lines : list string) : string * string * string :=
  let blob := Str.join (String "010" EmptyString) lines in
  (label_value_of COUNTRY_LABEL blob, label_value_of STATE_LABEL blob,
   label_value_of LOCATION_LABEL blob).

Definition parse_country_state_location (lines : list string) : string * string * string :=
  match strategy_a (firstn 20 lines) with
  | Some t => t
  | None =>
      match strategy_b (firstn 30 lines) with
      | Some t => t
      | None => strategy_c (firstn 80 lines)
      end
  end.

Fixpoint dict_get (k : string) (d : list (string * string)) (default : string) : string :=
  match d with
  | [] => default
  | (k', v) :: d' => if String.eqb k k' then v else dict_get k d' default
  end.

Definition nonempty (s : string) : bool := negb (Str.is_empty s).

(** The body of the loop of [normalize_date_to_ymd] once a pattern has
    matched: the date, or [None] when the loop goes on. The groups [y],
    [d] and [mon] (or [m]) take part in every match of their pattern. *)
Definition date_of_match (m : rmatch_result) : option string :=
  if nonempty (group_or_empty "mon" m) then
    let y := group_or_empty "y" m in
    let d := Str.zfill 2 (group_or_empty "d" m) in
    let mon := Str.remove_char "." (Str.take 4 (Str.upper (group_or_empty "mon" m))) in
    let mm := dict_get (Str.take 4 mon) MONTH_MAP (dict_get (Str.take 3 mon) MONTH_MAP EmptyString) in
    if nonempty y && nonempty mm && nonempty d
    then Some (y +:+ "/" +:+ mm +:+ "/" +:+ d)
    else None
  else
    let y := group_or_empty "y" m in
    let mm := group_or_empty "m" m in
    let d := group_or_empty "d" m in
    if nonempty y && nonempty mm && nonempty d
    then Some (y +:+ "/" +:+ Str.zfill 2 mm +:+ "/" +:+ Str.zfill 2 d)
    else None.

Fixpoint date_from (pats : list regex) (text : string) : string :=
  match pats with
  | [] => EmptyString
  | pat :: pats' =>
      match search pat text with
      | None => date_from pats' text
      | Some m =>
          match date_of_match m with
          | Some r => r
          | None => date_from pats' text
          end
      end
  end.

Definition normalize_date_to_ymd (text : string) : string := date_from DATE_PATTERNS text.

Fixpoint scale_from (pats : list regex) (text : string) : string :=
  match pats with
  | [] => EmptyString
  | pat :: pats' =>
      match search pat text with
      | Some m => "1:" +:+ group_or_empty "den" m
      | None => scale_from pats' text
      end
  end.

Definition parse_scale (text : string) : string := scale_from SCALE_PATTERNS text.

(** ** NOAA allow-lists and region map *)

Definition validate_against_allow_list (value : string) (allow : gset string) : string * bool :=
  if Str.is_empty value || Str.is_empty (Str.strip value) then (EmptyString, true)
  else
    let v := _upper value in
    if bool_decide (v ∈ allow) then (v, false)
    else (Str.strip value, true).

(** [m and m.group(1) in regions_map] *)
Definition region_hit (m : option rmatch_result) (regions_map : gmap string string) : bool :=
  match m with
  | Some m => bool_decide (is_Some (regions_map !! group_or_empty "1" m))
  | None => false
  end.

Definition region_of (m : option rmatch_result) : string :=
  match m with
  | Some m => group_or_empty "1" m
  | None => EmptyString
  end.

Definition parse_region_code_strict (ocr_text : string) (regions_map : gmap string string)
    : string * bool :=
  if Str.is_empty ocr_text then (EmptyString, true)
  else
    let m := search REGION_BRACKET ocr_text in
    if region_hit m regions_map then (region_of m, false)
    else
      let m := search REGION_WORD ocr_text in
      if region_hit m regions_map then (region_of m, false)
      else (EmptyString, true).

(** ** IOC station code index (LOCATION_SHORT) *)

Definition resolve_location_short_strict (country location : string)
    (ioc_index : gmap (string * string) string) : string * bool :=
  if bool_decide (ioc_index = ∅) || Str.is_empty country || Str.is_empty location
  then (EmptyString, true)
  else
    let code := default EmptyString (ioc_index !! (_upper country, _upper location)) in
    if nonempty code && found (re_match IOC_CODE_RE code)
    then (code, false)
    else (EmptyString, true).

(** ** OCR pipeline: the choice among the renderings *)

Definition Qgtb (a b : Q) : bool := negb (Qle_bool a b).

Definition _anchor_score (text : string) : Z :=
  if Str.is_empty text then 0%Z
  else
    let t := Str.upper text in
    let score :=
      fold_left (fun score pat => if found (search pat t) then (score + 1)%Z else score)
        OCR_ANCHORS 0%Z in
    let score := if nonempty (normalize_date_to_ymd t) then (score + 2)%Z else score in
    let score := if nonempty (parse_scale t) then (score + 1)%Z else score in
    score.

(** The running best of [best_ocr_from_variants]; [best_variant] is the
    position of the rendering in the list, [None] for the image itself. *)
Record best : Type := Best {
  best_text : string;
  best_conf : Q;
  best_variant : option nat;
  best_anchor : Z
}.

Definition improves (anc : Z) (conf : Q) (text : string) (b : best) : bool :=
  (best_anchor b <? anc)%Z
  || ((anc =? best_anchor b)%Z && Qgtb conf (best_conf b))
  || ((anc =? best_anchor b)%Z && Qeq_bool conf (best_conf b)
      && (String.length (best_text b) <? String.length text)).

Fixpoint variants_loop (i : nat) (ocr : list (string * Q)) (b : best) : best :=
  match ocr with
  | [] => b
  | (text, conf) :: ocr' =>
      let anc := _anchor_score text in
      variants_loop (S i) ocr'
        (if improves anc conf text b then Best text conf (Some i) anc else b)
  end.

(** [ocr] is what [ocr_image] gives for each rendering of
    [preprocess_variants(img)], in the order of that list. *)
Definition best_ocr_from_variants (ocr : list (string * Q)) : best :=
  variants_loop 0 ocr (Best EmptyString (-1) None (-1)).

(** ** Data model *)

Record Row : Type := mkRow {
  FILE_NAME : string;
  COUNTRY : string;
  STATE : string;
  LOCATION : string;
  LOCATION_SHORT : string;
  REGION_CODE : string;
  START_RECORD : string;
  END_RECORD : string;
  TSEVENT_ID : string;
  TSRUNUP_ID : string;
  RECORDED_DATE : string;
  LATITUDE : string;
  LONGITUDE : string;
  IMAGES : string;
  SCALE : string;
  MICROFILM_NAME : string;
  COMMENTS : string
}.

(** ** Exceptions and the operator's terminal

    A computation reads the lines the operator types, one per [input()],
    and returns a value or raises; the lines read stay read. *)

Record exn : Type := Exn { exn_type : string; exn_msg : string }.

Inductive result (A : Type) : Type :=
| Ok (a : A)
| Raise (e : exn).
Arguments Ok {A} a.
Arguments Raise {A} e.

Definition io (A : Type) : Type := list string -> result A * list string.

Definition ret {A} (a : A) : io A := fun tty => (Ok a, tty).

Definition raise {A} (e : exn) : io A := fun tty => (Raise e, tty).

Definition bind {A B} (c : io A) (f : A -> io B) : io B :=
  fun tty =>
    match c tty with
    | (Ok a, tty') => f a tty'
    | (Raise e, tty') => (Raise e, tty')
    end.

Notation "'let*' x ':=' c 'in' k" := (bind c (fun x => k))
  (at level 10, x name, k at level 200).

(** [input(...)]: the next line typed, [EOFError] at the end of the input. *)
Definition input : io string :=
  fun tty =>
    match tty with
    | [] => (Raise (Exn "EOFError" "EOF when reading a line"), [])
    | line :: tty' => (Ok line, tty')
    end.

(** ** Human-in-the-loop review UI (CLI) *)

Definition prompt_field (label current : string) (needs_review : bool) (allow_hint : string)
    : io string :=
  let* line := input in
  let inp := Str.strip line in
  ret (if Str.is_empty inp then current else inp).

Definition prompt_yes_no (msg : string) (default_yes : bool) : io bool :=
  let* line := input in
  let inp := Str.lower (Str.strip line) in
  ret (if Str.is_empty inp then default_yes
       else String.eqb inp "y" || String.eqb inp "yes").

(** ** Geocoding

    [geocode_fn] is the rate-limited geocoder, [None] when geocoding is
    off; for a query it gives the latitude and longitude already formatted
    with five decimals, or [None] when it finds nothing or raises. *)

Definition geocode_queries (country state location : string) : list string :=
  (if nonempty location && nonempty state && nonempty country
   then [location +:+ ", " +:+ state +:+ ", " +:+ country] else [])
  ++ (if nonempty location && nonempty country then [location +:+ ", " +:+ country] else [])
  ++ (if nonempty state && nonempty country then [state +:+ ", " +:+ country] else [])
  ++ (if nonempty country then [country] else []).

Fixpoint first_located (f : string -> option (string * string)) (queries : list string)
    : string * string :=
  match queries with
  | [] => (EmptyString, EmptyString)
  | q :: queries' =>
      match f q with
      | Some ll => ll
      | None => first_located f queries'
      end
  end.

Definition geocode_latlon (country state location : string)
    (geocode_fn : option (string -> option (string * string))) : string * string :=
  match geocode_fn with
  | None => (EmptyString, EmptyString)
  | Some f => first_located f (geocode_queries country state location)
  end.

(** ** Progress log (resume)

    A value of a JSON object: a string, or anything else, kept as the text
    [str()] gives for it. A line of the log is an object, or junk: text
    that [json.loads] rejects or that is no object, which the reader skips. *)

Inductive jval : Type :=
| JStr (s : string)
| JOther (shown : string).

Definition py_str (v : jval) : string :=
  match v with
  | JStr s => s
  | JOther s => s
  end.

Inductive log_line : Type :=
| Junk
| Obj (d : gmap string jval).

Definition is_ok (d : gmap string jval) : bool :=
  match d !! "status" with
  | Some (JStr s) => String.eqb s "ok"
  | _ => false
  end.

Definition replay (done : gset string) (line : log_line) : gset string :=
  match line with
  | Junk => done
  | Obj d =>
      match d !! "file_id" with
      | Some fid => if is_ok d then done ∪ {[py_str fid]} else done
      | None => done
      end
  end.

(** The log file is [None] when it does not exist. *)
Definition load_processed_ids (log_path : option (list log_line)) : gset string :=
  match log_path with
  | None => ∅
  | Some lines => foldl replay ∅ lines
  end.

Definition append_log (log_path : option (list log_line)) (record : gmap string jval)
    : option (list log_line) :=
  Some (default [] log_path ++ [Obj record]).

(** ** Core processing for one image *)

(** What lines 754-771 of [process_one_image] compute from the OCR text:
    the parsed candidates and each resolved field with its review flag. *)
Record fields : Type := Fields {
  text_clean : string;
  country_ocr : string;
  state_ocr : string;
  location_ocr : string;
  recorded_date : string;
  scale : string;
  country : string;
  country_flag : bool;
  state : string;
  state_flag : bool;
  location : string;
  location_flag : bool;
  region_code : string;
  region_flag : bool;
  location_short : string;
  loc_short_flag : bool
}.

Definition nonblank_lines (text : string) : list string :=
  List.map Str.strip (List.filter (fun ln => nonempty (Str.strip ln)) (Str.splitlines text)).

Section OneImage.

Variables countries states locations : gset string.
Variable regions_map : gmap string string.
Variable ioc_index : gmap (string * string) string.
Variable geocode_fn : option (string -> option (string * string)).

(** [f"{conf:.1f}"], the confidence printed with one decimal. *)
Variable fmt_conf : Q -> string.

Definition resolve_fields (ocr_text : string) : fields :=
  let text_clean := sanitize_text ocr_text in
  let lines := nonblank_lines text_clean in
  let '(country_ocr, state_ocr, location_ocr) := parse_country_state_location lines in
  let recorded_date := normalize_date_to_ymd text_clean in
  let scale := parse_scale text_clean in
  let '(country, country_flag) := validate_against_allow_list country_ocr countries in
  let '(state, state_flag) := validate_against_allow_list state_ocr states in
  let '(location, location_flag) := validate_against_allow_list location_ocr locations in
  let '(region_code, region_flag) := parse_region_code_strict text_clean regions_map in
  let '(location_short, loc_short_flag) :=
    resolve_location_short_strict country location ioc_index in
  Fields text_clean country_ocr state_ocr location_ocr recorded_date scale
    country country_flag state state_flag location location_flag
    region_code region_flag location_short loc_short_flag.

Definition microfilm_of (drive_rel_path microfilm_name : string) (microfilm_from_folder : bool)
    : string :=
  if microfilm_from_folder then
    match Str.split "/" drive_rel_path with
    | p0 :: _ :: _ =>
        let p := Str.strip p0 in
        if Str.is_empty p then microfilm_name else p
    | _ => microfilm_name
    end
  else microfilm_name.

Definition comments_of (conf : Q) (anchor_score psm oem : Z) (drive_rel_path : string)
    : string :=
  "avg_conf=" +:+ fmt_conf conf +:+ "; anchors=" +:+ pretty anchor_score
  +:+ "; psm=" +:+ pretty psm +:+ "; oem=" +:+ pretty oem +:+ "; path=" +:+ drive_rel_path.

(** The review of one row at the terminal: twelve fields, then the
    question whether to save. *)
Definition review (f : fields) (row : Row) : io Row :=
  let* v_country := prompt_field "COUNTRY" (COUNTRY row) (country_flag f) "NOAA allow-list" in
  let* v_state := prompt_field "STATE" (STATE row) (state_flag f) "NOAA allow-list" in
  let* v_location :=
    prompt_field "LOCATION" (LOCATION row) (location_flag f) "NOAA allow-list" in
  let* v_date :=
    prompt_field "RECORDED_DATE (YYYY/MM/DD)" (RECORDED_DATE row)
      (Str.is_empty (RECORDED_DATE row)) EmptyString in
  let* v_scale :=
    prompt_field "SCALE (1:NN)" (SCALE row) (Str.is_empty (SCALE row)) EmptyString in
  let* v_region :=
    prompt_field "REGION_CODE (NCEI 2-digit)" (REGION_CODE row) (region_flag f)
      "must exist in NOAA regions" in
  let* v_short :=
    prompt_field "LOCATION_SHORT (IOC station code)" (LOCATION_SHORT row) (loc_short_flag f)
      "from IOC list.php" in
  let* v_lat :=
    prompt_field "LATITUDE (decimal)" (LATITUDE row) (Str.is_empty (LATITUDE row)) "geocode" in
  let* v_lon :=
    prompt_field "LONGITUDE (decimal)" (LONGITUDE row) (Str.is_empty (LONGITUDE row))
      "geocode" in
  let* v_microfilm :=
    prompt_field "MICROFILM_NAME" (MICROFILM_NAME row) (Str.is_empty (MICROFILM_NAME row))
      EmptyString in
  let* v_images :=
    prompt_field "IMAGES" (IMAGES row) (Str.is_empty (IMAGES row)) EmptyString in
  let* v_comments := prompt_field "COMMENTS" (COMMENTS row) false EmptyString in
  let* save := prompt_yes_no "Save this row to Excel?" true in
  if save then
    ret (mkRow (FILE_NAME row) v_country v_state v_location v_short v_region
           (START_RECORD row) (END_RECORD row) (TSEVENT_ID row) (TSRUNUP_ID row)
           v_date v_lat v_lon v_images v_scale v_microfilm v_comments)
  else raise (Exn "RuntimeError" "User skipped row in review mode.").

(** [ocr] stands for [load_image_cv] and the OCR of the renderings: the
    exception raised when the image cannot be read, or the text and the
    confidence of each rendering. The optional dump of the OCR text to
    [save_ocr_dir] is not modelled. *)
Definition process_one_image (ocr : result (list (string * Q))) (drive_rel_path : string)
    (microfilm_name : string) (microfilm_from_folder : bool) (interactive : bool)
    (psm oem : Z) : io Row :=
  match ocr with
  | Raise e => raise e
  | Ok renderings =>
      let b := best_ocr_from_variants renderings in
      let f := resolve_fields (best_text b) in
      let '(lat, lon) := geocode_latlon (country f) (state f) (location f) geocode_fn in
      let mf_name := microfilm_of drive_rel_path microfilm_name microfilm_from_folder in
      let comments := comments_of (best_conf b) (best_anchor b) psm oem drive_rel_path in
      let row :=
        mkRow drive_rel_path (country f) (state f) (location f) (location_short f)
          (region_code f) EmptyString EmptyString EmptyString EmptyString
          (recorded_date f) lat lon "1" (scale f) mf_name comments in
      if interactive then review f row else ret row
  end.

End OneImage.

(** ** Main: the run loop *)

Record args : Type := Args {
  resume : bool;
  interactive : bool;
  psm : Z;
  oem : Z;
  microfilm_name : string;
  microfilm_name_from_folder : bool
}.

(** The state of the loop of [main]. [excel] lists the batches handed to
    [append_rows_to_excel] during the run, in order; [log_path] is the
    progress log ([None] while the file does not exist); [tty] is what the
    operator has still to type. *)
Record run_state : Type := RunState {
  rows_to_write : list Row;
  excel : list (list Row);
  log_path : option (list log_line);
  ok_count : nat;
  skip_count : nat;
  err_count : nat;
  tty : list string
}.

Definition ok_record (file_id rel_path : string) (psm oem : Z) : gmap string jval :=
  {[ "file_id" := JStr file_id; "rel_path" := JStr rel_path; "status" := JStr "ok";
     "psm" := JOther (pretty psm); "oem" := JOther (pretty oem) ]}.

Definition error_record (file_id rel_path : string) (e : exn) : gmap string jval :=
  {[ "file_id" := JStr file_id; "rel_path" := JStr rel_path; "status" := JStr "error";
     "error" := JStr (exn_msg e) ]}.

Definition default_microfilm_of (a : args) : string :=
  let d := Str.strip (microfilm_name a) in
  if Str.is_empty d && negb (microfilm_name_from_folder a) then "UNKNOWN" else d.

Section Main.

Variables countries states locations : gset string.
Variable regions_map : gmap string string.
Variable ioc_index : gmap (string * string) string.
Variable geocode_fn : option (string -> option (string * string)).
Variable fmt_conf : Q -> string.

(** [download file_id rel_path]: the exception [drive_download_file]
    raises for the item, [None] when the file is cached or arrives. *)
Variable download : string -> string -> option exn.

(** [ocr_of rel_path]: reading the local copy and the OCR of its
    renderings, see [process_one_image]. *)
Variable ocr_of : string -> result (list (string * Q)).

Variable a : args.

(** The identifiers [load_processed_ids] returned at startup. *)
Variable processed : gset string.

(** The [except] branch of the loop. *)
Definition on_error (st : run_state) (file_id rel_path : string) (e : exn) (tty' : list string)
    : run_state :=
  RunState (rows_to_write st) (excel st)
    (append_log (log_path st) (error_record file_id rel_path e))
    (ok_count st) (skip_count st) (S (err_count st)) tty'.

(** One turn of the [for] loop of [main]. *)
Definition main_step (st : run_state) (item : string * string) : run_state :=
  let '(file_id, rel_path) := item in
  if resume a && bool_decide (file_id ∈ processed) then
    RunState (rows_to_write st) (excel st) (log_path st)
      (ok_count st) (S (skip_count st)) (err_count st) (tty st)
  else
    match download file_id rel_path with
    | Some e => on_error st file_id rel_path e (tty st)
    | None =>
        match
          process_one_image countries states locations regions_map ioc_index geocode_fn
            fmt_conf (ocr_of rel_path) rel_path (default_microfilm_of a)
            (microfilm_name_from_folder a) (interactive a) (psm a) (oem a) (tty st)
        with
        | (Raise e, tty') => on_error st file_id rel_path e tty'
        | (Ok row, tty') =>
            let rows := rows_to_write st ++ [row] in
            let log' := append_log (log_path st) (ok_record file_id rel_path (psm a) (oem a)) in
            if 25 <=? length rows then
              RunState [] (excel st ++ [rows]) log'
                (S (ok_count st)) (skip_count st) (err_count st) tty'
            else
              RunState rows (excel st) log'
                (S (ok_count st)) (skip_count st) (err_count st) tty'
        end
    end.

Definition main_loop (st : run_state) (image_items : list (string * string)) : run_state :=
  foldl main_step st image_items.

(** After the loop: [if rows_to_write: append_rows_to_excel(...)]. *)
Definition final_flush (st : run_state) : run_state :=
  match rows_to_write st with
  | [] => st
  | rows =>
      RunState rows (excel st ++ [rows]) (log_path st)
        (ok_count st) (skip_count st) (err_count st) (tty st)
  end.

End Main.

(** The run from the point where the image items are known: the progress
    log is replayed when [--resume] is given, the loop runs, and what is
    left in the buffer is written. *)
Definition main (countries states locations : gset string)
    (regions_map : gmap string string) (ioc_index : gmap (string * string) string)
    (geocode_fn : option (string -> option (string * string))) (fmt_conf : Q -> string)
    (download : string -> string -> option exn) (ocr_of : string -> result (list (string * Q)))
    (a : args) (log0 : option (list log_line)) (tty0 : list string)
    (image_items : list (string * string)) : run_state :=
  let processed := if resume a then load_processed_ids log0 else ∅ in
  final_flush
    (main_loop countries states locations regions_map ioc_index geocode_fn fmt_conf
       download ocr_of a processed
       (RunState [] [] log0 0 0 0 tty0) image_items).

(** * Vocabulary of the statements

    [matches r cur caps u cur' caps']: from the cursor [cur], with the
    groups [caps] set, the expression [r] can read the text [u], ending at
    [cur'] with the groups [caps']. *)

Module ReSem.

Inductive run (p : ascii -> bool) : cursor -> string -> cursor -> Prop :=
| run_nil cur : run p cur EmptyString cur
| run_cons pv c s u cur' :
    p c = true ->
    run p (Cursor (Some c) s) u cur' ->
    run p (Cursor pv (String c s)) (String c u) cur'.

Inductive matches : regex -> cursor -> captures -> string -> cursor -> captures -> Prop :=
| M_Eps cur caps : matches Eps cur caps EmptyString cur caps
| M_Chr p pv c s caps :
    p c = true ->
    matches (Chr p) (Cursor pv (String c s)) caps (String c EmptyString) (Cursor (Some c) s) caps
| M_Seq r1 r2 cur caps u1 c1 caps1 u2 c2 caps2 :
    matches r1 cur caps u1 c1 caps1 ->
    matches r2 c1 caps1 u2 c2 caps2 ->
    matches (Seq r1 r2) cur caps (u1 +:+ u2) c2 caps2
| M_AltL r1 r2 cur caps u c caps' :
    matches r1 cur caps u c caps' -> matches (Alt r1 r2) cur caps u c caps'
| M_AltR r1 r2 cur caps u c caps' :
    matches r2 cur caps u c caps' -> matches (Alt r1 r2) cur caps u c caps'
| M_Star g p cur caps u c :
    run p cur u c -> matches (Star g p) cur caps u c caps
| M_Group n r cur caps u c caps' :
    matches r cur caps u c caps' -> matches (Group n r) cur caps u c ((n, u) :: caps')
| M_Bol cur caps : prev cur = None -> matches Bol cur caps EmptyString cur caps
| M_Eol cur caps : at_eol cur = true -> matches Eol cur caps EmptyString cur caps
| M_WordB cur caps : at_word_boundary cur = true -> matches WordB cur caps EmptyString cur caps
| M_NotBehind p cur caps :
    holds p (prev cur) = false -> matches (NotBehind p) cur caps EmptyString cur caps
| M_NotAhead p cur caps :
    holds p (next cur) = false -> matches (NotAhead p) cur caps EmptyString cur caps.

(** The last character of [before], [pv] when [before] is empty. *)
Fixpoint last_char (pv : option ascii) (before : string) : option ascii :=
  match before with
  | EmptyString => pv
  | String c s => last_char (Some c) s
  end.

Fixpoint all_of (p : ascii -> bool) (s : string) : bool :=
  match s with
  | EmptyString => true
  | String c s' => p c && all_of p s'
  end.

Definition head_char (s : string) : option ascii :=
  match s with
  | EmptyString => None
  | String c _ => Some c
  end.

End ReSem.

Import ReSem.

Definition two_digits (code : string) : Prop :=
  exists d1 d2, is_digit d1 = true /\ is_digit d2 = true
                /\ code = String d1 (String d2 EmptyString).

(** [code] stands in square brackets somewhere in [text]. *)
Definition in_brackets (code text : string) : Prop :=
  exists a b, text = a +:+ "[" +:+ code +:+ "]" +:+ b.

(** [code] follows the whole word REGION, in any letter case, with only
    characters other than digits in between, and ends at a word boundary. *)
Definition after_region_word (code text : string) : Prop :=
  exists a w gap b,
    text = a +:+ w +:+ gap +:+ code +:+ b
    /\ Str.upper w = "REGION"
    /\ holds is_word (last_char None a) = false
    /\ holds is_word (head_char gap) = false
    /\ gap <> EmptyString
    /\ all_of (neg is_digit) gap = true
    /\ holds is_word (head_char b) = false.

(** Invert every [matches] hypothesis whose expression is a constructor. *)
Ltac invert_matches :=
  repeat match goal with
    | H : matches Eps _ _ _ _ _ |- _ => inversion H; subst; clear H
    | H : matches (Chr _) _ _ _ _ _ |- _ => inversion H; subst; clear H
    | H : matches (Seq _ _) _ _ _ _ _ |- _ => inversion H; subst; clear H
    | H : matches (Alt _ _) _ _ _ _ _ |- _ => inversion H; subst; clear H
    | H : matches (Star _ _) _ _ _ _ _ |- _ => inversion H; subst; clear H
    | H : matches (Group _ _) _ _ _ _ _ |- _ => inversion H; subst; clear H
    | H : matches Bol _ _ _ _ _ |- _ => inversion H; subst; clear H
    | H : matches Eol _ _ _ _ _ |- _ => inversion H; subst; clear H
    | H : matches WordB _ _ _ _ _ |- _ => inversion H; subst; clear H
    | H : matches (NotBehind _) _ _ _ _ _ |- _ => inversion H; subst; clear H
    | H : matches (NotAhead _) _ _ _ _ _ |- _ => inversion H; subst; clear H
    end.

(** Unfold the derived forms of a pattern in [H]. *)
Ltac unfold_pattern H :=
  cbv beta iota zeta delta
    [DATE_ISO DATE_MDY DATE_DMY year month2 day2 month12 day12 month_name
     SCALE_PATTERN UPPER_TRIPLE_SPLIT IOC_CODE_RE anchor REGION_BRACKET REGION_WORD
     BLANKS PART_SEP label_sep COUNTRY_LABEL STATE_LABEL LOCATION_LABEL
     lit opt plus times upto between at_least seqs alts word Nat.sub List.map] in H.

(** The words of the specification for the second place a region code may
    stand, read generously: right after the word REGION, in any letter
    case, with nothing but blanks in between. *)
Fixpoint drop_chars (n : nat) (s : string) : string :=
  match n, s with
  | S n', String _ s' => drop_chars n' s'
  | _, _ => s
  end.

Fixpoint right_after_REGION (code text : string) : bool :=
  (String.prefix "REGION" (Str.upper text)
   && String.prefix code (Str.lstrip (drop_chars 6 text)))
  || match text with
     | EmptyString => false
     | String _ text' => right_after_REGION code text'
     end.

(** [piece] occurs in [text]. *)
Fixpoint occurs (piece text : string) : bool :=
  String.prefix piece text
  || match text with
     | EmptyString => false
     | String _ text' => occurs piece text'
     end.

(** The shape [IOC_CODE_RE] accepts: three to six letters or digits, and
    at most a final line feed after them. *)
Definition ioc_code_shape (code : string) : Prop :=
  exists body tail,
    code = body +:+ tail
    /\ 3 <= String.length body <= 6
    /\ all_of is_alnum body = true
    /\ (tail = EmptyString \/ tail = String "010" EmptyString).

(** Two lines of text, a line feed between them. *)
Definition two_lines (l1 l2 : string) : string := l1 +:+ String "010" l2.

(** ** Vocabulary for the progress log *)

(** The log holds an entry for [id] with the outcome ok. *)
Definition has_ok_entry (lines : list log_line) (id : string) : Prop :=
  exists d v,
    In (Obj d) lines /\ d !! "file_id" = Some v /\ py_str v = id
    /\ d !! "status" = Some (JStr "ok").

(** Every entry the log holds for [id] has the outcome error. *)
Definition only_error_entries (lines : list log_line) (id : string) : Prop :=
  forall d v,
    In (Obj d) lines -> d !! "file_id" = Some v -> py_str v = id ->
    d !! "status" = Some (JStr "error").

(** [line] is an entry for the item [file_id]. *)
Definition entry_of (line : log_line) (file_id : string) : Prop :=
  exists d, line = Obj d /\ d !! "file_id" = Some (JStr file_id).

(** The items of the list that a run with the frontier [done] skips, and
    those it attempts. *)
Definition skipped_items (done : gset string) (items : list (string * string))
    : list (string * string) :=
  List.filter (fun it => bool_decide (fst it ∈ done)) items.

Definition attempted_items (done : gset string) (items : list (string * string))
    : list (string * string) :=
  List.filter (fun it => negb (bool_decide (fst it ∈ done))) items.

(** ** A small world to run the loop in *)

Definition demo_args (resume interactive : bool) : args :=
  Args resume interactive 6 3 EmptyString false.

Definition demo_fmt (conf : Q) : string := "0.0".

Definition demo_download (file_id rel_path : string) : option exn := None.

Definition demo_ocr (rel_path : string) : result (list (string * Q)) :=
  Ok [("COUNTRY: JAPAN", 90%Q); ("COUNTRY JAPAN 2021-03-11", 80%Q)].

Definition demo_log : option (list log_line) :=
  Some [Obj (error_record "id1" "roll1/a.png" (Exn "RuntimeError" "Failed to read image"));
        Obj (ok_record "id1" "roll1/a.png" 6 3);
        Junk;
        Obj (error_record "id2" "roll1/b.png" (Exn "RuntimeError" "Failed to read image"))].

Definition demo_items : list (string * string) :=
  [("id1", "roll1/a.png"); ("id2", "roll1/b.png"); ("id3", "roll1/c.png")].

(** ** Vocabulary for the variant scorer *)

(** The rank of a candidate: anchor score, confidence, length of the text. *)
Definition rank (c : string * Q) : Z * Q * nat :=
  (_anchor_score (fst c), snd c, String.length (fst c)).

(** The strict lexicographic order on ranks. *)
Definition rank_lt (k1 k2 : Z * Q * nat) : Prop :=
  let '(a1, q1, n1) := k1 in
  let '(a2, q2, n2) := k2 in
  (a1 < a2)%Z
  \/ (a1 = a2 /\ (q1 < q2)%Q)
  \/ (a1 = a2 /\ (q1 == q2)%Q /\ n1 < n2).

(** The number of anchor patterns found in [t]. *)
Definition anchors_found (t : string) : nat :=
  length (List.filter (fun pat => found (search pat t)) OCR_ANCHORS).

(** The best so far is the first of the candidates seen that none of them
    outranks. *)
Definition first_best (seen : list (string * Q)) (b : best) : Prop :=
  exists i,
    best_variant b = Some i
    /\ seen !! i = Some (best_text b, best_conf b)
    /\ best_anchor b = _anchor_score (best_text b)
    /\ (forall j c, seen !! j = Some c ->
          ~ rank_lt (rank (best_text b, best_conf b)) (rank c))
    /\ (forall j c, j < i -> seen !! j = Some c ->
          rank_lt (rank c) (rank (best_text b, best_conf b))).

(** [n] items, numbered from 0. *)
Definition demo_many (n : nat) : list (string * string) :=
  List.map (fun i => ("id" +:+ pretty i, "roll1/" +:+ pretty i +:+ ".png")) (seq 0 n).

(** ** Vocabulary for the review *)

(** The operator's answer to the final question counts as a no: it is not
    blank and is neither y nor yes, letter case and blanks around it apart. *)
Definition declines (answer : string) : bool :=
  let inp := Str.lower (Str.strip answer) in
  nonempty inp && negb (String.eqb inp "y" || String.eqb inp "yes").

(** ** Vocabulary for the batch writer *)

(** The batches written are full, the buffer is not, and together they
    hold one row for each success counted. *)
Definition batches_ok (st : run_state) : Prop :=
  Forall (fun batch => length batch = 25) (excel st)
  /\ length (rows_to_write st) < 25
  /\ ok_count st = 25 * length (excel st) + length (rows_to_write st).

(** What an operator types for the twelve fields of a review: a country,
    then Enter eleven times. *)
Definition demo_answers : list string := " Japan " :: List.repeat EmptyString 11.

(** ** Vocabulary for dates *)

Definition digit_value (c : ascii) : nat := nat_of_ascii c - 48.

(** The number a run of decimal digits writes. *)
Fixpoint value_from (acc : nat) (s : string) : nat :=
  match s with
  | EmptyString => acc
  | String c s' => value_from (10 * acc + digit_value c) s'
  end.

Definition value (s : string) : nat := value_from 0 s.

(** [n] decimal digits. *)
Definition digits (n : nat) (s : string) : Prop :=
  String.length s = n /\ all_of is_digit s = true.

(** A canonical date: four digits of a year from 1900 to 2099, two digits
    of a month from 01 to 12, two digits of a day from 01 to 31, with a
    slash between them. *)
Definition canonical_ymd (s : string) : Prop :=
  exists y m d,
    s = y +:+ "/" +:+ m +:+ "/" +:+ d
    /\ digits 4 y /\ digits 2 m /\ digits 2 d
    /\ 1900 <= value y <= 2099
    /\ 1 <= value m <= 12
    /\ 1 <= value d <= 31.

(** What [normalize_date_to_ymd] returns when [pat] is the pattern that
    decides: the date of its leftmost match. *)
Definition decided_by (pat : regex) (text result : string) : Prop :=
  exists m, search pat text = Some m /\ date_of_match m = Some result.

(** The month number the loop of [normalize_date_to_ymd] reads off the
    group [mon]. *)
Definition month_number (mon_group : string) : string :=
  let mon := Str.remove_char "." (Str.take 4 (Str.upper mon_group)) in
  dict_get (Str.take 4 mon) MONTH_MAP (dict_get (Str.take 3 mon) MONTH_MAP EmptyString).

(** ** Vocabulary for trimming *)

(** No blank at the start. *)
Definition no_lead (s : string) : Prop := holds is_space (head_char s) = false.

(** The batches a finished run has written: full batches, then at most
    one batch that is not full and not empty. *)
Definition batches_of_run (batches : list (list Row)) : Prop :=
  exists full last,
    batches = full ++ last
    /\ Forall (fun batch => length batch = 25) full
    /\ (last = [] \/ exists batch, last = [batch] /\ 1 <= length batch < 25).

(** The operator's answer to the final question counts as a yes: it is
    blank, or y or yes, letter case and blanks around it apart. *)
Definition accepts (answer : string) : bool := negb (declines answer).

(** What a field is after its prompt: the value it had when the operator
    typed nothing but blanks, the trimmed input otherwise. *)
Definition reviewed (current answer : string) : string :=
  if Str.is_empty (Str.strip answer) then current else Str.strip answer.

(** A row and its fields to review. *)
Definition demo_fields : fields := resolve_fields ∅ ∅ ∅ ∅ ∅ "COUNTRY: JAPAN".

Definition demo_row : Row :=
  mkRow "roll1/a.png" "JAPAN" EmptyString EmptyString EmptyString EmptyString
    EmptyString EmptyString EmptyString EmptyString EmptyString EmptyString EmptyString
    "1" EmptyString "UNKNOWN" "avg_conf=0.0".

(** ** Vocabulary for the scale and for the rows *)

(** A scale as [parse_scale] writes it: 1, a colon, one to four digits. *)
Definition scale_shape (s : string) : Prop :=
  exists den,
    s = "1:" +:+ den /\ 1 <= String.length den <= 4 /\ all_of is_digit den = true.

(** Trimming leaves the text as it is. *)
Definition trimmed (s : string) : Prop := Str.strip s = s.

(** The three parts of a triplet are trimmed. *)
Definition trimmed3 (t : string * string * string) : Prop :=
  trimmed (fst (fst t)) /\ trimmed (snd (fst t)) /\ trimmed (snd t).


(** What the fields of a row built without review are. *)
Record row_ok (regions_map : gmap string string) (ioc_index : gmap (string * string) string)
    (rel_path : string) (row : Row) : Prop := RowOk {
  ok_file_name : FILE_NAME row = rel_path;
  ok_images : IMAGES row = "1";
  ok_unused :
    START_RECORD row = EmptyString /\ END_RECORD row = EmptyString
    /\ TSEVENT_ID row = EmptyString /\ TSRUNUP_ID row = EmptyString;
  ok_triplet : trimmed (COUNTRY row) /\ trimmed (STATE row) /\ trimmed (LOCATION row);
  ok_region : REGION_CODE row = EmptyString \/ is_Some (regions_map !! REGION_CODE row);
  ok_date : RECORDED_DATE row = EmptyString \/ canonical_ymd (RECORDED_DATE row);
  ok_scale : SCALE row = EmptyString \/ scale_shape (SCALE row);
  ok_short :
    LOCATION_SHORT row = EmptyString
    \/ (ioc_code_shape (LOCATION_SHORT row)
        /\ ioc_index !! (_upper (COUNTRY row), _upper (LOCATION row))
           = Some (LOCATION_SHORT row))
}.

(** ** Vocabulary for blanks *)

(** A space or a tab, the characters [sanitize_text] collapses. *)
Definition is_blank : ascii -> bool := either (is_char " ") (is_char "009").

(** Whitespace that does not end a line: space, tab and the unit separator. *)
Definition is_gap (c : ascii) : bool := is_space c && negb (is_linebreak c).

(** The longest prefix of characters of the class, and what follows it. *)
Fixpoint take_while (p : ascii -> bool) (s : string) : string :=
  match s with
  | EmptyString => EmptyString
  | String c s' => if p c then String c (take_while p s') else EmptyString
  end.

Fixpoint drop_while (p : ascii -> bool) (s : string) : string :=
  match s with
  | EmptyString => EmptyString
  | String c s' => if p c then drop_while p s' else s
  end.

(** Two characters of the class stand side by side somewhere in the text. *)
Fixpoint has_pair (p : ascii -> bool) (s : string) : bool :=
  match s with
  | EmptyString => false
  | String c s' => (p c && holds p (head_char s')) || has_pair p s'
  end.

(** A line of a text without two gaps side by side. *)
Definition plain_line (line : string) : Prop :=
  has_pair is_gap line = false /\ all_of (neg is_linebreak) line = true.

(** A line that Strategy A accepts: trimmed, it matches the pattern of the
    upper-case triple. *)
Definition strategy_a_line (line : string) : bool :=
  found (re_match UPPER_TRIPLE_SPLIT (Str.strip line)).

(** The maximal runs of digits of a text, from left to right; [cur] is the
    run being read. *)
Fixpoint digit_runs_from (cur : string) (s : string) : list string :=
  match s with
  | EmptyString => if Str.is_empty cur then [] else [cur]
  | String c s' =>
      if is_digit c then digit_runs_from (cur +:+ String c EmptyString) s'
      else (if Str.is_empty cur then [] else [cur]) ++ digit_runs_from EmptyString s'
  end.

Definition digit_runs (s : string) : list string := digit_runs_from EmptyString s.

(** Four digits that write a year from 1900 to 2099. *)
Definition year_1900_2099 (r : string) : Prop :=
  digits 4 r /\ 1900 <= value r <= 2099.

(* === end of definitions === *)

(** * Properties *)

(** ** Text helpers *)

Lemma is_empty_true (s : string) : Str.is_empty s = true <-> s = EmptyString.
Proof. destruct s; simpl; split; congruence. Qed.

Lemma is_empty_false (s : string) : Str.is_empty s = false <-> s <> EmptyString.
Proof. destruct s; simpl; split; congruence. Qed.

Lemma nonempty_true (s : string) : nonempty s = true <-> s <> EmptyString.
Proof. unfold nonempty. rewrite negb_true_iff. apply is_empty_false. Qed.

(** ** The allow-list resolver *)

(** What the resolver does on every input: when it clears the review flag,
    the value it returns is the upper-cased trimmed candidate and belongs to
    the vocabulary; when the normalized candidate is not in the vocabulary,
    it returns the trimmed candidate, letter case untouched, with the flag
    set. *)
Lemma validate_against_allow_list_spec (value : string) (allow : gset string) :
  (snd (validate_against_allow_list value allow) = false ->
     fst (validate_against_allow_list value allow) = _upper value
     /\ fst (validate_against_allow_list value allow) ∈ allow)
  /\ (_upper value ∉ allow ->
        validate_against_allow_list value allow = (Str.strip value, true)).
Proof.
  unfold validate_against_allow_list.
  destruct (Str.is_empty value || Str.is_empty (Str.strip value)) eqn:Hblank; simpl.
  - split; [discriminate|]. intros _. f_equal.
    apply orb_true_iff in Hblank as [H|H]; apply is_empty_true in H.
    + subst value. reflexivity.
    + congruence.
  - case_bool_decide as Hin; simpl; split; try discriminate; try done.
Qed.

Lemma validate_against_allow_list_spec_witness :
  (fst (validate_against_allow_list " tokyo " {[ "TOKYO" ]}) = _upper " tokyo "
   /\ fst (validate_against_allow_list " tokyo " {[ "TOKYO" ]}) ∈ ({[ "TOKYO" ]} : gset string))
  /\ validate_against_allow_list " Tokio " {[ "TOKYO" ]} = (Str.strip " Tokio ", true).
Proof.
  split.
  - apply (proj1 (validate_against_allow_list_spec " tokyo " {[ "TOKYO" ]})).
    vm_compute. reflexivity.
  - apply (proj2 (validate_against_allow_list_spec " Tokio " {[ "TOKYO" ]})).
    intros H. apply elem_of_singleton in H. vm_compute in H. discriminate H.
Defined.

(** C1: on a candidate that is not in the vocabulary the code does not keep
    the text as it is, which is what its docstring and the claim say: the
    candidate comes back with the blanks around it removed. On the candidate
    Tokio with a blank on each side and the vocabulary that holds TOKYO
    alone, the normalized candidate TOKIO is not in the vocabulary, and the
    resolver returns Tokio without the blanks, with the review flag set; a
    candidate made of blanks comes back as the empty string. *)
Theorem validate_against_allow_list_not_unmodified :
  (_upper " Tokio " ∉ ({[ "TOKYO" ]} : gset string))
  /\ validate_against_allow_list " Tokio " {[ "TOKYO" ]} = ("Tokio", true)
  /\ validate_against_allow_list " Tokio " {[ "TOKYO" ]} <> (" Tokio ", true)
  /\ validate_against_allow_list "  " {[ "TOKYO" ]} = (EmptyString, true).
Proof.
  split; [|split; [|split]].
  - intros H. apply elem_of_singleton in H. vm_compute in H. discriminate H.
  - vm_compute. reflexivity.
  - vm_compute. discriminate.
  - vm_compute. reflexivity.
Qed.

(** ** The matcher returns only matches *)

Module ReFacts.


Lemma append_nil_r (s : string) : s +:+ EmptyString = s.
Proof. induction s; simpl; congruence. Qed.

Lemma append_assoc (a b c : string) : (a +:+ b) +:+ c = a +:+ (b +:+ c).
Proof. induction a; simpl; congruence. Qed.

Lemma length_append (a b : string) :
  String.length (a +:+ b) = String.length a + String.length b.
Proof. induction a; simpl; congruence. Qed.

Section Sound.
Context {R : Type}.

Lemma star_greedy_sound p : forall s pv (k : string -> cursor -> option R) x,
  star_greedy p pv s k = Some x ->
  exists u c, run p (Cursor pv s) u c /\ k u c = Some x.
Proof.
  induction s as [|c s IH]; intros pv k x H; simpl in H.
  - exists EmptyString, (Cursor pv EmptyString). split; [constructor | exact H].
  - destruct (p c) eqn:Hp.
    + destruct (star_greedy p (Some c) s _) eqn:Hs.
      * injection H as ->. apply IH in Hs as (u & c' & Hrun & Hk).
        exists (String c u), c'. split; [by constructor | exact Hk].
      * exists EmptyString, (Cursor pv (String c s)). split; [constructor | exact H].
    + exists EmptyString, (Cursor pv (String c s)). split; [constructor | exact H].
Qed.

Lemma star_lazy_sound p : forall s pv (k : string -> cursor -> option R) x,
  star_lazy p pv s k = Some x ->
  exists u c, run p (Cursor pv s) u c /\ k u c = Some x.
Proof.
  induction s as [|c s IH]; intros pv k x H; simpl in H.
  - destruct (k EmptyString _) eqn:Hk; [|discriminate].
    exists EmptyString, (Cursor pv EmptyString). split; [constructor | congruence].
  - destruct (k EmptyString _) eqn:Hk.
    + exists EmptyString, (Cursor pv (String c s)). split; [constructor | congruence].
    + destruct (p c) eqn:Hp; [|discriminate].
      apply IH in H as (u & c' & Hrun & Hk').
      exists (String c u), c'. split; [by constructor | exact Hk'].
Qed.

Lemma rmatch_sound : forall r cur caps (k : string -> cursor -> captures -> option R) x,
  rmatch r cur caps k = Some x ->
  exists u c caps', matches r cur caps u c caps' /\ k u c caps' = Some x.
Proof.
  induction r as [|p|r1 IH1 r2 IH2|r1 IH1 r2 IH2|g p|n r IH| | | |p|p];
    intros cur caps k x H; simpl in H.
  - eauto using matches.
  - destruct cur as [pv [|c s]]; simpl in H; [discriminate|].
    destruct (p c) eqn:Hp; [|discriminate].
    eexists _, _, _. split; [by constructor | exact H].
  - apply IH1 in H as (u1 & c1 & caps1 & H1 & H).
    apply IH2 in H as (u2 & c2 & caps2 & H2 & H).
    eexists _, _, _. split; [econstructor; eassumption | exact H].
  - destruct (rmatch r1 cur caps k) eqn:E1.
    + injection H as ->. apply IH1 in E1 as (u & c & caps' & Hm & Hk).
      eexists _, _, _. split; [apply M_AltL; eassumption | exact Hk].
    + apply IH2 in H as (u & c & caps' & Hm & Hk).
      eexists _, _, _. split; [apply M_AltR; eassumption | exact Hk].
  - destruct cur as [pv s]. destruct g; simpl in H.
    + apply star_greedy_sound in H as (u & c & Hrun & Hk).
      eexists _, _, _. split; [constructor; eassumption | exact Hk].
    + apply star_lazy_sound in H as (u & c & Hrun & Hk).
      eexists _, _, _. split; [constructor; eassumption | exact Hk].
  - apply IH in H as (u & c & caps' & Hm & Hk).
    eexists _, _, _. split; [constructor; eassumption | exact Hk].
  - destruct (prev cur) eqn:Hp; [discriminate|].
    eexists _, _, _. split; [by constructor | exact H].
  - destruct (at_eol cur) eqn:Hp; [|discriminate].
    eexists _, _, _. split; [by constructor | exact H].
  - destruct (at_word_boundary cur) eqn:Hp; [|discriminate].
    eexists _, _, _. split; [by constructor | exact H].
  - destruct (holds p (prev cur)) eqn:Hp; [discriminate|].
    eexists _, _, _. split; [by constructor | exact H].
  - destruct (holds p (next cur)) eqn:Hp; [discriminate|].
    eexists _, _, _. split; [by constructor | exact H].
Qed.
End Sound.

(** A match reads a prefix of the text at the cursor. *)
Lemma run_rest p cur u c : run p cur u c -> rest cur = u +:+ rest c.
Proof. induction 1; simpl in *; congruence. Qed.

Lemma matches_rest r cur caps u c caps' :
  matches r cur caps u c caps' -> rest cur = u +:+ rest c.
Proof.
  induction 1; simpl in *; try reflexivity.
  - rewrite append_assoc. congruence.
  - assumption.
  - assumption.
  - eauto using run_rest.
  - assumption.
Qed.


Lemma last_char_append pv a c :
  last_char pv (a +:+ String c EmptyString) = Some c.
Proof. revert pv. induction a; intros; simpl; auto. Qed.

Lemma match_at_sound r before cur m :
  match_at r before cur = Some m ->
  m_before m = before /\ matches r cur [] (m_text m) (m_after m) (m_groups m).
Proof.
  unfold match_at. intros H.
  apply rmatch_sound in H as (u & c & caps' & Hm & Hk).
  injection Hk as <-. simpl. auto.
Qed.

(** A search result is a match at some cursor of the text: the text is
    what lies before the match followed by what lay at the cursor. *)
Lemma search_from_sound r : forall s before pv m,
  search_from r before pv s = Some m ->
  exists a b,
    s = a +:+ b /\ m_before m = before +:+ a
    /\ matches r (Cursor (last_char pv a) b) [] (m_text m) (m_after m) (m_groups m).
Proof.
  induction s as [|c s IH]; intros before pv m H; simpl in H.
  - destruct (match_at r before _) eqn:E; [|discriminate]. injection H as ->.
    apply match_at_sound in E as [Hb Hm].
    exists EmptyString, EmptyString. rewrite ?append_nil_r. repeat split; simpl; auto.
  - destruct (match_at r before _) eqn:E.
    + injection H as ->. apply match_at_sound in E as [Hb Hm].
      exists EmptyString, (String c s). rewrite ?append_nil_r. repeat split; simpl; auto.
    + apply IH in H as (a & b & -> & Hb & Hm).
      exists (String c a), b. rewrite Hb, append_assoc. repeat split; simpl; auto.
Qed.

Lemma search_sound r text m :
  search r text = Some m ->
  exists b,
    text = m_before m +:+ b
    /\ b = m_text m +:+ rest (m_after m)
    /\ matches r (Cursor (last_char None (m_before m)) b) [] (m_text m) (m_after m) (m_groups m).
Proof.
  unfold search. intros H.
  apply search_from_sound in H as (a & b & -> & Hb & Hm). simpl in Hb. subst a.
  exists b. split; [reflexivity|]. split; [|exact Hm].
  apply matches_rest in Hm. exact Hm.
Qed.

End ReFacts.

Import ReFacts.

(** ** Reading a match of a given pattern *)




Lemma is_char_eq (a c : ascii) : is_char a c = true -> c = a.
Proof. unfold is_char. intros H. apply Ascii.eqb_eq in H. congruence. Qed.

Lemma region_bracket_shape cur u c caps :
  matches REGION_BRACKET cur [] u c caps ->
  exists code, two_digits code /\ group "1" caps = Some code
               /\ u = "[" +:+ code +:+ "]".
Proof.
  intros H. unfold_pattern H. invert_matches.
  repeat match goal with H : is_char _ _ = true |- _ => apply is_char_eq in H; subst end.
  eexists. split; [|split; reflexivity]. eexists _, _. eauto.
Qed.

(** *** Character facts *)

Lemma is_upper_lower_char (c : ascii) : is_upper (lower_char c) = false.
Proof. destruct c as [[] [] [] [] [] [] [] []]; reflexivity. Qed.

Lemma is_digit_is_word (c : ascii) : is_digit c = true -> is_word c = true.
Proof. destruct c as [[] [] [] [] [] [] [] []]; simpl; intros H; try reflexivity; discriminate H. Qed.

Lemma is_upper_is_word (c : ascii) : is_upper c = true -> is_word c = true.
Proof. destruct c as [[] [] [] [] [] [] [] []]; simpl; intros H; try reflexivity; discriminate H. Qed.

Lemma upper_char_is_word (c : ascii) : is_upper (upper_char c) = true -> is_word c = true.
Proof. destruct c as [[] [] [] [] [] [] [] []]; simpl; intros H; try reflexivity; discriminate H. Qed.

Lemma ci_is_char (a c : ascii) :
  is_upper a = true -> ci (is_char a) c = true -> upper_char c = a.
Proof.
  unfold ci. intros Ha H. apply orb_true_iff in H as [H|H]; apply is_char_eq in H.
  - exact H.
  - rewrite <- H, is_upper_lower_char in Ha. discriminate.
Qed.

(** *** Runs and cursors *)


Lemma last_char_app pv (a b : string) :
  last_char pv (a +:+ b) = last_char (last_char pv a) b.
Proof. revert pv. induction a; intros; simpl; auto. Qed.

Lemma run_all p cur u c :
  run p cur u c -> all_of p u = true /\ prev c = last_char (prev cur) u.
Proof.
  induction 1 as [|pv c s u cur' Hp Hrun [IH1 IH2]]; simpl; [auto|].
  rewrite Hp, IH1. simpl in IH2. auto.
Qed.

Lemma matches_prev r cur caps u c caps' :
  matches r cur caps u c caps' -> prev c = last_char (prev cur) u.
Proof.
  induction 1; simpl in *; try reflexivity; try assumption.
  - rewrite last_char_app. congruence.
  - eapply run_all; eassumption.
Qed.

Lemma next_head (cur : cursor) : next cur = head_char (rest cur).
Proof. reflexivity. Qed.

(** *** The two region patterns *)


Lemma region_word_shape cur u c caps :
  matches REGION_WORD cur [] u c caps ->
  exists w gap code,
    u = w +:+ gap +:+ code
    /\ two_digits code /\ group "1" caps = Some code
    /\ Str.upper w = "REGION"
    /\ holds is_word (prev cur) = false
    /\ holds is_word (head_char gap) = false
    /\ gap <> EmptyString
    /\ all_of (neg is_digit) gap = true
    /\ holds is_word (head_char (rest c)) = false.
Proof.
  intros H. unfold_pattern H.
  inversion H as [| |? ? ? ? ? ? ? ? ? ? Hb1 H1| | | | | | | | |]; subst; clear H.
  inversion Hb1; subst; clear Hb1.
  inversion H1 as [| |? ? ? ? ? ? ? ? ? ? Hw H2| | | | | | | | |]; subst; clear H1.
  inversion H2 as [| |? ? ? ? ? ? ? ? ? ? Hb2 H3| | | | | | | | |]; subst; clear H2.
  inversion H3 as [| |? ? ? ? ? ? ? ? ? ? Hgap H4| | | | | | | | |]; subst; clear H3.
  inversion H4 as [| |? ? ? ? ? ? ? ? ? ? Hcode Hb3| | | | | | | | |]; subst; clear H4.
  invert_matches.
  repeat match goal with
    | H : ci (is_char _) _ = true |- _ => apply ci_is_char in H; [|reflexivity]
    end.
  match goal with H : run _ _ ?g _ |- _ =>
    pose proof (run_all _ _ _ _ H) as [Hall _]; pose proof (run_rest _ _ _ _ H) as Hrest;
    rename g into gap
  end.
  simpl in Hrest.
  repeat match goal with H : at_word_boundary _ = true |- _ =>
    unfold at_word_boundary in H; simpl in H end.
  subst s. simpl. rewrite ?append_nil_r.
  assert (Hw6 : is_word c6 = true) by (apply upper_char_is_word; rewrite H1; reflexivity).
  assert (Hw9 : is_word c9 = true) by (apply upper_char_is_word; rewrite H2; reflexivity).
  assert (Hw1 : is_word c1 = true) by (apply is_digit_is_word; assumption).
  assert (Hw10 : is_word c10 = true) by (apply is_digit_is_word; assumption).
  rewrite Hw6 in H. rewrite Hw9 in H4. rewrite Hw10 in H0. simpl in H0, H4.
  exists (String c6 (String c5 (String c7 (String c8 (String c0 (String c9 EmptyString)))))),
    gap, (String c1 (String c10 EmptyString)).
  split; [reflexivity|].
  split; [eexists _, _; eauto|].
  split; [reflexivity|].
  split; [unfold Str.upper; simpl; congruence|].
  split; [destruct (holds is_word pv); [discriminate H | reflexivity]|].
  destruct gap as [|g0 gap]; simpl in H4.
  - rewrite Hw1 in H4. discriminate H4.
  - simpl. split; [destruct (is_word g0); [discriminate H4 | reflexivity]|].
    split; [discriminate|]. split; [exact Hall|].
    destruct s0; simpl in *; [reflexivity|].
    destruct (is_word a); [discriminate H0 | reflexivity].
Qed.

(** ** Region code resolution *)

(** C4 (as amended): region-code resolution returns either the empty string
    with the review flag set, or a two-digit code with the flag cleared; in
    the second case the code is a key of the Region Map and the text holds
    it in square brackets, or after the whole word REGION (in any letter
    case) with only non-digit characters in between, where the code ends at
    a word boundary. *)
Theorem parse_region_code_strict_spec (ocr_text : string) (regions_map : gmap string string) :
  parse_region_code_strict ocr_text regions_map = (EmptyString, true)
  \/ exists code,
       parse_region_code_strict ocr_text regions_map = (code, false)
       /\ two_digits code
       /\ is_Some (regions_map !! code)
       /\ (in_brackets code ocr_text \/ after_region_word code ocr_text).
Proof.
  unfold parse_region_code_strict.
  destruct (Str.is_empty ocr_text); [by left|].
  destruct (region_hit (search REGION_BRACKET ocr_text) regions_map) eqn:Hhit1.
  - right. destruct (search REGION_BRACKET ocr_text) as [m|] eqn:Hs; [|discriminate].
    simpl in Hhit1. apply bool_decide_eq_true in Hhit1.
    apply search_sound in Hs as (b & Htext & Hb & Hm).
    apply region_bracket_shape in Hm as (code & Hcode & Hg & Hu).
    unfold region_of, group_or_empty in *. rewrite Hg in *.
    exists code. repeat split; try assumption.
    left. exists (m_before m), (rest (m_after m)).
    rewrite Htext, Hb, Hu. f_equal. simpl. f_equal. by rewrite !append_assoc.
  - destruct (region_hit (search REGION_WORD ocr_text) regions_map) eqn:Hhit2; [|by left].
    right. destruct (search REGION_WORD ocr_text) as [m|] eqn:Hs; [|discriminate].
    simpl in Hhit2. apply bool_decide_eq_true in Hhit2.
    apply search_sound in Hs as (b & Htext & Hb & Hm).
    apply region_word_shape in Hm
      as (w & gap & code & Hu & Hcode & Hg & Hw & Hpv & Hgap & Hne & Hall & Hafter).
    unfold region_of, group_or_empty in *. rewrite Hg in *.
    exists code. repeat split; try assumption.
    right. exists (m_before m), w, gap, (rest (m_after m)).
    repeat split; try assumption.
    rewrite Htext, Hb, Hu. by rewrite !append_assoc.
Qed.

(** The claim as first written fails: a code is taken that neither stands in
    brackets nor right after the word REGION. *)
Lemma parse_region_code_strict_not_immediate :
  parse_region_code_strict "REGION NORTH 22" {[ "22" := "NORTH PACIFIC" ]} = ("22", false)
  /\ occurs "[22]" "REGION NORTH 22" = false
  /\ right_after_REGION "22" "REGION NORTH 22" = false.
Proof. vm_compute. auto. Qed.
Lemma at_eol_rest (c : cursor) :
  at_eol c = true -> rest c = EmptyString \/ rest c = String "010" EmptyString.
Proof.
  unfold at_eol. destruct (rest c) as [|a [|b s]]; auto.
  - destruct (Ascii.eqb_spec a "010"); [subst; auto|].
    destruct a as [[] [] [] [] [] [] [] []]; try discriminate; congruence.
  - destruct a as [[] [] [] [] [] [] [] []]; discriminate.
Qed.

Lemma ioc_code_re_shape (code : string) :
  found (re_match IOC_CODE_RE code) = true -> ioc_code_shape code.
Proof.
  unfold re_match. destruct (match_at _ _ _) as [m|] eqn:E; [intros _|discriminate].
  apply match_at_sound in E as [_ Hm].
  pose proof (matches_rest _ _ _ _ _ _ Hm) as Hrest. simpl in Hrest.
  unfold_pattern Hm.
  exists (m_text m), (rest (m_after m)). split; [exact Hrest|].
  invert_matches;
    match goal with H : at_eol _ = true |- _ => apply at_eol_rest in H end;
    simpl in *;
    repeat match goal with H : is_alnum _ = true |- _ => rewrite H; clear H end;
    (split; [lia|]); (split; [reflexivity|]); assumption.
Qed.
(** ** Station code resolution *)

Lemma resolve_location_short_strict_nonempty (country location : string)
    (ioc_index : gmap (string * string) string) :
  fst (resolve_location_short_strict country location ioc_index) <> EmptyString ->
  snd (resolve_location_short_strict country location ioc_index) = false
  /\ country <> EmptyString /\ location <> EmptyString
  /\ ioc_index !! (_upper country, _upper location)
     = Some (fst (resolve_location_short_strict country location ioc_index))
  /\ ioc_code_shape (fst (resolve_location_short_strict country location ioc_index)).
Proof.
  unfold resolve_location_short_strict.
  destruct (bool_decide (ioc_index = ∅) || Str.is_empty country || Str.is_empty location)
    eqn:Hguard; [simpl; congruence|].
  apply orb_false_iff in Hguard as [Hguard Hl]. apply orb_false_iff in Hguard as [_ Hc].
  apply is_empty_false in Hc, Hl.
  destruct (ioc_index !! (_upper country, _upper location)) as [code|] eqn:Hlk; simpl.
  - destruct (nonempty code && found (re_match IOC_CODE_RE code)) eqn:Hok; simpl;
      [|congruence].
    apply andb_true_iff in Hok as [_ Hre]. intros _.
    repeat split; try assumption. by apply ioc_code_re_shape.
  - congruence.
Qed.

(** C2 (as amended): for every OCR text, the station code that comes out of
    the resolution is non-empty only if the country and the location that
    come out of the allow-list resolver, confirmed or merely flagged, are
    both non-empty and the Station Index maps the pair of their upper-cased
    trimmed forms to that code, which has the shape of a station code; an
    empty country or location never yields a code. The review flags of the
    country and the location are not consulted. *)
Theorem location_short_only_from_index
    (countries states locations : gset string) (regions_map : gmap string string)
    (ioc_index : gmap (string * string) string) (ocr_text : string) :
  let f := resolve_fields countries states locations regions_map ioc_index ocr_text in
  (country f, country_flag f) = validate_against_allow_list (country_ocr f) countries
  /\ (location f, location_flag f) = validate_against_allow_list (location_ocr f) locations
  /\ (location_short f <> EmptyString ->
      loc_short_flag f = false
      /\ country f <> EmptyString /\ location f <> EmptyString
      /\ ioc_index !! (_upper (country f), _upper (location f)) = Some (location_short f)
      /\ ioc_code_shape (location_short f)).
Proof.
  unfold resolve_fields.
  destruct (parse_country_state_location _) as [[c_ocr s_ocr] l_ocr].
  destruct (validate_against_allow_list c_ocr countries) as [c cf] eqn:Hc.
  destruct (validate_against_allow_list s_ocr states) as [s sf].
  destruct (validate_against_allow_list l_ocr locations) as [l lf] eqn:Hl.
  destruct (parse_region_code_strict _ regions_map) as [rc rf].
  destruct (resolve_location_short_strict c l ioc_index) as [ls lsf] eqn:Hls.
  simpl. split; [congruence|]. split; [congruence|].
  intros Hne.
  pose proof (resolve_location_short_strict_nonempty c l ioc_index) as H.
  rewrite Hls in H. simpl in H. exact (H Hne).
Qed.

Lemma location_short_only_from_index_witness :
  let f := resolve_fields {[ "JAPAN" ]} ∅ {[ "TOKYO" ]} ∅ {[ ("JAPAN", "TOKYO") := "toky" ]}
             (two_lines "COUNTRY: Japan" "LOCATION: Tokyo") in
  loc_short_flag f = false
  /\ country f <> EmptyString /\ location f <> EmptyString
  /\ ({[ ("JAPAN", "TOKYO") := "toky" ]} : gmap (string * string) string)
       !! (_upper (country f), _upper (location f)) = Some (location_short f)
  /\ ioc_code_shape (location_short f).
Proof.
  apply (location_short_only_from_index {[ "JAPAN" ]} ∅ {[ "TOKYO" ]} ∅
           {[ ("JAPAN", "TOKYO") := "toky" ]} (two_lines "COUNTRY: Japan" "LOCATION: Tokyo")).
  vm_compute. discriminate.
Defined.

(** The claim as first written fails: neither the country nor the location
    is confirmed by its vocabulary, and a station code is returned. *)
Lemma location_short_without_confirmation :
  let f := resolve_fields {[ "USA" ]} ∅ {[ "HILO" ]} ∅ {[ ("JAPAN", "TOKYO") := "toky" ]}
             (two_lines "COUNTRY: Japan" "LOCATION: Tokyo") in
  country_flag f = true /\ location_flag f = true
  /\ location_short f = "toky" /\ loc_short_flag f = false.
Proof. vm_compute. auto. Qed.

(** ** The progress log and the resumed run *)

Lemma is_ok_true (d : gmap string jval) :
  is_ok d = true <-> d !! "status" = Some (JStr "ok").
Proof.
  unfold is_ok. destruct (d !! "status") as [[s|s]|]; split; intros H; try discriminate.
  - apply String.eqb_eq in H. congruence.
  - injection H as ->. reflexivity.
Qed.

Lemma replay_fold (lines : list log_line) : forall (acc : gset string) (id : string),
  id ∈ foldl replay acc lines <-> id ∈ acc \/ has_ok_entry lines id.
Proof.
  induction lines as [|line lines IH]; intros acc id; simpl.
  - split; [auto|]. intros [H|(d & v & [] & _)]. exact H.
  - rewrite IH. split.
    + intros [Hacc|(d & v & Hin & Hrest)].
      * destruct line as [|d]; simpl in Hacc; [auto|].
        destruct (d !! "file_id") as [fid|] eqn:Hfid; [|auto].
        destruct (is_ok d) eqn:Hok; [|auto].
        apply elem_of_union in Hacc as [Hacc|Hnew]; [auto|].
        apply elem_of_singleton in Hnew. apply is_ok_true in Hok.
        right. exists d, fid. simpl. auto.
      * right. exists d, v. simpl. auto.
    + intros [Hacc|(d & v & [Heq|Hin] & Hfid & Hstr & Hok)].
      * left. destruct line as [|d]; simpl; [exact Hacc|].
        destruct (d !! "file_id"); [|exact Hacc].
        destruct (is_ok d); [|exact Hacc]. apply elem_of_union. auto.
      * subst line. left. simpl. rewrite Hfid.
        apply is_ok_true in Hok. rewrite Hok.
        apply elem_of_union. right. apply elem_of_singleton. congruence.
      * right. exists d, v. auto.
Qed.

Lemma load_processed_ids_ok (log0 : option (list log_line)) (id : string) :
  id ∈ load_processed_ids log0 <-> has_ok_entry (default [] log0) id.
Proof.
  destruct log0 as [lines|]; simpl.
  - rewrite replay_fold. split; [intros [H|H]; [|exact H]|auto].
    by apply not_elem_of_empty in H.
  - split; [intros H; by apply not_elem_of_empty in H|]. intros (d & v & [] & _).
Qed.

Section Resume.

Variables countries states locations : gset string.
Variable regions_map : gmap string string.
Variable ioc_index : gmap (string * string) string.
Variable geocode_fn : option (string -> option (string * string)).
Variable fmt_conf : Q -> string.
Variable download : string -> string -> option exn.
Variable ocr_of : string -> result (list (string * Q)).
Variable a : args.
Variable processed : gset string.

Local Abbreviation step :=
  (main_step countries states locations regions_map ioc_index geocode_fn
     fmt_conf download ocr_of a processed).
Local Abbreviation loop :=
  (main_loop countries states locations regions_map ioc_index geocode_fn
     fmt_conf download ocr_of a processed).

(** A turn of the loop skips the item, or appends one entry for it. *)
Lemma main_step_log (st : run_state) (file_id rel_path : string) :
  (resume a && bool_decide (file_id ∈ processed) = true
   /\ log_path (step st (file_id, rel_path)) = log_path st
   /\ skip_count (step st (file_id, rel_path)) = S (skip_count st))
  \/ (resume a && bool_decide (file_id ∈ processed) = false
      /\ skip_count (step st (file_id, rel_path)) = skip_count st
      /\ exists line,
           entry_of line file_id
           /\ log_path (step st (file_id, rel_path))
              = Some (default [] (log_path st) ++ [line])).
Proof.
  unfold main_step.
  destruct (resume a && bool_decide (file_id ∈ processed)); [left; auto|right].
  split; [reflexivity|].
  destruct (download file_id rel_path) as [e|].
  - split; [reflexivity|]. eexists. split; [|reflexivity].
    eexists. split; [reflexivity|]. unfold error_record. by rewrite lookup_insert_eq.
  - destruct (process_one_image _ _ _ _ _ _ _ _ _ _ _ _ _ _ _) as [[row|e] tty'].
    + assert (Hlk : ok_record file_id rel_path (psm a) (oem a) !! "file_id"
                    = Some (JStr file_id))
        by (unfold ok_record; by rewrite lookup_insert_eq).
      destruct (25 <=? length (rows_to_write st ++ [row])); simpl;
        (split; [reflexivity|]); eexists; (split; [|reflexivity]);
        eexists; (split; [reflexivity|exact Hlk]).
    + split; [reflexivity|]. eexists. split; [|reflexivity].
      eexists. split; [reflexivity|]. unfold error_record. by rewrite lookup_insert_eq.
Qed.

Lemma main_loop_log (items : list (string * string)) : forall st : run_state,
  resume a = true ->
  skip_count (loop st items) = skip_count st + length (skipped_items processed items)
  /\ exists entries,
       default [] (log_path (loop st items)) = default [] (log_path st) ++ entries
       /\ Forall2 entry_of entries (List.map fst (attempted_items processed items)).
Proof.
  induction items as [|[file_id rel_path] items IH]; intros st Hres.
  - simpl. split; [lia|]. exists []. split; [by rewrite app_nil_r|constructor].
  - unfold main_loop in *. cbn [foldl].
    destruct (IH (step st (file_id, rel_path)) Hres) as [Hskip (entries & Hlog & Hent)].
    unfold skipped_items, attempted_items in *. cbn [List.filter fst].
    destruct (main_step_log st file_id rel_path)
      as [(Hin & Hl & Hs)|(Hin & Hs & line & Hline & Hl)];
      rewrite Hres in Hin; simpl in Hin; rewrite Hin; cbn [negb length List.map fst].
    + rewrite Hskip, Hs. split; [lia|]. exists entries. rewrite Hlog, Hl. auto.
    + rewrite Hskip, Hs. split; [lia|]. exists (line :: entries).
      rewrite Hlog, Hl. cbn [from_option id]. rewrite <- app_assoc. split; [reflexivity|].
      constructor; assumption.
Qed.

End Resume.

Lemma final_flush_log (st : run_state) :
  log_path (final_flush st) = log_path st /\ skip_count (final_flush st) = skip_count st.
Proof. unfold final_flush. destruct (rows_to_write st); auto. Qed.

(** C3: the set replayed from the progress log is exactly the set of
    identities with at least one ok entry; a run with [--resume] skips
    exactly the items of that set and attempts every other item, in order,
    appending one entry to the log for each; an item whose entries are all
    errors is not in the set, so it is attempted again. *)
Theorem resume_skips_exactly_the_ok_items
    (countries states locations : gset string) (regions_map : gmap string string)
    (ioc_index : gmap (string * string) string)
    (geocode_fn : option (string -> option (string * string))) (fmt_conf : Q -> string)
    (download : string -> string -> option exn) (ocr_of : string -> result (list (string * Q)))
    (a : args) (log0 : option (list log_line)) (tty0 : list string)
    (image_items : list (string * string)) :
  resume a = true ->
  let done := load_processed_ids log0 in
  let st := main countries states locations regions_map ioc_index geocode_fn fmt_conf
              download ocr_of a log0 tty0 image_items in
  (forall id, id ∈ done <-> has_ok_entry (default [] log0) id)
  /\ (forall id, only_error_entries (default [] log0) id -> id ∉ done)
  /\ skip_count st = length (skipped_items done image_items)
  /\ exists entries,
       default [] (log_path st) = default [] log0 ++ entries
       /\ Forall2 entry_of entries (List.map fst (attempted_items done image_items)).
Proof.
  intros Hres done st.
  split; [intros id; apply load_processed_ids_ok|].
  split.
  - intros id Honly Hin. apply load_processed_ids_ok in Hin as (d & v & Hd & Hfid & Hstr & Hok).
    specialize (Honly d v Hd Hfid Hstr). congruence.
  - subst st. unfold main. rewrite Hres. fold done.
    destruct (final_flush_log
                (main_loop countries states locations regions_map ioc_index geocode_fn
                   fmt_conf download ocr_of a done (RunState [] [] log0 0 0 0 tty0)
                   image_items)) as [-> ->].
    destruct (main_loop_log countries states locations regions_map ioc_index geocode_fn
                fmt_conf download ocr_of a done image_items
                (RunState [] [] log0 0 0 0 tty0) Hres) as [Hskip Hlog].
    simpl in Hskip, Hlog. auto.
Qed.
Lemma resume_skips_exactly_the_ok_items_witness :
  resume (demo_args true false) = true
  /\ let done := load_processed_ids demo_log in
     let st := main ∅ ∅ ∅ ∅ ∅ None demo_fmt demo_download demo_ocr (demo_args true false)
                 demo_log [] demo_items in
     (forall id, id ∈ done <-> has_ok_entry (default [] demo_log) id)
     /\ (forall id, only_error_entries (default [] demo_log) id -> id ∉ done)
     /\ skip_count st = length (skipped_items done demo_items)
     /\ exists entries,
          default [] (log_path st) = default [] demo_log ++ entries
          /\ Forall2 entry_of entries (List.map fst (attempted_items done demo_items)).
Proof.
  split; [reflexivity|].
  apply (resume_skips_exactly_the_ok_items ∅ ∅ ∅ ∅ ∅ None demo_fmt demo_download demo_ocr
           (demo_args true false) demo_log [] demo_items).
  reflexivity.
Defined.
(** ** The variant scorer *)

Lemma Qgtb_true (a b : Q) : Qgtb a b = true <-> (b < a)%Q.
Proof.
  unfold Qgtb. rewrite negb_true_iff. split.
  - intros H. apply Qnot_le_lt. intros Hle. apply Qle_bool_iff in Hle. congruence.
  - intros H. destruct (Qle_bool a b) eqn:E; [|reflexivity].
    apply Qle_bool_iff in E. exfalso. eapply Qlt_not_le; eassumption.
Qed.

Lemma improves_rank_lt (anc : Z) (conf : Q) (text : string) (b : best) :
  improves anc conf text b = true
  <-> rank_lt (best_anchor b, best_conf b, String.length (best_text b))
              (anc, conf, String.length text).
Proof.
  unfold improves, rank_lt.
  rewrite !orb_true_iff, !andb_true_iff, Z.ltb_lt, !Z.eqb_eq, Qgtb_true, Qeq_bool_iff,
    Nat.ltb_lt.
  split.
  - intros [[H|[H1 H2]]|[[H1 H2] H3]]; [auto | auto |].
    right. right. repeat split; auto. symmetry. exact H2.
  - intros [H|[[H1 H2]|(H1 & H2 & H3)]]; [auto | auto |].
    right. repeat split; auto. symmetry. exact H2.
Qed.

Lemma rank_lt_trans (k1 k2 k3 : Z * Q * nat) :
  rank_lt k1 k2 -> rank_lt k2 k3 -> rank_lt k1 k3.
Proof.
  destruct k1 as [[a1 q1] n1], k2 as [[a2 q2] n2], k3 as [[a3 q3] n3]. simpl.
  intros [H|[[H1 H2]|(H1 & H2 & H3)]] [G|[[G1 G2]|(G1 & G2 & G3)]]; subst;
    try (left; lia); try (left; assumption).
  - right. left. split; [reflexivity|]. eapply Qlt_trans; eassumption.
  - right. left. split; [reflexivity|]. rewrite <- G2. exact H2.
  - right. left. split; [reflexivity|]. rewrite H2. exact G2.
  - right. right. repeat split; [|lia]. rewrite H2. exact G2.
Qed.

Lemma rank_lt_irrefl (k : Z * Q * nat) : ~ rank_lt k k.
Proof.
  destruct k as [[a q] n]. simpl. intros [H|[[_ H]|(_ & _ & H)]]; [lia| |lia].
  eapply Qlt_irrefl; eassumption.
Qed.

Lemma rank_le_lt_trans (k1 k2 k3 : Z * Q * nat) :
  ~ rank_lt k2 k1 -> rank_lt k2 k3 -> rank_lt k1 k3.
Proof.
  destruct k1 as [[a1 q1] n1], k2 as [[a2 q2] n2], k3 as [[a3 q3] n3]. simpl.
  intros Hle Hlt.
  destruct (Z.lt_trichotomy a1 a2) as [Ha|[Ha|Ha]].
  - destruct Hlt as [G|[[G1 G2]|(G1 & G2 & G3)]]; left; lia.
  - subst a2. destruct Hlt as [G|[[G1 G2]|(G1 & G2 & G3)]]; [left; exact G| |]; subst a3.
    + right. left. split; [reflexivity|].
      destruct (Qlt_le_dec q2 q1) as [Hq|Hq]; [exfalso; apply Hle; auto|].
      eapply Qle_lt_trans; eassumption.
    + destruct (Qlt_le_dec q2 q1) as [Hq|Hq]; [exfalso; apply Hle; auto|].
      destruct (Qlt_le_dec q1 q2) as [Hq'|Hq'].
      * right. left. split; [reflexivity|]. rewrite <- G2. exact Hq'.
      * assert (Heq : (q1 == q2)%Q) by (apply Qle_antisym; assumption).
        right. right. repeat split; [rewrite Heq; exact G2|].
        destruct (Nat.lt_ge_cases n2 n1) as [Hn|Hn]; [|lia].
        exfalso. apply Hle. right. right. repeat split; [symmetry; exact Heq | exact Hn].
  - exfalso. apply Hle. left. exact Ha.
Qed.

Lemma anchors_count (t : string) (pats : list regex) (z : Z) :
  fold_left (fun score pat => if found (search pat t) then (score + 1)%Z else score) pats z
  = (z + Z.of_nat (length (List.filter (fun pat => found (search pat t)) pats)))%Z.
Proof.
  revert z. induction pats as [|pat pats IH]; intros z; simpl; [lia|].
  rewrite IH. destruct (found (search pat t)); simpl; lia.
Qed.

Lemma anchor_score_formula (text : string) :
  text <> EmptyString ->
  _anchor_score text
  = (Z.of_nat (anchors_found (Str.upper text))
     + (if nonempty (normalize_date_to_ymd (Str.upper text)) then 2 else 0)
     + (if nonempty (parse_scale (Str.upper text)) then 1 else 0))%Z.
Proof.
  intros Hne. unfold _anchor_score, anchors_found.
  apply is_empty_false in Hne. rewrite Hne, anchors_count.
  destruct (nonempty (normalize_date_to_ymd _)), (nonempty (parse_scale _)); lia.
Qed.

Lemma anchor_score_nonneg (text : string) : (0 <= _anchor_score text)%Z.
Proof.
  destruct (Str.is_empty text) eqn:E.
  - unfold _anchor_score. rewrite E. lia.
  - apply is_empty_false in E. rewrite (anchor_score_formula _ E).
    destruct (nonempty (normalize_date_to_ymd _)), (nonempty (parse_scale _)); lia.
Qed.

Lemma first_best_step (seen : list (string * Q)) (b : best) (text : string) (conf : Q) :
  (seen = [] /\ b = Best EmptyString (-1) None (-1)) \/ first_best seen b ->
  first_best (seen ++ [(text, conf)])
    (if improves (_anchor_score text) conf text b
     then Best text conf (Some (length seen)) (_anchor_score text) else b).
Proof.
  intros [[-> ->]|(i & Hi & Hnth & Hanc & Hmax & Hfirst)].
  - assert (Himp : improves (_anchor_score text) conf text (Best EmptyString (-1) None (-1))
                   = true).
    { apply improves_rank_lt. simpl. left. pose proof (anchor_score_nonneg text). lia. }
    rewrite Himp. exists 0. cbn [best_text best_conf best_variant best_anchor]. split_and!; auto.
    + intros [|j] c Hc; simpl in Hc; [|by destruct j].
      injection Hc as <-. apply rank_lt_irrefl.
    + intros j c Hj. lia.
  - destruct (improves (_anchor_score text) conf text b) eqn:Himp.
    + apply improves_rank_lt in Himp. rewrite Hanc in Himp.
      change (rank_lt (rank (best_text b, best_conf b)) (rank (text, conf))) in Himp.
      exists (length seen). cbn [best_text best_conf best_variant best_anchor]. split_and!; auto.
      * rewrite lookup_app_r by lia. by rewrite Nat.sub_diag.
      * intros j c Hc Hlt. apply lookup_app_Some in Hc as [Hc|[_ Hc]].
        -- apply (rank_lt_irrefl (rank c)).
           eapply rank_lt_trans; [|exact Hlt].
           eapply rank_le_lt_trans; [eapply Hmax; exact Hc | exact Himp].
        -- destruct (j - length seen) as [|k]; simpl in Hc; [|by destruct k].
           injection Hc as <-. by apply rank_lt_irrefl in Hlt.
      * intros j c Hj Hc. rewrite lookup_app_l in Hc by exact Hj.
        eapply rank_le_lt_trans; [eapply Hmax; exact Hc | exact Himp].
    + exists i. split_and!; auto.
      * apply lookup_app_Some. left. exact Hnth.
      * intros j c Hc. apply lookup_app_Some in Hc as [Hc|[_ Hc]]; [eapply Hmax; exact Hc|].
        destruct (j - length seen) as [|k]; simpl in Hc; [|by destruct k].
        injection Hc as <-. intros Hlt.
        assert (improves (_anchor_score text) conf text b = true); [|congruence].
        apply improves_rank_lt. rewrite Hanc. exact Hlt.
      * intros j c Hj Hc. apply (Hfirst j c Hj).
        apply lookup_lt_Some in Hnth.
        rewrite lookup_app_l in Hc by lia. exact Hc.
Qed.

Lemma variants_loop_first_best (ocr : list (string * Q)) :
  forall (seen : list (string * Q)) (b : best),
    (seen = [] /\ b = Best EmptyString (-1) None (-1)) \/ first_best seen b ->
    (seen ++ ocr = [] /\ variants_loop (length seen) ocr b = Best EmptyString (-1) None (-1))
    \/ first_best (seen ++ ocr) (variants_loop (length seen) ocr b).
Proof.
  induction ocr as [|[text conf] ocr IH]; intros seen b Hinv.
  - simpl. rewrite app_nil_r. exact Hinv.
  - simpl. pose proof (first_best_step seen b text conf Hinv) as Hstep.
    specialize (IH (seen ++ [(text, conf)]) _ (or_intror Hstep)).
    rewrite length_app, Nat.add_1_r, <- app_assoc in IH. simpl in IH.
    exact IH.
Qed.

(** C5: for a list of candidates that is not empty, the scorer returns the
    first candidate that no candidate outranks in the lexicographic order
    on anchor score, then confidence, then length of the text: every
    earlier candidate ranks strictly lower, so a tie keeps the candidate
    seen first. The anchor score of a text is the number of anchor
    patterns found in its upper-cased form, plus 2 if a date parses from
    it and plus 1 if a scale does. *)
Theorem best_ocr_from_variants_first_best (ocr : list (string * Q)) :
  ocr <> [] ->
  first_best ocr (best_ocr_from_variants ocr)
  /\ (forall text, text <> EmptyString ->
        _anchor_score text
        = (Z.of_nat (anchors_found (Str.upper text))
           + (if nonempty (normalize_date_to_ymd (Str.upper text)) then 2 else 0)
           + (if nonempty (parse_scale (Str.upper text)) then 1 else 0))%Z).
Proof.
  intros Hne. split; [|exact anchor_score_formula].
  unfold best_ocr_from_variants.
  destruct (variants_loop_first_best ocr [] (Best EmptyString (-1) None (-1)))
    as [[Hnil _]|H]; [left; auto | simpl in Hnil; contradiction | exact H].
Qed.

Lemma best_ocr_from_variants_first_best_witness :
  [("COUNTRY: JAPAN", 90%Q); ("COUNTRY JAPAN 2021-03-11", 80%Q);
   ("COUNTRY JAPAN 2021-03-12", 80%Q)] <> []
  /\ first_best
       [("COUNTRY: JAPAN", 90%Q); ("COUNTRY JAPAN 2021-03-11", 80%Q);
        ("COUNTRY JAPAN 2021-03-12", 80%Q)]
       (best_ocr_from_variants
          [("COUNTRY: JAPAN", 90%Q); ("COUNTRY JAPAN 2021-03-11", 80%Q);
           ("COUNTRY JAPAN 2021-03-12", 80%Q)]).
Proof.
  split; [discriminate|].
  apply (best_ocr_from_variants_first_best
           [("COUNTRY: JAPAN", 90%Q); ("COUNTRY JAPAN 2021-03-11", 80%Q);
            ("COUNTRY JAPAN 2021-03-12", 80%Q)]).
  discriminate.
Defined.
(** ** The batch writer *)

Section Batches.

Variables countries states locations : gset string.
Variable regions_map : gmap string string.
Variable ioc_index : gmap (string * string) string.
Variable geocode_fn : option (string -> option (string * string)).
Variable fmt_conf : Q -> string.
Variable download : string -> string -> option exn.
Variable ocr_of : string -> result (list (string * Q)).
Variable a : args.
Variable processed : gset string.

Local Abbreviation step :=
  (main_step countries states locations regions_map ioc_index geocode_fn
     fmt_conf download ocr_of a processed).
Local Abbreviation loop :=
  (main_loop countries states locations regions_map ioc_index geocode_fn
     fmt_conf download ocr_of a processed).

(** What a turn of the loop does to the buffer and to the store: nothing;
    or one row joins the buffer; or the buffer with the new row is
    written as one batch and the buffer is emptied. *)
Lemma main_step_buffer (st : run_state) (item : string * string) :
  (rows_to_write (step st item) = rows_to_write st
   /\ excel (step st item) = excel st
   /\ ok_count (step st item) = ok_count st)
  \/ exists row,
       ok_count (step st item) = S (ok_count st)
       /\ ((rows_to_write (step st item) = rows_to_write st ++ [row]
            /\ excel (step st item) = excel st
            /\ length (rows_to_write st ++ [row]) < 25)
           \/ (rows_to_write (step st item) = []
               /\ excel (step st item) = excel st ++ [rows_to_write st ++ [row]]
               /\ 25 <= length (rows_to_write st ++ [row]))).
Proof.
  destruct item as [file_id rel_path]. unfold main_step.
  destruct (resume a && bool_decide (file_id ∈ processed)); [left; auto|].
  destruct (download file_id rel_path) as [e|]; [left; auto|].
  destruct (process_one_image _ _ _ _ _ _ _ _ _ _ _ _ _ _ _) as [[row|e] tty'];
    [|left; auto].
  right. exists row.
  destruct (25 <=? length (rows_to_write st ++ [row])) eqn:E; simpl.
  - apply Nat.leb_le in E. split; [reflexivity|]. right. auto.
  - apply Nat.leb_gt in E. split; [reflexivity|]. left. auto.
Qed.

Lemma main_step_batches (st : run_state) (item : string * string) :
  batches_ok st -> batches_ok (step st item).
Proof.
  intros (Hfull & Hbuf & Hcount). unfold batches_ok.
  destruct (main_step_buffer st item)
    as [(-> & -> & ->)|(row & -> & [(-> & -> & Hlen)|(-> & -> & Hlen)])].
  - auto.
  - rewrite length_app in *. simpl in *. split_and!; [assumption|lia|lia].
  - rewrite length_app in *. simpl in *. split_and!; [|lia|lia].
    apply Forall_app. split; [assumption|].
    constructor; [|constructor]. rewrite length_app. simpl. lia.
Qed.

Lemma main_loop_batches (items : list (string * string)) : forall st : run_state,
  batches_ok st -> batches_ok (loop st items).
Proof.
  induction items as [|item items IH]; intros st Hst; [exact Hst|].
  unfold main_loop. cbn [foldl]. apply IH. by apply main_step_batches.
Qed.

End Batches.

(** C8: with the threshold of 25, a run that counts 30 successes writes
    exactly two batches, of 25 and of 5 rows; the loop writes the first and
    leaves the 5 rows in the buffer, and the second is written after the
    loop. In every turn of the loop the buffer is left alone, or gains one
    row, or is emptied in the same turn that writes it, with the new row,
    to the store: it is never emptied without a flush. *)
Theorem thirty_successes_two_batches
    (countries states locations : gset string) (regions_map : gmap string string)
    (ioc_index : gmap (string * string) string)
    (geocode_fn : option (string -> option (string * string))) (fmt_conf : Q -> string)
    (download : string -> string -> option exn) (ocr_of : string -> result (list (string * Q)))
    (a : args) (log0 : option (list log_line)) (tty0 : list string)
    (image_items : list (string * string)) :
  let done := if resume a then load_processed_ids log0 else ∅ in
  let step := main_step countries states locations regions_map ioc_index geocode_fn
                fmt_conf download ocr_of a done in
  let after_loop := main_loop countries states locations regions_map ioc_index geocode_fn
                      fmt_conf download ocr_of a done (RunState [] [] log0 0 0 0 tty0)
                      image_items in
  let st := main countries states locations regions_map ioc_index geocode_fn fmt_conf
              download ocr_of a log0 tty0 image_items in
  (ok_count st = 30 ->
   exists batch1 batch2,
     length batch1 = 25 /\ length batch2 = 5
     /\ excel after_loop = [batch1] /\ rows_to_write after_loop = batch2
     /\ excel st = [batch1; batch2])
  /\ (forall s item,
        (rows_to_write (step s item) = rows_to_write s /\ excel (step s item) = excel s)
        \/ exists row,
             (rows_to_write (step s item) = rows_to_write s ++ [row]
              /\ excel (step s item) = excel s)
             \/ (rows_to_write (step s item) = []
                 /\ excel (step s item) = excel s ++ [rows_to_write s ++ [row]])).
Proof.
  intros done step after_loop st. split.
  - intros Hcount.
    assert (Hinv : batches_ok after_loop).
    { apply main_loop_batches. unfold batches_ok. simpl. split_and!; [constructor|lia|lia]. }
    destruct Hinv as (Hfull & Hbuf & Hok).
    assert (Hst : st = final_flush after_loop) by reflexivity.
    assert (Hc : ok_count after_loop = 30).
    { rewrite Hst in Hcount. unfold final_flush in Hcount.
      destruct (rows_to_write after_loop); exact Hcount. }
    rewrite Hc in Hok.
    destruct (excel after_loop) as [|batch1 [|batch1' more]] eqn:Hex; simpl in Hok;
      [lia| |lia].
    apply Forall_cons in Hfull as [Hb1 _].
    exists batch1, (rows_to_write after_loop).
    split_and!; [exact Hb1|lia|reflexivity|reflexivity|].
    rewrite Hst. unfold final_flush.
    destruct (rows_to_write after_loop) eqn:Hrows; [simpl in Hok; lia|].
    simpl. by rewrite Hex.
  - intros s item.
    destruct (main_step_buffer countries states locations regions_map ioc_index geocode_fn
                fmt_conf download ocr_of a done s item)
      as [(H1 & H2 & _)|(row & _ & [(H1 & H2 & _)|(H1 & H2 & _)])].
    + left. auto.
    + right. exists row. left. auto.
    + right. exists row. right. auto.
Qed.

Lemma thirty_successes_two_batches_witness :
  let st := main ∅ ∅ ∅ ∅ ∅ None demo_fmt demo_download demo_ocr (demo_args false false)
              None [] (demo_many 30) in
  ok_count st = 30
  /\ exists batch1 batch2,
       length batch1 = 25 /\ length batch2 = 5
       /\ excel (main_loop ∅ ∅ ∅ ∅ ∅ None demo_fmt demo_download demo_ocr
                   (demo_args false false) ∅ (RunState [] [] None 0 0 0 []) (demo_many 30))
          = [batch1]
       /\ rows_to_write (main_loop ∅ ∅ ∅ ∅ ∅ None demo_fmt demo_download demo_ocr
                           (demo_args false false) ∅ (RunState [] [] None 0 0 0 [])
                           (demo_many 30))
          = batch2
       /\ excel st = [batch1; batch2].
Proof.
  assert (H : ok_count (main ∅ ∅ ∅ ∅ ∅ None demo_fmt demo_download demo_ocr
                          (demo_args false false) None [] (demo_many 30)) = 30)
    by (vm_compute; reflexivity).
  split; [exact H|].
  exact (proj1 (thirty_successes_two_batches ∅ ∅ ∅ ∅ ∅ None demo_fmt demo_download demo_ocr
                  (demo_args false false) None [] (demo_many 30)) H).
Defined.
(** ** The review and failures of single items *)

Lemma prompt_field_reads (label current : string) (flag : bool) (hint line : string)
    (more : list string) :
  prompt_field label current flag hint (line :: more)
  = (Ok (if Str.is_empty (Str.strip line) then current else Str.strip line), more).
Proof. reflexivity. Qed.

Lemma prompt_yes_no_declined (msg : string) (answer : string) (more : list string) :
  declines answer = true ->
  prompt_yes_no msg true (answer :: more) = (Ok false, more).
Proof.
  unfold declines, prompt_yes_no, bind, input, ret. intros H.
  apply andb_true_iff in H as [Hne Hno].
  apply negb_true_iff in Hno. unfold nonempty in Hne. apply negb_true_iff in Hne.
  by rewrite Hne, Hno.
Qed.

Lemma review_declined (f : fields) (row : Row) (answers : list string) (answer : string)
    (more : list string) :
  length answers = 12 ->
  declines answer = true ->
  review f row (answers ++ answer :: more)
  = (Raise (Exn "RuntimeError" "User skipped row in review mode."), more).
Proof.
  intros Hlen Hno.
  do 12 (destruct answers as [|? answers]; [discriminate Hlen|]).
  destruct answers; [|discriminate Hlen]. clear Hlen.
  unfold review. cbn [app].
  repeat (unfold bind at 1; rewrite prompt_field_reads).
  unfold bind at 1. rewrite (prompt_yes_no_declined _ _ _ Hno). reflexivity.
Qed.

(** C9: when the download or the processing of an item raises, the turn of
    the loop appends an error entry for the item to the log, leaves the
    buffer and the store as they were, counts one error, and the loop goes
    on with the next item. The operator answering no to the final question
    of the review is such a failure: the row is not added to the buffer and
    the entry records that the row was skipped. *)
Theorem failing_item_is_logged_and_skipped
    (countries states locations : gset string) (regions_map : gmap string string)
    (ioc_index : gmap (string * string) string)
    (geocode_fn : option (string -> option (string * string))) (fmt_conf : Q -> string)
    (download : string -> string -> option exn) (ocr_of : string -> result (list (string * Q)))
    (a : args) (processed : gset string) (st : run_state) (file_id rel_path : string)
    (rest : list (string * string)) :
  let step := main_step countries states locations regions_map ioc_index geocode_fn
                fmt_conf download ocr_of a processed in
  let loop := main_loop countries states locations regions_map ioc_index geocode_fn
                fmt_conf download ocr_of a processed in
  let process := process_one_image countries states locations regions_map ioc_index
                   geocode_fn fmt_conf (ocr_of rel_path) rel_path (default_microfilm_of a)
                   (microfilm_name_from_folder a) (interactive a) (psm a) (oem a) in
  let failed e tty' :=
    RunState (rows_to_write st) (excel st)
      (Some (default [] (log_path st) ++ [Obj (error_record file_id rel_path e)]))
      (ok_count st) (skip_count st) (S (err_count st)) tty' in
  resume a && bool_decide (file_id ∈ processed) = false ->
  (forall e tty',
      (download file_id rel_path = Some e /\ tty' = tty st)
      \/ (download file_id rel_path = None /\ process (tty st) = (Raise e, tty')) ->
      step st (file_id, rel_path) = failed e tty'
      /\ error_record file_id rel_path e !! "status" = Some (JStr "error")
      /\ loop st ((file_id, rel_path) :: rest) = loop (failed e tty') rest)
  /\ (forall renderings answers answer more,
        download file_id rel_path = None ->
        ocr_of rel_path = Ok renderings ->
        interactive a = true ->
        tty st = answers ++ answer :: more ->
        length answers = 12 ->
        declines answer = true ->
        step st (file_id, rel_path)
        = failed (Exn "RuntimeError" "User skipped row in review mode.") more).
Proof.
  intros step loop process failed Hnew.
  assert (Hfail : forall e tty',
             (download file_id rel_path = Some e /\ tty' = tty st)
             \/ (download file_id rel_path = None /\ process (tty st) = (Raise e, tty')) ->
             step st (file_id, rel_path) = failed e tty').
  { intros e tty' Hcase. subst step failed process. unfold main_step. rewrite Hnew.
    destruct Hcase as [[-> ->]|[-> ->]]; reflexivity. }
  split.
  - intros e tty' Hcase. split; [by apply Hfail|]. split.
    + unfold error_record.
      rewrite lookup_insert_ne by discriminate. rewrite lookup_insert_ne by discriminate.
      by rewrite lookup_insert_eq.
    + subst loop. unfold main_loop. cbn [foldl]. fold step. by rewrite (Hfail e tty' Hcase).
  - intros renderings answers answer more Hdl Hocr Hint Htty Hlen Hno.
    apply Hfail. right. split; [exact Hdl|].
    subst process. unfold process_one_image. rewrite Hocr, Hint, Htty.
    destruct (geocode_latlon _ _ _ _) as [lat lon].
    by apply review_declined.
Qed.

Lemma failing_item_is_logged_and_skipped_witness :
  let st := RunState [] [] None 0 0 0 (demo_answers ++ [" N "; "next"]) in
  main_step ∅ ∅ ∅ ∅ ∅ None demo_fmt demo_download demo_ocr (demo_args false true) ∅ st
    ("id1", "roll1/a.png")
  = RunState [] []
      (Some [Obj (error_record "id1" "roll1/a.png"
                    (Exn "RuntimeError" "User skipped row in review mode."))])
      0 0 1 ["next"].
Proof.
  apply (proj2 (failing_item_is_logged_and_skipped ∅ ∅ ∅ ∅ ∅ None demo_fmt demo_download
                  demo_ocr (demo_args false true) ∅
                  (RunState [] [] None 0 0 0 (demo_answers ++ [" N "; "next"]))
                  "id1" "roll1/a.png" [] eq_refl)
           [("COUNTRY: JAPAN", 90%Q); ("COUNTRY JAPAN 2021-03-11", 80%Q)]
           demo_answers " N " ["next"]);
    reflexivity.
Defined.
(** ** Dates *)

#[local] Arguments digit_value : simpl never.

Lemma range_1_9 (c : ascii) :
  in_range "1" "9" c = true -> is_digit c = true /\ 1 <= digit_value c <= 9.
Proof.
  destruct c as [[] [] [] [] [] [] [] []]; intros H; try discriminate H;
    (split; [reflexivity | vm_compute; split; repeat constructor]).
Qed.

Lemma range_0_2 (c : ascii) :
  in_range "0" "2" c = true -> is_digit c = true /\ digit_value c <= 2.
Proof.
  destruct c as [[] [] [] [] [] [] [] []]; intros H; try discriminate H;
    (split; [reflexivity | vm_compute; repeat constructor]).
Qed.

Lemma one_of_12 (c : ascii) :
  one_of "12" c = true -> is_digit c = true /\ 1 <= digit_value c <= 2.
Proof.
  destruct c as [[] [] [] [] [] [] [] []]; intros H; try discriminate H;
    (split; [reflexivity | vm_compute; split; repeat constructor]).
Qed.

Lemma one_of_01 (c : ascii) :
  one_of "01" c = true -> is_digit c = true /\ digit_value c <= 1.
Proof.
  destruct c as [[] [] [] [] [] [] [] []]; intros H; try discriminate H;
    (split; [reflexivity | vm_compute; repeat constructor]).
Qed.

Lemma digit_bound (c : ascii) : is_digit c = true -> digit_value c <= 9.
Proof.
  destruct c as [[] [] [] [] [] [] [] []]; intros H; try discriminate H;
    vm_compute; repeat constructor.
Qed.

(** Replace the characters a match fixes and bound the digits it leaves open. *)
Ltac read_chars :=
  repeat match goal with
    | H : is_char _ _ = true |- _ => apply is_char_eq in H; subst
    | H : in_range "1" "9" _ = true |- _ => apply range_1_9 in H as [? ?]
    | H : in_range "0" "2" _ = true |- _ => apply range_0_2 in H as [? ?]
    | H : one_of "12" _ = true |- _ => apply one_of_12 in H as [? ?]
    | H : one_of "01" _ = true |- _ => apply one_of_01 in H as [? ?]
    end;
  repeat match goal with
    | H : is_digit ?c = true |- _ =>
        lazymatch goal with
        | _ : digit_value c <= 9 |- _ => fail
        | _ => pose proof (digit_bound c H)
        end
    end.

Ltac digits_done :=
  unfold digits, value; simpl;
  change (digit_value "0") with 0; change (digit_value "1") with 1;
  change (digit_value "2") with 2; change (digit_value "3") with 3;
  change (digit_value "9") with 9;
  repeat match goal with H : is_digit _ = true |- _ => rewrite H end;
  simpl; repeat split; try reflexivity; try lia.

Lemma year_shape cur caps u c caps' :
  matches year cur caps u c caps' ->
  caps' = caps /\ digits 4 u /\ 1900 <= value u <= 2099.
Proof.
  intros H. unfold_pattern H. invert_matches; read_chars; digits_done.
Qed.

Lemma month2_shape cur caps u c caps' :
  matches month2 cur caps u c caps' ->
  caps' = caps /\ digits 2 u /\ 1 <= value u <= 12.
Proof.
  intros H. unfold_pattern H. invert_matches; read_chars; digits_done.
Qed.

Lemma day2_shape cur caps u c caps' :
  matches day2 cur caps u c caps' ->
  caps' = caps /\ digits 2 u /\ 1 <= value u <= 31.
Proof.
  intros H. unfold_pattern H. invert_matches; read_chars; digits_done.
Qed.

Lemma month12_shape cur caps u c caps' :
  matches month12 cur caps u c caps' ->
  caps' = caps /\ u <> EmptyString /\ digits 2 (Str.zfill 2 u)
  /\ 1 <= value (Str.zfill 2 u) <= 12.
Proof.
  intros H. unfold_pattern H. invert_matches; read_chars;
    (split; [reflexivity|]); (split; [discriminate|]); digits_done.
Qed.

Lemma day12_shape cur caps u c caps' :
  matches day12 cur caps u c caps' ->
  caps' = caps /\ u <> EmptyString /\ digits 2 (Str.zfill 2 u)
  /\ 1 <= value (Str.zfill 2 u) <= 31.
Proof.
  intros H. unfold_pattern H. invert_matches; read_chars;
    (split; [reflexivity|]); (split; [discriminate|]); digits_done.
Qed.
Lemma upper_char_idem (c : ascii) : upper_char (upper_char c) = upper_char c.
Proof. destruct c as [[] [] [] [] [] [] [] []]; reflexivity. Qed.

Lemma upper_lower_char (c : ascii) : upper_char (lower_char c) = upper_char c.
Proof. destruct c as [[] [] [] [] [] [] [] []]; reflexivity. Qed.

Lemma ci_is_char_upper (a c : ascii) :
  ci (is_char a) c = true -> upper_char c = upper_char a.
Proof.
  unfold ci. intros H. apply orb_true_iff in H as [H|H]; apply is_char_eq in H.
  - rewrite <- H. symmetry. apply upper_char_idem.
  - rewrite <- H. symmetry. apply upper_lower_char.
Qed.

(** Turn each case-insensitive letter of a match into its upper-case form. *)
Ltac read_letters :=
  repeat match goal with
    | H : ci (is_char ?a) ?c = true |- _ =>
        let A := eval vm_compute in (upper_char a) in
        apply (ci_is_char_upper a c) in H; change (upper_char a) with A in H
    end.

Lemma month_name_shape cur caps u c caps' :
  matches month_name cur caps u c caps' ->
  caps' = caps /\ u <> EmptyString /\ digits 2 (month_number u)
  /\ 1 <= value (month_number u) <= 12.
Proof.
  intros H. unfold_pattern H. invert_matches; read_letters;
    (split; [reflexivity|]); (split; [discriminate|]);
    unfold month_number, Str.upper; simpl Str.map;
    repeat match goal with H : upper_char _ = _ |- _ => rewrite H; clear H end;
    vm_compute; repeat split; repeat constructor.
Qed.

Lemma digits_nonempty (n : nat) (s : string) : digits (S n) s -> nonempty s = true.
Proof. intros [Hlen _]. destruct s; [discriminate Hlen | reflexivity]. Qed.

Lemma neq_nonempty (s : string) : s <> EmptyString -> nonempty s = true.
Proof. apply nonempty_true. Qed.

Lemma zfill_full (s : string) : String.length s = 2 -> Str.zfill 2 s = s.
Proof. unfold Str.zfill. intros ->. reflexivity. Qed.

Lemma date_of_match_numeric (m : rmatch_result) (y mm d : string) :
  group "mon" (m_groups m) = None ->
  group "y" (m_groups m) = Some y ->
  group "m" (m_groups m) = Some mm ->
  group "d" (m_groups m) = Some d ->
  nonempty y = true -> nonempty mm = true -> nonempty d = true ->
  date_of_match m = Some (y +:+ "/" +:+ Str.zfill 2 mm +:+ "/" +:+ Str.zfill 2 d).
Proof.
  unfold date_of_match, group_or_empty. intros -> -> -> -> -> -> ->. reflexivity.
Qed.

Lemma date_of_match_named (m : rmatch_result) (y mon d : string) :
  group "mon" (m_groups m) = Some mon ->
  group "y" (m_groups m) = Some y ->
  group "d" (m_groups m) = Some d ->
  nonempty mon = true -> nonempty y = true -> nonempty (month_number mon) = true ->
  nonempty (Str.zfill 2 d) = true ->
  date_of_match m = Some (y +:+ "/" +:+ month_number mon +:+ "/" +:+ Str.zfill 2 d).
Proof.
  unfold date_of_match, group_or_empty. intros -> -> -> -> -> Hmm ->.
  fold (month_number mon). rewrite Hmm. reflexivity.
Qed.

Lemma date_iso_canonical (m : rmatch_result) (cur : cursor) :
  matches DATE_ISO cur [] (m_text m) (m_after m) (m_groups m) ->
  exists r, date_of_match m = Some r /\ canonical_ymd r.
Proof.
  destruct m as [before u caps after]. cbn [m_text m_after m_groups]. intros H.
  cbv beta iota delta [DATE_ISO seqs lit] in H. invert_matches.
  repeat match goal with
    | H : matches year _ _ _ _ _ |- _ => apply year_shape in H as (-> & ? & ?)
    | H : matches month2 _ _ _ _ _ |- _ => apply month2_shape in H as (-> & ? & ?)
    | H : matches day2 _ _ _ _ _ |- _ => apply day2_shape in H as (-> & ? & ?)
    end.
  eexists. split.
  - eapply date_of_match_numeric; try reflexivity; eapply digits_nonempty; eassumption.
  - repeat match goal with
      | H : digits 2 ?s |- _ => rewrite (zfill_full s (proj1 H))
      end.
    eexists _, _, _. split; [reflexivity|]. auto 10.
Qed.

Lemma date_mdy_canonical (m : rmatch_result) (cur : cursor) :
  matches DATE_MDY cur [] (m_text m) (m_after m) (m_groups m) ->
  exists r, date_of_match m = Some r /\ canonical_ymd r.
Proof.
  destruct m as [before u caps after]. cbn [m_text m_after m_groups]. intros H.
  cbv beta iota delta [DATE_MDY seqs lit] in H. invert_matches.
  repeat match goal with
    | H : matches year _ _ _ _ _ |- _ => apply year_shape in H as (-> & ? & ?)
    | H : matches month12 _ _ _ _ _ |- _ => apply month12_shape in H as (-> & ? & ? & ?)
    | H : matches day12 _ _ _ _ _ |- _ => apply day12_shape in H as (-> & ? & ? & ?)
    end.
  eexists. split.
  - eapply date_of_match_numeric; try reflexivity;
      first [eapply digits_nonempty; eassumption | apply neq_nonempty; assumption].
  - eexists _, _, _. split; [reflexivity|]. auto 10.
Qed.

Lemma date_dmy_canonical (m : rmatch_result) (cur : cursor) :
  matches DATE_DMY cur [] (m_text m) (m_after m) (m_groups m) ->
  exists r, date_of_match m = Some r /\ canonical_ymd r.
Proof.
  destruct m as [before u caps after]. cbn [m_text m_after m_groups]. intros H.
  cbv beta iota delta [DATE_DMY seqs lit plus] in H. invert_matches.
  repeat match goal with
    | H : matches year _ _ _ _ _ |- _ => apply year_shape in H as (-> & ? & ?)
    | H : matches month_name _ _ _ _ _ |- _ =>
        apply month_name_shape in H as (-> & ? & ? & ?)
    | H : matches day12 _ _ _ _ _ |- _ => apply day12_shape in H as (-> & ? & ? & ?)
    end.
  eexists. split.
  - eapply date_of_match_named; try reflexivity;
      first [eapply digits_nonempty; eassumption | apply neq_nonempty; assumption].
  - eexists _, _, _. split; [reflexivity|]. auto 10.
Qed.
Lemma not_digit_not_1_2 (c : ascii) :
  is_digit c = false -> is_char "1" c = false /\ is_char "2" c = false.
Proof. destruct c as [[] [] [] [] [] [] [] []]; intros H; try discriminate H; auto. Qed.

(** An ISO date cannot start at a character that is no digit. *)
Lemma date_iso_not_here (c : ascii) (s before : string) (pv : option ascii) :
  is_digit c = false ->
  match_at DATE_ISO before (Cursor pv (String c s)) = None.
Proof.
  intros H. apply not_digit_not_1_2 in H as [H1 H2].
  unfold match_at.
  cbn [rmatch DATE_ISO seqs lit year word prev rest].
  destruct (holds is_digit pv); [reflexivity|].
  rewrite H1, H2. reflexivity.
Qed.

Lemma search_from_here (r : regex) (before : string) (pv : option ascii) (s : string)
    (m : rmatch_result) :
  match_at r before (Cursor pv s) = Some m -> search_from r before pv s = Some m.
Proof. intros H. destruct s; simpl; rewrite H; reflexivity. Qed.

Lemma search_from_skip_non_digits (pre rest0 : string) : forall (before : string) pv,
  all_of (neg is_digit) pre = true ->
  search_from DATE_ISO before pv (pre +:+ rest0)
  = search_from DATE_ISO (before +:+ pre) (last_char pv pre) rest0.
Proof.
  induction pre as [|c pre IH]; intros before pv Hall; simpl.
  - by rewrite append_nil_r.
  - simpl in Hall. apply andb_true_iff in Hall as [Hc Hall].
    unfold neg in Hc. apply negb_true_iff in Hc.
    rewrite date_iso_not_here by exact Hc.
    rewrite IH by exact Hall. by rewrite append_assoc.
Qed.

Lemma last_char_non_digit (pre : string) : forall pv,
  holds is_digit pv = false ->
  all_of (neg is_digit) pre = true ->
  holds is_digit (last_char pv pre) = false.
Proof.
  induction pre as [|c pre IH]; intros pv Hpv Hall; simpl; [exact Hpv|].
  simpl in Hall. apply andb_true_iff in Hall as [Hc Hall].
  apply IH; [|exact Hall]. unfold neg in Hc. by apply negb_true_iff in Hc.
Qed.

Lemma date_iso_2021_03_11_here (before post : string) (pv : option ascii) :
  holds is_digit pv = false ->
  holds is_digit (head_char post) = false ->
  match_at DATE_ISO before (Cursor pv ("2021-03-11" +:+ post))
  = Some (Match before "2021-03-11" [("d", "11"); ("m", "03"); ("y", "2021")]
            (Cursor (Some "1"%char) post)).
Proof.
  intros Hpv Hpost. unfold match_at.
  cbn [rmatch DATE_ISO seqs alts lit year month2 day2 word times prev rest String.append].
  rewrite Hpv.
  change (next {| prev := Some "1"%char; rest := post |}) with (head_char post).
  rewrite Hpost. vm_compute. reflexivity.
Qed.

Lemma normalize_date_2021_03_11 (pre post : string) :
  all_of (neg is_digit) pre = true ->
  holds is_digit (head_char post) = false ->
  normalize_date_to_ymd (pre +:+ "2021-03-11" +:+ post) = "2021/03/11".
Proof.
  intros Hpre Hpost.
  unfold normalize_date_to_ymd, DATE_PATTERNS, date_from, search.
  rewrite search_from_skip_non_digits by exact Hpre.
  rewrite (search_from_here _ _ _ _ _
             (date_iso_2021_03_11_here _ post _
                (last_char_non_digit pre None eq_refl Hpre) Hpost)).
  reflexivity.
Qed.
Lemma search_canonical (pat : regex) (text : string) (m : rmatch_result) :
  (forall m cur, matches pat cur [] (m_text m) (m_after m) (m_groups m) ->
                 exists r, date_of_match m = Some r /\ canonical_ymd r) ->
  search pat text = Some m ->
  exists r, date_of_match m = Some r /\ canonical_ymd r.
Proof.
  intros Hpat Hs. apply search_sound in Hs as (b & _ & _ & Hm). eapply Hpat. exact Hm.
Qed.

(** The patterns are tried in their order and the first that matches
    decides; the date of its leftmost match is canonical. *)
Lemma normalize_date_cases (text : string) :
  let r := normalize_date_to_ymd text in
  (decided_by DATE_ISO text r /\ canonical_ymd r)
  \/ (search DATE_ISO text = None /\ decided_by DATE_MDY text r /\ canonical_ymd r)
  \/ (search DATE_ISO text = None /\ search DATE_MDY text = None
      /\ decided_by DATE_DMY text r /\ canonical_ymd r)
  \/ (search DATE_ISO text = None /\ search DATE_MDY text = None
      /\ search DATE_DMY text = None /\ r = EmptyString).
Proof.
  unfold normalize_date_to_ymd, DATE_PATTERNS, decided_by. cbn [date_from].
  destruct (search DATE_ISO text) as [m1|] eqn:E1.
  { destruct (search_canonical _ _ _ date_iso_canonical E1) as (r & Hr & Hc).
    rewrite Hr. left. eauto. }
  destruct (search DATE_MDY text) as [m2|] eqn:E2.
  { destruct (search_canonical _ _ _ date_mdy_canonical E2) as (r & Hr & Hc).
    rewrite Hr. right. left. eauto. }
  destruct (search DATE_DMY text) as [m3|] eqn:E3.
  { destruct (search_canonical _ _ _ date_dmy_canonical E3) as (r & Hr & Hc).
    rewrite Hr. right. right. left. eauto 10. }
  right. right. right. auto.
Qed.

(** The search returns the leftmost match: when the pattern matches at a
    cursor of the text, the search returns that match or one that begins
    before it. *)
Lemma search_from_leftmost (r : regex) : forall (a b before : string) (pv : option ascii)
    (m0 : rmatch_result),
  match_at r (before +:+ a) (Cursor (last_char pv a) b) = Some m0 ->
  exists m, search_from r before pv (a +:+ b) = Some m
            /\ (m = m0 \/ String.length (m_before m) < String.length (before +:+ a)).
Proof.
  induction a as [|c a IH]; intros b before pv m0 H.
  - simpl in H. rewrite append_nil_r in H.
    exists m0. split; [|by left]. by apply search_from_here.
  - cbn [String.append search_from].
    destruct (match_at r before (Cursor pv (String c (a +:+ b)))) as [m|] eqn:E.
    + exists m. split; [reflexivity|]. right.
      apply match_at_sound in E as [-> _]. rewrite length_append. simpl. lia.
    + destruct (IH b (before +:+ String c EmptyString) (Some c) m0) as (m & Hs & Hm).
      { rewrite append_assoc. exact H. }
      exists m. split; [exact Hs|].
      destruct Hm as [Hm|Hm]; [by left | right].
      rewrite append_assoc in Hm. exact Hm.
Qed.

(** When 2021-03-11 stands in a text with no digit right before it and none
    right after it, and the leftmost ISO date of the text does not begin
    before it, the date of the text is 2021/03/11. *)
Lemma normalize_date_first_iso (pre post : string) :
  holds is_digit (last_char None pre) = false ->
  holds is_digit (head_char post) = false ->
  (forall m, search DATE_ISO (pre +:+ "2021-03-11" +:+ post) = Some m ->
             String.length pre <= String.length (m_before m)) ->
  normalize_date_to_ymd (pre +:+ "2021-03-11" +:+ post) = "2021/03/11".
Proof.
  intros Hpre Hpost Hfirst.
  pose proof (date_iso_2021_03_11_here (EmptyString +:+ pre) post _ Hpre Hpost) as Hhere.
  apply search_from_leftmost in Hhere as (m & Hs & Hm).
  fold (search DATE_ISO (pre +:+ "2021-03-11" +:+ post)) in Hs.
  destruct Hm as [->|Hlt].
  - unfold normalize_date_to_ymd, DATE_PATTERNS. cbn [date_from]. rewrite Hs. reflexivity.
  - apply Hfirst in Hs. simpl in Hlt. lia.
Qed.

(** C7 (as amended): the three date patterns are tried in their fixed
    order; the first that matches anywhere in the text decides, through
    its leftmost match, and the result is then a canonical zero-padded
    year/month/day; when none matches the result is empty. In particular a
    text that holds 2021-03-11 with no digit right before it and none right
    after it, and in which no match of the ISO pattern begins before it,
    yields 2021/03/11. *)
Theorem normalize_date_to_ymd_spec (text : string) :
  (let r := normalize_date_to_ymd text in
   (decided_by DATE_ISO text r /\ canonical_ymd r)
   \/ (search DATE_ISO text = None /\ decided_by DATE_MDY text r /\ canonical_ymd r)
   \/ (search DATE_ISO text = None /\ search DATE_MDY text = None
       /\ decided_by DATE_DMY text r /\ canonical_ymd r)
   \/ (search DATE_ISO text = None /\ search DATE_MDY text = None
       /\ search DATE_DMY text = None /\ r = EmptyString))
  /\ (forall pre post,
        text = pre +:+ "2021-03-11" +:+ post ->
        holds is_digit (last_char None pre) = false ->
        holds is_digit (head_char post) = false ->
        (forall m, search DATE_ISO text = Some m ->
                   String.length pre <= String.length (m_before m)) ->
        normalize_date_to_ymd text = "2021/03/11").
Proof.
  split; [apply normalize_date_cases|].
  intros pre post -> Hpre Hpost Hfirst. by apply normalize_date_first_iso.
Qed.

Lemma normalize_date_to_ymd_spec_witness :
  normalize_date_to_ymd "SCALE 1:500 DATE 2021-03-11" = "2021/03/11".
Proof.
  apply (proj2 (normalize_date_to_ymd_spec "SCALE 1:500 DATE 2021-03-11")
           "SCALE 1:500 DATE " EmptyString); try reflexivity.
  intros m H. vm_compute in H. injection H as <-. simpl. lia.
Defined.

(** The claim as first written fails: a text may hold 2021-03-11 and yield
    another date, when an ISO date begins before it, or none, when a digit
    stands right after it or right before it. *)
Lemma normalize_date_to_ymd_other_date :
  occurs "2021-03-11" "1999-01-01 2021-03-11" = true
  /\ normalize_date_to_ymd "1999-01-01 2021-03-11" = "1999/01/01"
  /\ occurs "2021-03-11" "2021-03-110" = true
  /\ normalize_date_to_ymd "2021-03-110" = EmptyString
  /\ occurs "2021-03-11" "12021-03-11" = true
  /\ normalize_date_to_ymd "12021-03-11" = EmptyString.
Proof. vm_compute. auto 10. Qed.

(** *** The year of a date is a whole run of digits of the text *)

Lemma one_of_sep_not_digit (c : ascii) : one_of "-/" c = true -> is_digit c = false.
Proof. destruct c as [[] [] [] [] [] [] [] []]; intros H; try discriminate H; reflexivity. Qed.

Lemma is_space_not_digit (c : ascii) : is_space c = true -> is_digit c = false.
Proof. destruct c as [[] [] [] [] [] [] [] []]; intros H; try discriminate H; reflexivity. Qed.

Lemma not_word_not_digit (o : option ascii) :
  holds is_word o = false -> holds is_digit o = false.
Proof.
  destruct o as [c|]; simpl; [|reflexivity]. intros H.
  destruct (is_digit c) eqn:E; [|reflexivity].
  apply is_digit_is_word in E. congruence.
Qed.

Lemma last_char_all (p : ascii -> bool) (u : string) : forall pv,
  holds p pv = true -> all_of p u = true -> holds p (last_char pv u) = true.
Proof.
  induction u as [|c u IH]; intros pv Hpv Hall; simpl; [exact Hpv|].
  simpl in Hall. apply andb_true_iff in Hall as [Hc Hall]. by apply IH.
Qed.

Lemma date_iso_year (m : rmatch_result) (cur : cursor) :
  matches DATE_ISO cur [] (m_text m) (m_after m) (m_groups m) ->
  exists a y b r,
    m_text m = a +:+ y +:+ b
    /\ date_of_match m = Some (y +:+ "/" +:+ r)
    /\ year_1900_2099 y
    /\ holds is_digit (last_char (prev cur) a) = false
    /\ holds is_digit (head_char (b +:+ rest (m_after m))) = false.
Proof.
  destruct m as [before u caps after]. cbn [m_text m_after m_groups]. intros H.
  cbv beta iota delta [DATE_ISO seqs lit] in H. invert_matches.
  repeat match goal with
    | H : matches year _ _ _ _ _ |- _ => apply year_shape in H as (-> & ? & ?)
    | H : matches month2 _ _ _ _ _ |- _ => apply month2_shape in H as (-> & ? & ?)
    | H : matches day2 _ _ _ _ _ |- _ => apply day2_shape in H as (-> & ? & ?)
    end.
  match goal with H : is_char "-" ?c = true |- context [String ?c EmptyString +:+ ?u2 +:+ _] =>
    exists EmptyString, u0, (String c EmptyString +:+ u2 +:+ String c3 EmptyString +:+ u3 +:+ EmptyString)
  end.
  eexists. split; [reflexivity|]. split.
  - eapply date_of_match_numeric; try reflexivity; eapply digits_nonempty; eassumption.
  - split; [split; assumption|]. split; [assumption|].
    read_chars. reflexivity.
Qed.

Lemma date_mdy_year (m : rmatch_result) (cur : cursor) :
  matches DATE_MDY cur [] (m_text m) (m_after m) (m_groups m) ->
  exists a y b r,
    m_text m = a +:+ y +:+ b
    /\ date_of_match m = Some (y +:+ "/" +:+ r)
    /\ year_1900_2099 y
    /\ holds is_digit (last_char (prev cur) a) = false
    /\ holds is_digit (head_char (b +:+ rest (m_after m))) = false.
Proof.
  destruct m as [before u caps after]. cbn [m_text m_after m_groups]. intros H.
  cbv beta iota delta [DATE_MDY seqs lit] in H. invert_matches.
  repeat match goal with
    | H : matches year _ _ _ _ _ |- _ => apply year_shape in H as (-> & ? & ?)
    | H : matches month12 _ _ _ _ _ |- _ => apply month12_shape in H as (-> & ? & ? & ?)
    | H : matches day12 _ _ _ _ _ |- _ => apply day12_shape in H as (-> & ? & ? & ?)
    end.
  exists ((u0 +:+ String c EmptyString +:+ u2) +:+ String c3 EmptyString), u3, EmptyString.
  eexists. split; [|split].
  - rewrite !append_assoc. reflexivity.
  - eapply date_of_match_numeric; try reflexivity;
      first [eapply digits_nonempty; eassumption | apply neq_nonempty; assumption].
  - split; [split; assumption|]. split.
    + rewrite last_char_append. simpl. by apply one_of_sep_not_digit.
    + assumption.
Qed.

Lemma date_dmy_year (m : rmatch_result) (cur : cursor) :
  matches DATE_DMY cur [] (m_text m) (m_after m) (m_groups m) ->
  exists a y b r,
    m_text m = a +:+ y +:+ b
    /\ date_of_match m = Some (y +:+ "/" +:+ r)
    /\ year_1900_2099 y
    /\ holds is_digit (last_char (prev cur) a) = false
    /\ holds is_digit (head_char (b +:+ rest (m_after m))) = false.
Proof.
  destruct m as [before u caps after]. cbn [m_text m_after m_groups]. intros H.
  cbv beta iota delta [DATE_DMY seqs lit plus] in H. invert_matches.
  repeat match goal with
    | H : matches year _ _ _ _ _ |- _ => apply year_shape in H as (-> & ? & ?)
    | H : matches month_name _ _ _ _ _ |- _ =>
        apply month_name_shape in H as (-> & ? & ? & ?)
    | H : matches day12 _ _ _ _ _ |- _ => apply day12_shape in H as (-> & ? & ? & ?)
    end.
  exists ((u0 +:+ (String c7 EmptyString +:+ u7) +:+ u3 +:+ u4) +:+ String c u9), u6, EmptyString.
  eexists. split; [|split].
  - rewrite !append_assoc. reflexivity.
  - eapply date_of_match_named; try reflexivity;
      first [eapply digits_nonempty; eassumption | apply neq_nonempty; assumption].
  - split; [split; assumption|]. split.
    + rewrite last_char_app. cbn [last_char].
      match goal with H : run is_space {| prev := Some c; rest := _ |} _ _ |- _ =>
        apply run_all in H as [Hall _] end.
      pose proof (last_char_all is_space u9 (Some c) H0 Hall) as Hsp.
      destruct (last_char (Some c) u9) as [x|]; [|reflexivity].
      simpl in *. by apply is_space_not_digit.
    + by apply not_word_not_digit.
Qed.

(** The year of every date returned stands in the text as a whole run of
    digits: no digit right before it and none right after it. *)
Lemma normalize_date_year_in_text (text : string) :
  normalize_date_to_ymd text <> EmptyString ->
  exists pre y post r,
    text = pre +:+ y +:+ post
    /\ normalize_date_to_ymd text = y +:+ "/" +:+ r
    /\ year_1900_2099 y
    /\ holds is_digit (last_char None pre) = false
    /\ holds is_digit (head_char post) = false.
Proof.
  intros Hne.
  assert (Hpat : exists pat m res,
             search pat text = Some m /\ date_of_match m = Some res
             /\ normalize_date_to_ymd text = res
             /\ (forall m cur, matches pat cur [] (m_text m) (m_after m) (m_groups m) ->
                   exists a y b r,
                     m_text m = a +:+ y +:+ b
                     /\ date_of_match m = Some (y +:+ "/" +:+ r)
                     /\ year_1900_2099 y
                     /\ holds is_digit (last_char (prev cur) a) = false
                     /\ holds is_digit (head_char (b +:+ rest (m_after m))) = false)).
  { destruct (normalize_date_cases text)
      as [[(m & Hs & Hd) _]|[(_ & (m & Hs & Hd) & _)|[(_ & _ & (m & Hs & Hd) & _)|(_ & _ & _ & H)]]].
    - exists DATE_ISO, m, (normalize_date_to_ymd text). eauto using date_iso_year.
    - exists DATE_MDY, m, (normalize_date_to_ymd text). eauto using date_mdy_year.
    - exists DATE_DMY, m, (normalize_date_to_ymd text). eauto using date_dmy_year.
    - contradiction. }
  destruct Hpat as (pat & m & res & Hs & Hd & Hres & Hyear).
  apply search_sound in Hs as (b & Htext & Hb & Hm).
  destruct (Hyear m _ Hm) as (a & y & b' & r & Hu & Hd' & Hy & Hprev & Hnext).
  exists (m_before m +:+ a), y, (b' +:+ rest (m_after m)), r.
  split; [|split; [|split; [|split]]].
  - rewrite Htext, Hb, Hu, !append_assoc. reflexivity.
  - rewrite Hres. congruence.
  - exact Hy.
  - rewrite last_char_app. exact Hprev.
  - exact Hnext.
Qed.

(** *** Runs of digits *)

Lemma digit_runs_from_here (y : string) : forall (cur post : string),
  all_of is_digit y = true ->
  holds is_digit (head_char post) = false ->
  cur +:+ y <> EmptyString ->
  In (cur +:+ y) (digit_runs_from cur (y +:+ post)).
Proof.
  induction y as [|c y IH]; intros cur post Hy Hpost Hne.
  - rewrite append_nil_r in *. cbn [String.append].
    assert (Hcur : Str.is_empty cur = false) by by apply is_empty_false.
    destruct post as [|c post]; simpl in *; rewrite Hcur.
    + by left.
    + rewrite Hpost. by left.
  - simpl in Hy. apply andb_true_iff in Hy as [Hc Hy].
    cbn [String.append digit_runs_from]. rewrite Hc.
    replace (cur +:+ String c y) with ((cur +:+ String c EmptyString) +:+ y)
      by (rewrite append_assoc; reflexivity).
    apply IH; [exact Hy | exact Hpost |].
    destruct cur; discriminate.
Qed.

Lemma digit_runs_from_later (y s : string) (pre : string) : forall (cur : string) (pv : option ascii),
  (holds is_digit pv = false -> cur = EmptyString) ->
  holds is_digit (last_char pv pre) = false ->
  In y (digit_runs_from EmptyString s) ->
  In y (digit_runs_from cur (pre +:+ s)).
Proof.
  induction pre as [|c pre IH]; intros cur pv Hcur Hlast Hin.
  - simpl in Hlast. rewrite (Hcur Hlast). exact Hin.
  - cbn [String.append digit_runs_from]. simpl in Hlast.
    destruct (is_digit c) eqn:Hc.
    + apply (IH _ (Some c)); [simpl; congruence | exact Hlast | exact Hin].
    + apply in_or_app. right.
      apply (IH _ (Some c)); [reflexivity | exact Hlast | exact Hin].
Qed.

(** A run of digits with no digit right before it and none right after it
    is one of the runs of the text. *)
Lemma digit_runs_complete (pre y post : string) :
  y <> EmptyString ->
  all_of is_digit y = true ->
  holds is_digit (last_char None pre) = false ->
  holds is_digit (head_char post) = false ->
  In y (digit_runs (pre +:+ y +:+ post)).
Proof.
  intros Hne Hy Hpre Hpost. unfold digit_runs.
  apply (digit_runs_from_later y _ pre EmptyString None); [reflexivity | exact Hpre |].
  apply (digit_runs_from_here y EmptyString post Hy Hpost). exact Hne.
Qed.

(** A text none of whose runs of digits is a year from 1900 to 2099 has no
    date. *)
Lemma normalize_date_no_year (text : string) :
  (forall r, In r (digit_runs text) -> ~ year_1900_2099 r) ->
  normalize_date_to_ymd text = EmptyString.
Proof.
  intros Hruns.
  destruct (String.string_dec (normalize_date_to_ymd text) EmptyString) as [E|Hne]; [exact E|].
  exfalso.
  destruct (normalize_date_year_in_text text Hne)
    as (pre & y & post & r & Htext & _ & Hy & Hpre & Hpost).
  apply (Hruns y); [|exact Hy].
  rewrite Htext. apply digit_runs_complete; try assumption.
  - destruct Hy as [[Hlen _] _]. destruct y; [discriminate Hlen | discriminate].
  - apply Hy.
Qed.

Lemma digit_runs_from_digits (ds : string) : forall (cur s : string),
  all_of is_digit ds = true ->
  digit_runs_from cur (ds +:+ s) = digit_runs_from (cur +:+ ds) s.
Proof.
  induction ds as [|c ds IH]; intros cur s Hds.
  - by rewrite append_nil_r.
  - simpl in Hds. apply andb_true_iff in Hds as [Hc Hds].
    cbn [String.append digit_runs_from]. rewrite Hc, IH by exact Hds.
    by rewrite append_assoc.
Qed.

Lemma digit_runs_from_gap (w : string) : forall (cur s : string),
  w <> EmptyString ->
  all_of (neg is_digit) w = true ->
  digit_runs_from cur (w +:+ s)
  = (if Str.is_empty cur then [] else [cur]) ++ digit_runs_from EmptyString s.
Proof.
  induction w as [|c w IH]; intros cur s Hne Hw; [done|].
  simpl in Hw. apply andb_true_iff in Hw as [Hc Hw].
  unfold neg in Hc. apply negb_true_iff in Hc.
  cbn [String.append digit_runs_from]. rewrite Hc.
  destruct w as [|c' w]; [reflexivity|].
  rewrite IH by (done || exact Hw). reflexivity.
Qed.

(** The runs of digits of three runs with something else between them. *)
Lemma digit_runs_three (a s1 b s2 c : string) :
  all_of is_digit a = true -> all_of is_digit b = true -> all_of is_digit c = true ->
  s1 <> EmptyString -> all_of (neg is_digit) s1 = true ->
  s2 <> EmptyString -> all_of (neg is_digit) s2 = true ->
  forall r, In r (digit_runs (a +:+ s1 +:+ b +:+ s2 +:+ c)) -> r = a \/ r = b \/ r = c.
Proof.
  intros Ha Hb Hc Hn1 Hs1 Hn2 Hs2 r. unfold digit_runs.
  rewrite digit_runs_from_digits by exact Ha.
  rewrite digit_runs_from_gap by assumption.
  rewrite digit_runs_from_digits by exact Hb.
  rewrite digit_runs_from_gap by assumption.
  replace c with (c +:+ EmptyString) at 1 by apply append_nil_r.
  rewrite digit_runs_from_digits by exact Hc.
  cbn [String.append digit_runs_from].
  intros Hin.
  repeat match goal with
    | H : In _ (_ ++ _) |- _ => apply in_app_or in H as [H|H]
    | H : In _ (if ?t then _ else _) |- _ => destruct t
    | H : In _ [] |- _ => destruct H
    | H : In _ [_] |- _ => destruct H as [<-|[]]
    end; auto.
Qed.

Lemma two_digits_no_year (s : string) : digits 2 s -> ~ year_1900_2099 s.
Proof. intros [Hlen _] [[Hlen' _] _]. congruence. Qed.

Lemma empty_no_year : ~ year_1900_2099 EmptyString.
Proof. intros [[Hlen _] _]. discriminate Hlen. Qed.

Lemma normalize_date_three_runs (a s1 b s2 c : string) :
  all_of is_digit a = true -> all_of is_digit b = true -> all_of is_digit c = true ->
  s1 <> EmptyString -> all_of (neg is_digit) s1 = true ->
  s2 <> EmptyString -> all_of (neg is_digit) s2 = true ->
  ~ year_1900_2099 a -> ~ year_1900_2099 b -> ~ year_1900_2099 c ->
  normalize_date_to_ymd (a +:+ s1 +:+ b +:+ s2 +:+ c) = EmptyString.
Proof.
  intros Ha Hb Hc Hn1 Hs1 Hn2 Hs2 Hya Hyb Hyc.
  apply normalize_date_no_year. intros r Hin.
  destruct (digit_runs_three a s1 b s2 c Ha Hb Hc Hn1 Hs1 Hn2 Hs2 r Hin) as [->|[->| ->]];
    assumption.
Qed.

(** C10: a date is returned only for a year from 1900 to 2099. Every
    result that is not empty starts with four digits that write such a
    year, followed by a slash, and these four digits stand in the text with
    no digit right before them and none right after them. Hence a text
    none of whose runs of digits is such a year yields the empty string;
    so does every date that is well formed but for its year, in each of
    the three forms: year-month-day with a year of any number of digits,
    month/day/year, and day, month name, year; 1899-12-31 and 2100-01-01
    are such dates. *)
Theorem normalize_date_year_range :
  (forall text,
      normalize_date_to_ymd text <> EmptyString ->
      exists y rest,
        normalize_date_to_ymd text = y +:+ "/" +:+ rest
        /\ digits 4 y /\ 1900 <= value y <= 2099)
  /\ (forall text,
        normalize_date_to_ymd text <> EmptyString ->
        exists pre y post rest,
          text = pre +:+ y +:+ post
          /\ normalize_date_to_ymd text = y +:+ "/" +:+ rest
          /\ year_1900_2099 y
          /\ holds is_digit (last_char None pre) = false
          /\ holds is_digit (head_char post) = false)
  /\ (forall text,
        (forall r, In r (digit_runs text) -> ~ year_1900_2099 r) ->
        normalize_date_to_ymd text = EmptyString)
  /\ (forall y mm dd,
        all_of is_digit y = true -> digits 2 mm -> digits 2 dd ->
        ~ year_1900_2099 y ->
        normalize_date_to_ymd (y +:+ "-" +:+ mm +:+ "-" +:+ dd) = EmptyString
        /\ normalize_date_to_ymd (mm +:+ "/" +:+ dd +:+ "/" +:+ y) = EmptyString)
  /\ (forall dd mon y,
        digits 2 dd -> all_of (neg is_digit) mon = true -> all_of is_digit y = true ->
        ~ year_1900_2099 y ->
        normalize_date_to_ymd (dd +:+ " " +:+ mon +:+ " " +:+ y) = EmptyString)
  /\ normalize_date_to_ymd "1899-12-31" = EmptyString
  /\ normalize_date_to_ymd "2100-01-01" = EmptyString
  /\ normalize_date_to_ymd "12/31/1899" = EmptyString
  /\ normalize_date_to_ymd "31 Dec 2100" = EmptyString.
Proof.
  split; [|split; [|split; [|split; [|split; [|vm_compute; auto]]]]].
  - intros text Hne.
    destruct (normalize_date_year_in_text text Hne)
      as (pre & y & post & r & _ & Hres & [Hy Hrange] & _).
    exists y, r. auto.
  - exact normalize_date_year_in_text.
  - exact normalize_date_no_year.
  - intros y mm dd Hy Hmm Hdd Hout. split.
    + apply (normalize_date_three_runs y "-" mm "-" dd);
        try done; first [apply Hmm | apply Hdd | by apply two_digits_no_year].
    + apply (normalize_date_three_runs mm "/" dd "/" y);
        try done; first [apply Hmm | apply Hdd | by apply two_digits_no_year].
  - intros dd mon y Hdd Hmon Hy Hout.
    pose proof (normalize_date_three_runs dd " " EmptyString (mon +:+ " ") y) as H.
    cbn [String.append] in H. rewrite append_assoc in H.
    apply H; try done; try apply Hdd.
    + destruct mon; discriminate.
    + clear H. induction mon as [|c mon IH]; [reflexivity|].
      simpl in *. apply andb_true_iff in Hmon as [-> Hmon]. by apply IH.
    + by apply two_digits_no_year.
    + exact empty_no_year.
Qed.

Lemma normalize_date_year_range_witness :
  (normalize_date_to_ymd "on 5 sept 1960." <> EmptyString
   /\ exists y rest,
        normalize_date_to_ymd "on 5 sept 1960." = y +:+ "/" +:+ rest
        /\ digits 4 y /\ 1900 <= value y <= 2099)
  /\ normalize_date_to_ymd "12021-03-11" = EmptyString
  /\ normalize_date_to_ymd ("1899" +:+ "-" +:+ "12" +:+ "-" +:+ "31") = EmptyString
  /\ normalize_date_to_ymd ("31" +:+ " " +:+ "December" +:+ " " +:+ "2100") = EmptyString.
Proof.
  assert (H : normalize_date_to_ymd "on 5 sept 1960." <> EmptyString)
    by (vm_compute; discriminate).
  split; [split; [exact H|]|split; [|split]].
  - exact (proj1 normalize_date_year_range "on 5 sept 1960." H).
  - apply (proj1 (proj2 (proj2 normalize_date_year_range)) "12021-03-11").
    intros r Hin [[Hlen _] _]. vm_compute in Hin.
    destruct Hin as [<-|[<-|[<-|[]]]]; discriminate Hlen.
  - apply (proj1 (proj2 (proj2 (proj2 normalize_date_year_range))) "1899" "12" "31");
      try (split; reflexivity); try reflexivity.
    intros [_ [Hlo _]]. vm_compute in Hlo. lia.
  - apply (proj1 (proj2 (proj2 (proj2 (proj2 normalize_date_year_range)))) "31" "December" "2100");
      try (split; reflexivity); try reflexivity.
    intros [_ [_ Hhi]]. vm_compute in Hhi. lia.
Defined.

(** ** The triplet of the header line *)

(** Strategy A returns the triple of the first line it accepts. *)
Lemma strategy_a_first (n : nat) : forall (lines : list string) (i : nat) (line : string)
    (m : rmatch_result),
  lines !! i = Some line ->
  i < n ->
  re_match UPPER_TRIPLE_SPLIT (Str.strip line) = Some m ->
  (forall j l, j < i -> lines !! j = Some l -> strategy_a_line l = false) ->
  strategy_a (firstn n lines) = Some (triple_of_match m).
Proof.
  induction n as [|n IH]; intros lines i line m Hi Hlt Hm Hbefore; [lia|].
  destruct lines as [|l0 lines]; [discriminate Hi|].
  destruct i as [|i]; simpl in Hi.
  - injection Hi as ->. simpl. rewrite Hm. reflexivity.
  - simpl.
    assert (H0 : strategy_a_line l0 = false) by (apply (Hbefore 0); [lia | reflexivity]).
    unfold strategy_a_line in H0.
    destruct (re_match UPPER_TRIPLE_SPLIT (Str.strip l0)); [discriminate H0|].
    apply (IH lines i line m Hi); [lia | exact Hm |].
    intros j l Hj Hl. apply (Hbefore (S j)); [lia | exact Hl].
Qed.

(** C6 (as amended): when the line JAPAN, HONSHU, TOKYO BAY with two blanks
    between the parts is among the first 20 lines given to the parser and
    no line before it is accepted by Strategy A, the triplet comes from
    Strategy A and is exactly JAPAN, HONSHU, TOKYO BAY. *)
Theorem parse_country_state_location_strategy_a (lines : list string) (i : nat) :
  lines !! i = Some "JAPAN  HONSHU  TOKYO BAY" ->
  i < 20 ->
  (forall j line, j < i -> lines !! j = Some line -> strategy_a_line line = false) ->
  strategy_a (firstn 20 lines) = Some ("JAPAN", "HONSHU", "TOKYO BAY")
  /\ parse_country_state_location lines = ("JAPAN", "HONSHU", "TOKYO BAY").
Proof.
  intros Hi Hlt Hbefore.
  assert (Hm : exists m, re_match UPPER_TRIPLE_SPLIT (Str.strip "JAPAN  HONSHU  TOKYO BAY") = Some m
                         /\ triple_of_match m = ("JAPAN", "HONSHU", "TOKYO BAY")).
  { eexists. split; vm_compute; reflexivity. }
  destruct Hm as (m & Hm & Ht).
  pose proof (strategy_a_first 20 lines i _ m Hi Hlt Hm Hbefore) as Ha.
  rewrite Ht in Ha. split; [exact Ha|].
  unfold parse_country_state_location. rewrite Ha. reflexivity.
Qed.

Lemma parse_country_state_location_strategy_a_witness :
  parse_country_state_location
    ["TSUNAMI MARIGRAM"; "JAPAN  HONSHU  TOKYO BAY"; "DATE 2021-03-11"]
  = ("JAPAN", "HONSHU", "TOKYO BAY").
Proof.
  apply (parse_country_state_location_strategy_a
           ["TSUNAMI MARIGRAM"; "JAPAN  HONSHU  TOKYO BAY"; "DATE 2021-03-11"] 1).
  - reflexivity.
  - lia.
  - intros j line Hj Hl. destruct j as [|j]; [|lia].
    simpl in Hl. injection Hl as <-. vm_compute. reflexivity.
Defined.

(** The claim as first written fails: Strategy A stops at the first line it
    accepts, so the line of the claim, coming second, is not the one
    returned. *)
Lemma parse_country_state_location_earlier_line :
  ["USA  HAWAII  HILO"; "JAPAN  HONSHU  TOKYO BAY"] !! 1 = Some "JAPAN  HONSHU  TOKYO BAY"
  /\ parse_country_state_location ["USA  HAWAII  HILO"; "JAPAN  HONSHU  TOKYO BAY"]
     = ("USA", "HAWAII", "HILO")
  /\ parse_country_state_location ["USA  HAWAII  HILO"; "JAPAN  HONSHU  TOKYO BAY"]
     <> ("JAPAN", "HONSHU", "TOKYO BAY").
Proof. vm_compute. split; [reflexivity|]. split; [reflexivity | discriminate]. Qed.

(** The same line as an OCR text: the parser, given the line with its double
    blanks, returns the triplet through Strategy A; [process_one_image]
    hands it the lines of the sanitized text, in which every run of blanks
    has become one blank, so that Strategy A finds nothing there and,
    without separators or labels, the triplet comes out empty. *)
Lemma strategy_a_after_sanitize :
  parse_country_state_location ["JAPAN  HONSHU  TOKYO BAY"] = ("JAPAN", "HONSHU", "TOKYO BAY")
  /\ sanitize_text "JAPAN  HONSHU  TOKYO BAY" = "JAPAN HONSHU TOKYO BAY"
  /\ strategy_a (nonblank_lines (sanitize_text "JAPAN  HONSHU  TOKYO BAY")) = None
  /\ parse_country_state_location (nonblank_lines (sanitize_text "JAPAN  HONSHU  TOKYO BAY"))
     = (EmptyString, EmptyString, EmptyString)
  /\ (let f := resolve_fields {[ "JAPAN" ]} {[ "HONSHU" ]} {[ "TOKYO BAY" ]} ∅ ∅
                 "JAPAN  HONSHU  TOKYO BAY" in
      (country_ocr f, state_ocr f, location_ocr f) = (EmptyString, EmptyString, EmptyString)
      /\ country_flag f = true /\ state_flag f = true /\ location_flag f = true).
Proof. vm_compute. auto 10. Qed.
(** * Further properties *)

(** ** Trimming and upper-casing *)

Lemma is_space_upper_char (c : ascii) : is_space (upper_char c) = is_space c.
Proof. destruct c as [[] [] [] [] [] [] [] []]; reflexivity. Qed.

Lemma is_lower_upper_char (c : ascii) : is_lower (upper_char c) = false.
Proof. destruct c as [[] [] [] [] [] [] [] []]; reflexivity. Qed.

Lemma map_is_empty (f : ascii -> ascii) (s : string) :
  Str.is_empty (Str.map f s) = Str.is_empty s.
Proof. destruct s; reflexivity. Qed.

Lemma lstrip_map (f : ascii -> ascii) (s : string) :
  (forall c, is_space (f c) = is_space c) ->
  Str.lstrip (Str.map f s) = Str.map f (Str.lstrip s).
Proof.
  intros Hf. induction s as [|c s IH]; simpl; [reflexivity|].
  rewrite Hf. destruct (is_space c); [exact IH | reflexivity].
Qed.

Lemma rstrip_map (f : ascii -> ascii) (s : string) :
  (forall c, is_space (f c) = is_space c) ->
  Str.rstrip (Str.map f s) = Str.map f (Str.rstrip s).
Proof.
  intros Hf. induction s as [|c s IH]; simpl; [reflexivity|].
  rewrite Hf, IH, map_is_empty.
  destruct (is_space c && Str.is_empty (Str.rstrip s)); reflexivity.
Qed.

Lemma strip_upper (s : string) : Str.strip (Str.upper s) = Str.upper (Str.strip s).
Proof.
  unfold Str.strip, Str.upper.
  rewrite lstrip_map, rstrip_map by exact is_space_upper_char. reflexivity.
Qed.

Lemma upper_idem (s : string) : Str.upper (Str.upper s) = Str.upper s.
Proof.
  unfold Str.upper. induction s as [|c s IH]; simpl; [reflexivity|].
  by rewrite upper_char_idem, IH.
Qed.

Lemma lstrip_no_lead (s : string) : no_lead (Str.lstrip s).
Proof.
  unfold no_lead. induction s as [|c s IH]; simpl; [reflexivity|].
  destruct (is_space c) eqn:E; [exact IH | simpl; exact E].
Qed.

Lemma lstrip_of_no_lead (s : string) : no_lead s -> Str.lstrip s = s.
Proof. unfold no_lead. destruct s as [|c s]; simpl; [auto|]. by intros ->. Qed.

Lemma rstrip_no_lead (s : string) : no_lead s -> no_lead (Str.rstrip s).
Proof.
  unfold no_lead. destruct s as [|c s]; simpl; [auto|]. intros H. rewrite H. simpl. exact H.
Qed.

Lemma rstrip_idem (s : string) : Str.rstrip (Str.rstrip s) = Str.rstrip s.
Proof.
  induction s as [|c s IH]; simpl; [reflexivity|].
  destruct (is_space c && Str.is_empty (Str.rstrip s)) eqn:E; [reflexivity|].
  simpl. rewrite IH, E. reflexivity.
Qed.

Lemma strip_idem (s : string) : Str.strip (Str.strip s) = Str.strip s.
Proof.
  unfold Str.strip.
  rewrite (lstrip_of_no_lead (Str.rstrip (Str.lstrip s)))
    by (apply rstrip_no_lead, lstrip_no_lead).
  apply rstrip_idem.
Qed.

Lemma upper_is_empty (s : string) : Str.is_empty (Str.upper s) = Str.is_empty s.
Proof. apply map_is_empty. Qed.

Lemma upper_no_lower (s : string) : all_of (neg is_lower) (Str.upper s) = true.
Proof.
  unfold Str.upper. induction s as [|c s IH]; simpl; [reflexivity|].
  unfold neg at 1. by rewrite is_lower_upper_char, IH.
Qed.

(** X1: the normalization [_upper] is idempotent, and what it returns has
    no blank at either end and no lower-case letter. *)
Theorem upper_normal_form (s : string) :
  _upper (_upper s) = _upper s
  /\ Str.strip (_upper s) = _upper s
  /\ all_of (neg is_lower) (_upper s) = true.
Proof.
  unfold _upper. split_and!.
  - by rewrite strip_upper, strip_idem, upper_idem.
  - by rewrite strip_upper, strip_idem.
  - apply upper_no_lower.
Qed.

Lemma strip_blank_of_empty (value : string) :
  Str.is_empty value = true -> Str.is_empty (Str.strip value) = true.
Proof. intros H. apply is_empty_true in H. by subst value. Qed.

Lemma validate_blank (value : string) (allow : gset string) :
  Str.is_empty (Str.strip value) = true ->
  validate_against_allow_list value allow = (EmptyString, true).
Proof.
  intros H. unfold validate_against_allow_list. rewrite H, orb_true_r. reflexivity.
Qed.

Lemma validate_not_blank (value : string) (allow : gset string) :
  Str.is_empty (Str.strip value) = false ->
  validate_against_allow_list value allow
  = if bool_decide (_upper value ∈ allow) then (_upper value, false)
    else (Str.strip value, true).
Proof.
  intros H. unfold validate_against_allow_list.
  destruct (Str.is_empty value) eqn:E.
  - apply strip_blank_of_empty in E. congruence.
  - rewrite H. reflexivity.
Qed.

(** X2: the resolver clears the review flag exactly when the candidate is
    not blank and its normalization is in the vocabulary, and then returns
    that normalization; a blank candidate comes back as the empty string,
    flagged, even when the vocabulary holds the empty string. *)
Theorem validate_flag_cleared_iff (value : string) (allow : gset string) :
  (snd (validate_against_allow_list value allow) = false
   <-> Str.strip value <> EmptyString /\ _upper value ∈ allow)
  /\ (Str.strip value <> EmptyString -> _upper value ∈ allow ->
      validate_against_allow_list value allow = (_upper value, false))
  /\ (Str.strip value = EmptyString ->
      validate_against_allow_list value allow = (EmptyString, true)).
Proof.
  destruct (Str.is_empty (Str.strip value)) eqn:E.
  - pose proof (proj1 (is_empty_true _) E) as Hb.
    rewrite (validate_blank _ _ E). simpl. split_and!.
    + split; [discriminate | intros [H _]; contradiction].
    + intros H; contradiction.
    + reflexivity.
  - pose proof (proj1 (is_empty_false _) E) as Hb.
    rewrite (validate_not_blank _ _ E). split_and!.
    + case_bool_decide; simpl; split; try done. intros [_ Hin]. contradiction.
    + intros _ Hin. by rewrite bool_decide_eq_true_2.
    + intros H. contradiction.
Qed.

Lemma validate_flag_cleared_iff_witness :
  validate_against_allow_list " tokyo bay " {[ "TOKYO BAY" ]} = (_upper " tokyo bay ", false)
  /\ validate_against_allow_list "  " {[ EmptyString ]} = (EmptyString, true).
Proof.
  split.
  - apply (proj1 (proj2 (validate_flag_cleared_iff " tokyo bay " {[ "TOKYO BAY" ]}))).
    + vm_compute. discriminate.
    + apply elem_of_singleton. vm_compute. reflexivity.
  - apply (proj2 (proj2 (validate_flag_cleared_iff "  " {[ EmptyString ]}))).
    vm_compute. reflexivity.
Defined.

(** X3: validating again what the resolver returned changes nothing: the
    value and the flag come back as they were. *)
Theorem validate_idempotent (value : string) (allow : gset string) :
  validate_against_allow_list (fst (validate_against_allow_list value allow)) allow
  = validate_against_allow_list value allow.
Proof.
  destruct (Str.is_empty (Str.strip value)) eqn:E.
  - rewrite (validate_blank _ _ E). simpl. by apply validate_blank.
  - rewrite (validate_not_blank _ _ E).
    case_bool_decide as Hin; simpl.
    + assert (Hs : Str.strip (_upper value) = _upper value)
        by (unfold _upper; by rewrite strip_upper, strip_idem).
      rewrite validate_not_blank.
      * assert (Hu : _upper (_upper value) = _upper value)
          by (unfold _upper; by rewrite strip_upper, strip_idem, upper_idem).
        rewrite Hu. by rewrite bool_decide_eq_true_2.
      * rewrite Hs. unfold _upper. by rewrite upper_is_empty.
    + rewrite validate_not_blank by (by rewrite strip_idem).
      assert (Hu : _upper (Str.strip value) = _upper value)
        by (unfold _upper; by rewrite strip_idem).
      rewrite Hu, strip_idem. by rewrite bool_decide_eq_false_2.
Qed.

(** ** The run loop: counters, batches, log *)

Lemma ok_record_is_ok (file_id rel_path : string) (psm oem : Z) :
  ok_record file_id rel_path psm oem !! "file_id" = Some (JStr file_id)
  /\ is_ok (ok_record file_id rel_path psm oem) = true.
Proof.
  unfold is_ok, ok_record. split.
  - by rewrite lookup_insert_eq.
  - rewrite lookup_insert_ne by discriminate. rewrite lookup_insert_ne by discriminate.
    by rewrite lookup_insert_eq.
Qed.

Lemma error_record_is_not_ok (file_id rel_path : string) (e : exn) :
  is_ok (error_record file_id rel_path e) = false.
Proof.
  unfold is_ok, error_record.
  rewrite lookup_insert_ne by discriminate. rewrite lookup_insert_ne by discriminate.
  by rewrite lookup_insert_eq.
Qed.

Lemma load_after_append (log : option (list log_line)) (record : gmap string jval) :
  load_processed_ids (append_log log record) = replay (load_processed_ids log) (Obj record).
Proof.
  unfold append_log, load_processed_ids. rewrite foldl_app. simpl.
  destruct log; reflexivity.
Qed.

Section Loop.

Variables countries states locations : gset string.
Variable regions_map : gmap string string.
Variable ioc_index : gmap (string * string) string.
Variable geocode_fn : option (string -> option (string * string)).
Variable fmt_conf : Q -> string.
Variable download : string -> string -> option exn.
Variable ocr_of : string -> result (list (string * Q)).
Variable a : args.
Variable processed : gset string.

Local Abbreviation step :=
  (main_step countries states locations regions_map ioc_index geocode_fn
     fmt_conf download ocr_of a processed).
Local Abbreviation loop :=
  (main_loop countries states locations regions_map ioc_index geocode_fn
     fmt_conf download ocr_of a processed).

(** The three ways a turn of the loop can end. *)
Lemma main_step_cases (st : run_state) (file_id rel_path : string) :
  (resume a = true /\ file_id ∈ processed
   /\ step st (file_id, rel_path)
      = RunState (rows_to_write st) (excel st) (log_path st)
          (ok_count st) (S (skip_count st)) (err_count st) (tty st))
  \/ (~ (resume a = true /\ file_id ∈ processed)
      /\ exists e tty',
           step st (file_id, rel_path) = on_error st file_id rel_path e tty')
  \/ (~ (resume a = true /\ file_id ∈ processed)
      /\ exists row tty',
           rows_to_write (step st (file_id, rel_path))
           = (if 25 <=? length (rows_to_write st ++ [row]) then []
              else rows_to_write st ++ [row])
           /\ excel (step st (file_id, rel_path))
              = (if 25 <=? length (rows_to_write st ++ [row])
                 then excel st ++ [rows_to_write st ++ [row]] else excel st)
           /\ log_path (step st (file_id, rel_path))
              = append_log (log_path st) (ok_record file_id rel_path (psm a) (oem a))
           /\ ok_count (step st (file_id, rel_path)) = S (ok_count st)
           /\ skip_count (step st (file_id, rel_path)) = skip_count st
           /\ err_count (step st (file_id, rel_path)) = err_count st
           /\ tty (step st (file_id, rel_path)) = tty').
Proof.
  unfold main_step.
  destruct (resume a && bool_decide (file_id ∈ processed)) eqn:Hskip.
  - left. apply andb_true_iff in Hskip as [Hr Hin].
    apply bool_decide_eq_true in Hin. auto.
  - right.
    assert (Hno : ~ (resume a = true /\ file_id ∈ processed)).
    { intros [Hr Hin]. rewrite Hr in Hskip. simpl in Hskip.
      apply bool_decide_eq_false in Hskip. contradiction. }
    destruct (download file_id rel_path) as [e|]; [left; eauto|].
    destruct (process_one_image _ _ _ _ _ _ _ _ _ _ _ _ _ _ _) as [[row|e] tty'];
      [right|left; eauto].
    split; [exact Hno|]. exists row, tty'.
    destruct (25 <=? length (rows_to_write st ++ [row])); simpl; auto 10.
Qed.

Lemma main_step_counts (st : run_state) (item : string * string) :
  ok_count (step st item) + skip_count (step st item) + err_count (step st item)
  = S (ok_count st + skip_count st + err_count st)
  /\ length (default [] (log_path (step st item)))
     + skip_count (step st item)
     = S (length (default [] (log_path st)) + skip_count st).
Proof.
  destruct item as [file_id rel_path].
  destruct (main_step_cases st file_id rel_path)
    as [(_ & _ & ->)|[(_ & e & tty' & ->)|(_ & row & tty' & _ & _ & -> & -> & -> & -> & _)]];
    simpl; rewrite ?length_app; simpl; lia.
Qed.

Lemma main_loop_counts (items : list (string * string)) : forall st : run_state,
  ok_count (loop st items) + skip_count (loop st items) + err_count (loop st items)
  = ok_count st + skip_count st + err_count st + length items
  /\ length (default [] (log_path (loop st items))) + skip_count (loop st items)
     = length (default [] (log_path st)) + skip_count st + length items.
Proof.
  induction items as [|item items IH]; intros st.
  - simpl. lia.
  - unfold main_loop in *. cbn [foldl length].
    destruct (IH (step st item)) as [H1 H2].
    destruct (main_step_counts st item) as [G1 G2]. lia.
Qed.

(** Replaying the log after a turn of the loop. *)
Lemma main_step_frontier (st : run_state) (file_id rel_path : string) :
  (ok_count (step st (file_id, rel_path)) = S (ok_count st)
   /\ load_processed_ids (log_path (step st (file_id, rel_path)))
      = load_processed_ids (log_path st) ∪ {[ file_id ]})
  \/ (ok_count (step st (file_id, rel_path)) = ok_count st
      /\ load_processed_ids (log_path (step st (file_id, rel_path)))
         = load_processed_ids (log_path st)).
Proof.
  destruct (main_step_cases st file_id rel_path)
    as [(_ & _ & ->)|[(_ & e & tty' & ->)|(_ & row & tty' & _ & _ & Hlog & Hok & _)]].
  - right. auto.
  - right. split; [reflexivity|]. unfold on_error. cbn [log_path].
    rewrite load_after_append. unfold replay.
    rewrite error_record_is_not_ok.
    destruct (error_record file_id rel_path e !! "file_id"); reflexivity.
  - left. split; [exact Hok|]. rewrite Hlog, load_after_append. unfold replay.
    destruct (ok_record_is_ok file_id rel_path (psm a) (oem a)) as [-> ->]. reflexivity.
Qed.

Lemma main_loop_frontier (items : list (string * string)) : forall st : run_state,
  load_processed_ids (log_path st) ⊆ load_processed_ids (log_path (loop st items))
  /\ (forall id, id ∈ load_processed_ids (log_path (loop st items)) ->
        id ∈ load_processed_ids (log_path st) \/ id ∈ List.map fst items).
Proof.
  induction items as [|[file_id rel_path] items IH]; intros st.
  - simpl. split; [done|auto].
  - unfold main_loop in *. cbn [foldl].
    destruct (IH (step st (file_id, rel_path))) as [H1 H2].
    destruct (main_step_frontier st file_id rel_path) as [[_ Hf]|[_ Hf]];
      rewrite Hf in H1, H2.
    + split; [etrans; [apply union_subseteq_l|exact H1]|]. intros id Hid. apply H2 in Hid as [Hid|Hid].
      * apply elem_of_union in Hid as [Hid|Hid]; [auto|].
        apply elem_of_singleton in Hid. subst id. right. simpl. left.
      * right. simpl. by right.
    + split; [exact H1|]. intros id Hid. apply H2 in Hid as [Hid|Hid]; [auto|].
      right. simpl. by right.
Qed.

End Loop.

Lemma final_flush_same (st : run_state) :
  log_path (final_flush st) = log_path st
  /\ ok_count (final_flush st) = ok_count st
  /\ skip_count (final_flush st) = skip_count st
  /\ err_count (final_flush st) = err_count st.
Proof. unfold final_flush. destruct (rows_to_write st); auto. Qed.

(** X4: every item of a run is counted exactly once, as a success, a skip
    or an error, and the progress log grows by one entry for each success
    and each error, none for a skip. *)
Theorem every_item_is_counted_once
    (countries states locations : gset string) (regions_map : gmap string string)
    (ioc_index : gmap (string * string) string)
    (geocode_fn : option (string -> option (string * string))) (fmt_conf : Q -> string)
    (download : string -> string -> option exn) (ocr_of : string -> result (list (string * Q)))
    (a : args) (log0 : option (list log_line)) (tty0 : list string)
    (image_items : list (string * string)) :
  let st := main countries states locations regions_map ioc_index geocode_fn fmt_conf
              download ocr_of a log0 tty0 image_items in
  ok_count st + skip_count st + err_count st = length image_items
  /\ length (default [] (log_path st))
     = length (default [] log0) + ok_count st + err_count st.
Proof.
  intros st. subst st. unfold main.
  set (done := if resume a then load_processed_ids log0 else ∅).
  destruct (final_flush_same
              (main_loop countries states locations regions_map ioc_index geocode_fn
                 fmt_conf download ocr_of a done (RunState [] [] log0 0 0 0 tty0)
                 image_items)) as (-> & -> & -> & ->).
  destruct (main_loop_counts countries states locations regions_map ioc_index geocode_fn
              fmt_conf download ocr_of a done image_items
              (RunState [] [] log0 0 0 0 tty0)) as [H1 H2].
  simpl in H1, H2. lia.
Qed.

(** X5: whatever the number of successes, the batches a run writes are all
    of exactly 25 rows, but for the last one, written after the loop, which
    holds from 1 to 24 rows when there is one; together they hold one row
    for each success counted. *)
Theorem batches_are_full_but_the_last
    (countries states locations : gset string) (regions_map : gmap string string)
    (ioc_index : gmap (string * string) string)
    (geocode_fn : option (string -> option (string * string))) (fmt_conf : Q -> string)
    (download : string -> string -> option exn) (ocr_of : string -> result (list (string * Q)))
    (a : args) (log0 : option (list log_line)) (tty0 : list string)
    (image_items : list (string * string)) :
  let st := main countries states locations regions_map ioc_index geocode_fn fmt_conf
              download ocr_of a log0 tty0 image_items in
  batches_of_run (excel st) /\ length (concat (excel st)) = ok_count st.
Proof.
  intros st. subst st. unfold main.
  set (done := if resume a then load_processed_ids log0 else ∅).
  set (after_loop := main_loop _ _ _ _ _ _ _ _ _ _ _ _ _).
  assert (Hinv : batches_ok after_loop).
  { apply main_loop_batches. unfold batches_ok. simpl. split_and!; [constructor|lia|lia]. }
  destruct Hinv as (Hfull & Hbuf & Hok).
  assert (Hlen : length (concat (excel after_loop)) = 25 * length (excel after_loop)).
  { clear Hok. induction Hfull as [|batch batches Hb _ IH]; [reflexivity|].
    simpl. rewrite length_app, IH, Hb. lia. }
  unfold final_flush. destruct (rows_to_write after_loop) as [|row rows] eqn:Hrows;
    rewrite ?Hrows in Hbuf, Hok.
  - split.
    + exists (excel after_loop), []. rewrite app_nil_r. auto.
    + rewrite Hlen, Hok. simpl. lia.
  - simpl. split.
    + exists (excel after_loop), [row :: rows]. split_and!; [reflexivity|assumption|].
      right. eexists. split; [reflexivity|]. cbn [length] in *. lia.
    + rewrite concat_app, length_app, Hlen, Hok. cbn [concat]. rewrite app_nil_r.
      cbn [length]. lia.
Qed.

Lemma main_loop_without_resume
    (countries states locations : gset string) (regions_map : gmap string string)
    (ioc_index : gmap (string * string) string)
    (geocode_fn : option (string -> option (string * string))) (fmt_conf : Q -> string)
    (download : string -> string -> option exn) (ocr_of : string -> result (list (string * Q)))
    (a : args) (processed : gset string) (image_items : list (string * string)) :
  resume a = false ->
  forall st : run_state,
    skip_count
      (main_loop countries states locations regions_map ioc_index geocode_fn
         fmt_conf download ocr_of a processed st image_items) = skip_count st
    /\ exists entries,
         default []
           (log_path
              (main_loop countries states locations regions_map ioc_index
                 geocode_fn fmt_conf download ocr_of a processed st image_items))
         = default [] (log_path st) ++ entries
         /\ Forall2 entry_of entries (List.map fst image_items).
Proof.
  intros Hres.
  induction image_items as [|[file_id rel_path] items IH]; intros st.
  - simpl. split; [reflexivity|]. exists []. split; [by rewrite app_nil_r|constructor].
  - unfold main_loop in *. cbn [foldl].
    destruct (IH (main_step countries states locations regions_map ioc_index geocode_fn
                    fmt_conf download ocr_of a processed st (file_id, rel_path)))
      as [Hs (entries & Hl & Hent)].
    destruct (main_step_log countries states locations regions_map ioc_index geocode_fn
                fmt_conf download ocr_of a processed st file_id rel_path)
      as [(Hin & _)|(_ & Hs1 & line & Hline & Hl1)].
    + rewrite Hres in Hin. discriminate Hin.
    + rewrite Hs, Hs1. split; [reflexivity|]. exists (line :: entries).
      rewrite Hl, Hl1. cbn [from_option id]. rewrite <- app_assoc.
      split; [reflexivity|]. simpl. constructor; assumption.
Qed.

(** X6: without [--resume] the progress log is not consulted: no item is
    skipped, even one the log records as done, and every item gets a new
    entry, in order. *)
Theorem without_resume_nothing_is_skipped
    (countries states locations : gset string) (regions_map : gmap string string)
    (ioc_index : gmap (string * string) string)
    (geocode_fn : option (string -> option (string * string))) (fmt_conf : Q -> string)
    (download : string -> string -> option exn) (ocr_of : string -> result (list (string * Q)))
    (a : args) (log0 : option (list log_line)) (tty0 : list string)
    (image_items : list (string * string)) :
  resume a = false ->
  let st := main countries states locations regions_map ioc_index geocode_fn fmt_conf
              download ocr_of a log0 tty0 image_items in
  skip_count st = 0
  /\ exists entries,
       default [] (log_path st) = default [] log0 ++ entries
       /\ Forall2 entry_of entries (List.map fst image_items).
Proof.
  intros Hres st. subst st. unfold main. rewrite Hres.
  destruct (final_flush_same
              (main_loop countries states locations regions_map ioc_index geocode_fn
                 fmt_conf download ocr_of a ∅ (RunState [] [] log0 0 0 0 tty0)
                 image_items)) as (-> & _ & -> & _).
  destruct (main_loop_without_resume countries states locations regions_map ioc_index
              geocode_fn fmt_conf download ocr_of a ∅ image_items Hres
              (RunState [] [] log0 0 0 0 tty0)) as [Hs Hl].
  simpl in Hs, Hl. auto.
Qed.

Lemma without_resume_nothing_is_skipped_witness :
  resume (demo_args false false) = false
  /\ let st := main ∅ ∅ ∅ ∅ ∅ None demo_fmt demo_download demo_ocr (demo_args false false)
                 demo_log [] demo_items in
     skip_count st = 0
     /\ exists entries,
          default [] (log_path st) = default [] demo_log ++ entries
          /\ Forall2 entry_of entries (List.map fst demo_items).
Proof.
  split; [reflexivity|].
  apply (without_resume_nothing_is_skipped ∅ ∅ ∅ ∅ ∅ None demo_fmt demo_download demo_ocr
           (demo_args false false) demo_log [] demo_items).
  reflexivity.
Defined.

(** X7: replaying the log after a turn of the loop gives the set replayed
    before it, with the identity of the item added when the turn counted
    a success and nothing added otherwise; so after a run the set holds
    what it held before and, beyond that, only identities of items of the
    run. *)
Theorem frontier_grows_by_successes
    (countries states locations : gset string) (regions_map : gmap string string)
    (ioc_index : gmap (string * string) string)
    (geocode_fn : option (string -> option (string * string))) (fmt_conf : Q -> string)
    (download : string -> string -> option exn) (ocr_of : string -> result (list (string * Q)))
    (a : args) (log0 : option (list log_line)) (tty0 : list string)
    (image_items : list (string * string)) :
  (forall processed st file_id rel_path,
      let st' := main_step countries states locations regions_map ioc_index geocode_fn
                   fmt_conf download ocr_of a processed st (file_id, rel_path) in
      (ok_count st' = S (ok_count st)
       /\ load_processed_ids (log_path st') = load_processed_ids (log_path st) ∪ {[ file_id ]})
      \/ (ok_count st' = ok_count st
          /\ load_processed_ids (log_path st') = load_processed_ids (log_path st)))
  /\ (let st := main countries states locations regions_map ioc_index geocode_fn fmt_conf
                  download ocr_of a log0 tty0 image_items in
      load_processed_ids log0 ⊆ load_processed_ids (log_path st)
      /\ forall id, id ∈ load_processed_ids (log_path st) ->
                    id ∈ load_processed_ids log0 \/ id ∈ List.map fst image_items).
Proof.
  split.
  - intros processed st file_id rel_path. apply main_step_frontier.
  - unfold main.
    set (done := if resume a then load_processed_ids log0 else ∅).
    destruct (final_flush_same
                (main_loop countries states locations regions_map ioc_index geocode_fn
                   fmt_conf download ocr_of a done (RunState [] [] log0 0 0 0 tty0)
                   image_items)) as (-> & _).
    apply (main_loop_frontier countries states locations regions_map ioc_index geocode_fn
             fmt_conf download ocr_of a done image_items (RunState [] [] log0 0 0 0 tty0)).
Qed.

(** ** The review gate *)

Lemma prompt_yes_no_accepted (msg : string) (answer : string) (more : list string) :
  accepts answer = true ->
  prompt_yes_no msg true (answer :: more) = (Ok true, more).
Proof.
  unfold accepts, declines, prompt_yes_no, bind, input, ret, nonempty. intros H.
  apply negb_true_iff in H.
  destruct (Str.is_empty (Str.lower (Str.strip answer))); [reflexivity|].
  simpl in H. apply negb_false_iff in H. by rewrite H.
Qed.

Lemma input_eof_tail {A : Type} (k : string -> io A) :
  bind input k [] = (Raise (Exn "EOFError" "EOF when reading a line"), []).
Proof. reflexivity. Qed.

(** X8: in a review the operator's twelve answers are read in the order
    COUNTRY, STATE, LOCATION, RECORDED_DATE, SCALE, REGION_CODE,
    LOCATION_SHORT, LATITUDE, LONGITUDE, MICROFILM_NAME, IMAGES, COMMENTS;
    a blank answer keeps the field, any other answer replaces it by the
    trimmed input, unchecked; the file name and the record and event
    fields are never touched; on a yes the row is returned and exactly
    thirteen lines have been read. A field cannot be blanked by the
    review: it is empty afterwards only if it was empty before. *)
Theorem review_keeps_or_overrides (f : fields) (row : Row)
    (a_country a_state a_location a_date a_scale a_region a_short a_lat a_lon a_microfilm
     a_images a_comments answer : string) (more : list string) :
  accepts answer = true ->
  review f row
    ([a_country; a_state; a_location; a_date; a_scale; a_region; a_short; a_lat; a_lon;
      a_microfilm; a_images; a_comments] ++ answer :: more)
  = (Ok (mkRow (FILE_NAME row)
           (reviewed (COUNTRY row) a_country)
           (reviewed (STATE row) a_state)
           (reviewed (LOCATION row) a_location)
           (reviewed (LOCATION_SHORT row) a_short)
           (reviewed (REGION_CODE row) a_region)
           (START_RECORD row) (END_RECORD row) (TSEVENT_ID row) (TSRUNUP_ID row)
           (reviewed (RECORDED_DATE row) a_date)
           (reviewed (LATITUDE row) a_lat)
           (reviewed (LONGITUDE row) a_lon)
           (reviewed (IMAGES row) a_images)
           (reviewed (SCALE row) a_scale)
           (reviewed (MICROFILM_NAME row) a_microfilm)
           (reviewed (COMMENTS row) a_comments)),
     more)
  /\ (forall current a, reviewed current a = EmptyString -> current = EmptyString).
Proof.
  intros Hyes. split.
  - unfold review. cbn [app].
    repeat (unfold bind at 1; rewrite prompt_field_reads).
    unfold bind at 1. rewrite (prompt_yes_no_accepted _ _ _ Hyes). reflexivity.
  - intros current a. unfold reviewed.
    destruct (Str.is_empty (Str.strip a)) eqn:E; [auto|].
    intros H. apply is_empty_false in E. contradiction.
Qed.

Lemma review_keeps_or_overrides_witness :
  accepts " YES " = true
  /\ review demo_fields demo_row (demo_answers ++ " YES " :: ["next"])
     = (Ok (mkRow "roll1/a.png" "Japan" EmptyString EmptyString EmptyString EmptyString
              EmptyString EmptyString EmptyString EmptyString EmptyString EmptyString
              EmptyString "1" EmptyString "UNKNOWN" "avg_conf=0.0"),
        ["next"]).
Proof.
  split; [reflexivity|].
  apply (proj1 (review_keeps_or_overrides demo_fields demo_row " Japan " EmptyString
                  EmptyString EmptyString EmptyString EmptyString EmptyString EmptyString
                  EmptyString EmptyString EmptyString EmptyString " YES " ["next"] eq_refl)).
Defined.

(** X9: when the operator's input ends before the thirteenth line, the
    review raises EOFError with all the input read; in the loop of [main]
    this is an error of the item like any other. *)
Theorem review_end_of_input (f : fields) (row : Row) (typed : list string) :
  length typed < 13 ->
  review f row typed = (Raise (Exn "EOFError" "EOF when reading a line"), []).
Proof.
  intros Hlen. unfold review.
  do 12 (destruct typed as [|? typed];
         [reflexivity | unfold bind at 1; rewrite prompt_field_reads]).
  destruct typed as [|? typed]; [reflexivity|]. simpl in Hlen. lia.
Qed.

Lemma review_end_of_input_witness :
  length ["Japan"; "Honshu"] < 13
  /\ review demo_fields demo_row ["Japan"; "Honshu"]
     = (Raise (Exn "EOFError" "EOF when reading a line"), []).
Proof.
  assert (H : length ["Japan"; "Honshu"] < 13) by (simpl; lia).
  split; [exact H|]. exact (review_end_of_input demo_fields demo_row ["Japan"; "Honshu"] H).
Defined.

(** ** The scale *)

Lemma scale_pattern_den (cur : cursor) (u : string) (c : cursor) (caps : captures) :
  matches SCALE_PATTERN cur [] u c caps ->
  exists den,
    group "den" caps = Some den
    /\ 1 <= String.length den <= 4 /\ all_of is_digit den = true.
Proof.
  intros H. cbv beta iota delta [SCALE_PATTERN seqs lit] in H.
  inversion H as [| |? ? ? ? ? ? ? ? ? ? Hopt H1| | | | | | | | |]; subst; clear H Hopt.
  inversion H1 as [| |? ? ? ? ? ? ? ? ? ? H1a H2| | | | | | | | |]; subst; clear H1 H1a.
  inversion H2 as [| |? ? ? ? ? ? ? ? ? ? H2a H3| | | | | | | | |]; subst; clear H2 H2a.
  inversion H3 as [| |? ? ? ? ? ? ? ? ? ? H3a H4| | | | | | | | |]; subst; clear H3 H3a.
  inversion H4 as [| |? ? ? ? ? ? ? ? ? ? H4a H5| | | | | | | | |]; subst; clear H4 H4a.
  inversion H5 as [| | | | | |? ? ? ? ? ? ? Hden| | | | |]; subst; clear H5.
  unfold_pattern Hden.
  invert_matches; eexists; (split; [reflexivity|]); simpl;
    repeat match goal with H : is_digit _ = true |- _ => rewrite H; clear H end;
    (split; [lia | reflexivity]).
Qed.

(** X10: the scale parser returns the empty string or 1, a colon and the
    first one to four digits of the denominator it found: a denominator of
    five digits is cut to its first four. *)
Theorem parse_scale_shape :
  (forall text, parse_scale text = EmptyString \/ scale_shape (parse_scale text))
  /\ parse_scale "SCALE 1/500" = "1:500"
  /\ parse_scale "scale = 1 : 12345" = "1:1234".
Proof.
  split; [|vm_compute; auto].
  intros text. unfold parse_scale, SCALE_PATTERNS. cbn [scale_from].
  destruct (search SCALE_PATTERN text) as [m|] eqn:E; [right|left; reflexivity].
  apply search_sound in E as (b & _ & _ & Hm).
  apply scale_pattern_den in Hm as (den & Hg & Hlen & Hall).
  unfold group_or_empty. rewrite Hg. exists den. auto.
Qed.

(** ** The triplet parser and the fields of a row *)

Lemma trimmed_strip (s : string) : trimmed (Str.strip s).
Proof. apply strip_idem. Qed.

Lemma trimmed_empty : trimmed EmptyString.
Proof. reflexivity. Qed.

Lemma strategy_a_trimmed (lines : list string) (t : string * string * string) :
  strategy_a lines = Some t -> trimmed3 t.
Proof.
  induction lines as [|line lines IH]; simpl; [discriminate|].
  destruct (re_match UPPER_TRIPLE_SPLIT (Str.strip line)); [|exact IH].
  intros H. injection H as <-. unfold triple_of_match, trimmed3. simpl.
  auto using trimmed_strip.
Qed.

Lemma strategy_b_trimmed (lines : list string) (t : string * string * string) :
  strategy_b lines = Some t -> trimmed3 t.
Proof.
  induction lines as [|line lines IH]; simpl; [discriminate|].
  destruct (Re.split PART_SEP (Str.strip line)) as [|p0 [|p1 [|p2 ps]]]; try exact IH.
  destruct (_looks_like_text (Str.strip p0) && _looks_like_text (Str.strip p1)
            && _looks_like_text (Str.strip p2)); [|exact IH].
  intros H. injection H as <-. unfold trimmed3. simpl. auto using trimmed_strip.
Qed.

Lemma label_value_of_trimmed (r : regex) (blob : string) : trimmed (label_value_of r blob).
Proof.
  unfold label_value_of. destruct (search r blob); [apply trimmed_strip | apply trimmed_empty].
Qed.

Lemma parse_trimmed (lines : list string) : trimmed3 (parse_country_state_location lines).
Proof.
  unfold parse_country_state_location.
  destruct (strategy_a (firstn 20 lines)) as [t|] eqn:Ea; [by eapply strategy_a_trimmed|].
  destruct (strategy_b (firstn 30 lines)) as [t|] eqn:Eb; [by eapply strategy_b_trimmed|].
  unfold strategy_c, trimmed3. simpl. auto using label_value_of_trimmed.
Qed.

(** X11: the triplet parser never looks past the 80th line (Strategy A
    not past the 20th, Strategy B not past the 30th), and each part of the
    triplet it returns is trimmed; without any line the triplet is empty. *)
Theorem parse_country_state_location_reach (lines : list string) :
  parse_country_state_location lines = parse_country_state_location (firstn 80 lines)
  /\ trimmed3 (parse_country_state_location lines)
  /\ parse_country_state_location [] = (EmptyString, EmptyString, EmptyString).
Proof.
  split_and!.
  - unfold parse_country_state_location.
    rewrite !firstn_firstn. reflexivity.
  - apply parse_trimmed.
  - reflexivity.
Qed.

Lemma validate_trimmed_candidate (value : string) (allow : gset string) :
  trimmed value ->
  validate_against_allow_list value allow
  = if bool_decide (Str.upper value ∈ allow) && nonempty value
    then (Str.upper value, false) else (value, true).
Proof.
  unfold trimmed. intros Ht.
  destruct (Str.is_empty value) eqn:E.
  - rewrite validate_blank by (by rewrite Ht).
    apply is_empty_true in E. subst value. unfold nonempty. simpl.
    by rewrite andb_false_r.
  - rewrite validate_not_blank by (by rewrite Ht).
    unfold _upper, nonempty. rewrite Ht, E, andb_true_r.
    case_bool_decide; reflexivity.
Qed.

(** X12: inside [process_one_image] the candidates come trimmed from the
    parser, so a field that is flagged for review carries the parser's
    candidate exactly as parsed, and a field that is not flagged carries
    its upper-cased form, which is in the vocabulary. *)
Theorem flagged_field_is_the_candidate
    (countries states locations : gset string) (regions_map : gmap string string)
    (ioc_index : gmap (string * string) string) (ocr_text : string) :
  let f := resolve_fields countries states locations regions_map ioc_index ocr_text in
  (if country_flag f then country f = country_ocr f
   else country f = Str.upper (country_ocr f) /\ country f ∈ countries)
  /\ (if state_flag f then state f = state_ocr f
      else state f = Str.upper (state_ocr f) /\ state f ∈ states)
  /\ (if location_flag f then location f = location_ocr f
      else location f = Str.upper (location_ocr f) /\ location f ∈ locations).
Proof.
  unfold resolve_fields.
  pose proof (parse_trimmed (nonblank_lines (sanitize_text ocr_text))) as Ht.
  destruct (parse_country_state_location _) as [[c_ocr s_ocr] l_ocr].
  destruct Ht as (Hc & Hs & Hl). simpl in Hc, Hs, Hl.
  rewrite (validate_trimmed_candidate c_ocr countries Hc).
  rewrite (validate_trimmed_candidate s_ocr states Hs).
  rewrite (validate_trimmed_candidate l_ocr locations Hl).
  destruct (bool_decide _ && nonempty c_ocr) eqn:E1;
    destruct (bool_decide _ && nonempty s_ocr) eqn:E2;
    destruct (bool_decide _ && nonempty l_ocr) eqn:E3;
    destruct (parse_region_code_strict _ regions_map) as [rc rf];
    destruct (resolve_location_short_strict _ _ ioc_index) as [ls lsf]; simpl;
    repeat match goal with
      | H : bool_decide _ && _ = true |- _ =>
          apply andb_true_iff in H as [H _]; apply bool_decide_eq_true in H
      end;
    auto.
Qed.

Lemma validate_trimmed (value : string) (allow : gset string) :
  trimmed (fst (validate_against_allow_list value allow)).
Proof.
  unfold trimmed.
  destruct (Str.is_empty (Str.strip value)) eqn:E.
  - by rewrite validate_blank.
  - rewrite validate_not_blank by exact E.
    case_bool_decide; simpl.
    + unfold _upper. by rewrite strip_upper, strip_idem.
    + apply strip_idem.
Qed.

Lemma parse_region_code_strict_key (ocr_text : string) (regions_map : gmap string string) :
  fst (parse_region_code_strict ocr_text regions_map) = EmptyString
  \/ is_Some (regions_map !! fst (parse_region_code_strict ocr_text regions_map)).
Proof.
  unfold parse_region_code_strict.
  destruct (Str.is_empty ocr_text); [by left|].
  destruct (region_hit (search REGION_BRACKET ocr_text) regions_map) eqn:H1.
  - right. destruct (search REGION_BRACKET ocr_text); [|discriminate].
    simpl in *. by apply bool_decide_eq_true in H1.
  - destruct (region_hit (search REGION_WORD ocr_text) regions_map) eqn:H2; [|by left].
    right. destruct (search REGION_WORD ocr_text); [|discriminate].
    simpl in *. by apply bool_decide_eq_true in H2.
Qed.

Lemma normalize_date_canonical (text : string) :
  normalize_date_to_ymd text = EmptyString \/ canonical_ymd (normalize_date_to_ymd text).
Proof.
  destruct (normalize_date_cases text)
    as [[_ H]|[(_ & _ & H)|[(_ & _ & _ & H)|(_ & _ & _ & H)]]]; auto.
Qed.

Lemma parse_scale_cases (text : string) :
  parse_scale text = EmptyString \/ scale_shape (parse_scale text).
Proof.
  unfold parse_scale, SCALE_PATTERNS. cbn [scale_from].
  destruct (search SCALE_PATTERN text) as [m|] eqn:E; [right|left; reflexivity].
  apply search_sound in E as (b & _ & _ & Hm).
  apply scale_pattern_den in Hm as (den & Hg & Hlen & Hall).
  unfold group_or_empty. rewrite Hg. exists den. auto.
Qed.

(** X13: without review, [process_one_image] reads nothing from the
    terminal and, once the image is read, cannot fail; the row it returns
    has the path as file name, 1 as image count, empty record and event
    fields, a trimmed country, state and location, and each strict field
    is empty or valid: the region code a key of the Region Map, the date
    canonical, the scale a 1:N ratio, the station code of the right shape
    and the entry of the Station Index for the row's country and location.
    When the image cannot be read the exception is passed on. *)
Theorem unreviewed_row_is_valid
    (countries states locations : gset string) (regions_map : gmap string string)
    (ioc_index : gmap (string * string) string)
    (geocode_fn : option (string -> option (string * string))) (fmt_conf : Q -> string)
    (renderings : list (string * Q)) (e : exn) (drive_rel_path microfilm_name : string)
    (microfilm_from_folder : bool) (psm oem : Z) (typed : list string) :
  (exists row,
      process_one_image countries states locations regions_map ioc_index geocode_fn fmt_conf
        (Ok renderings) drive_rel_path microfilm_name microfilm_from_folder false psm oem typed
      = (Ok row, typed)
      /\ row_ok regions_map ioc_index drive_rel_path row)
  /\ process_one_image countries states locations regions_map ioc_index geocode_fn fmt_conf
       (Raise e) drive_rel_path microfilm_name microfilm_from_folder false psm oem typed
     = (Raise e, typed).
Proof.
  split; [|reflexivity].
  unfold process_one_image.
  destruct (geocode_latlon _ _ _ geocode_fn) as [lat lon].
  eexists. split; [reflexivity|].
  set (text := best_text (best_ocr_from_variants renderings)).
  unfold resolve_fields.
  destruct (parse_country_state_location _) as [[c_ocr s_ocr] l_ocr].
  pose proof (validate_trimmed c_ocr countries) as Hc.
  pose proof (validate_trimmed s_ocr states) as Hs.
  pose proof (validate_trimmed l_ocr locations) as Hl.
  destruct (validate_against_allow_list c_ocr countries) as [c cf].
  destruct (validate_against_allow_list s_ocr states) as [s sf].
  destruct (validate_against_allow_list l_ocr locations) as [l lf].
  pose proof (parse_region_code_strict_key (sanitize_text text) regions_map) as Hr.
  destruct (parse_region_code_strict _ regions_map) as [rc rf].
  pose proof (resolve_location_short_strict_nonempty c l ioc_index) as Hls.
  destruct (resolve_location_short_strict c l ioc_index) as [ls lsf].
  simpl in *.
  constructor; simpl; auto using normalize_date_canonical, parse_scale_cases.
  destruct (Str.is_empty ls) eqn:E.
  - left. by apply is_empty_true.
  - right. apply is_empty_false in E. destruct (Hls E) as (_ & _ & _ & Hidx & Hshape). auto.
Qed.

(** ** The microfilm name *)

Lemma split_aux_no_sep (sep : ascii) (s : string) : forall cur,
  all_of (neg (is_char sep)) s = true ->
  Str.split_aux sep cur s = [cur +:+ s].
Proof.
  induction s as [|c s IH]; intros cur Hall; simpl.
  - by rewrite append_nil_r.
  - simpl in Hall. apply andb_true_iff in Hall as [Hc Hall].
    unfold neg, is_char in Hc. apply negb_true_iff in Hc. rewrite Hc.
    rewrite IH by exact Hall. by rewrite append_assoc.
Qed.

Lemma split_aux_first (sep : ascii) (folder rest0 : string) : forall cur,
  all_of (neg (is_char sep)) folder = true ->
  Str.split_aux sep cur (folder +:+ String sep rest0)
  = (cur +:+ folder) :: Str.split_aux sep EmptyString rest0.
Proof.
  induction folder as [|c s IH]; intros cur Hall; simpl.
  - rewrite Ascii.eqb_refl. by rewrite append_nil_r.
  - simpl in Hall. apply andb_true_iff in Hall as [Hc Hall].
    unfold neg, is_char in Hc. apply negb_true_iff in Hc. rewrite Hc.
    rewrite IH by exact Hall. by rewrite append_assoc.
Qed.

Lemma split_aux_nonempty (sep : ascii) (s : string) : forall cur,
  Str.split_aux sep cur s <> [].
Proof.
  induction s as [|c s IH]; intros cur; simpl; [discriminate|].
  destruct (Ascii.eqb sep c); [discriminate | apply IH].
Qed.

(** X14: without [--microfilm-name-from-folder] the microfilm name of a
    row is the trimmed [--microfilm-name] when that is not blank and UNKNOWN
    when it is, and so never empty. With the flag the default is the trimmed
    [--microfilm-name], blank or not, and the microfilm name is the trimmed
    name of the top folder of the path, or the default when the path has no
    folder or the folder's name is blank. *)
Theorem microfilm_name_rule (a : args) (drive_rel_path : string) :
  (microfilm_name_from_folder a = false ->
   microfilm_of drive_rel_path (default_microfilm_of a) (microfilm_name_from_folder a)
   = default_microfilm_of a
   /\ default_microfilm_of a
      = (if Str.is_empty (Str.strip (microfilm_name a)) then "UNKNOWN"
         else Str.strip (microfilm_name a))
   /\ default_microfilm_of a <> EmptyString
   /\ (Str.strip (microfilm_name a) = EmptyString -> default_microfilm_of a = "UNKNOWN")
   /\ (Str.strip (microfilm_name a) <> EmptyString ->
       default_microfilm_of a = Str.strip (microfilm_name a)))
  /\ (microfilm_name_from_folder a = true ->
      default_microfilm_of a = Str.strip (microfilm_name a))
  /\ (forall folder rest0 d,
        drive_rel_path = folder +:+ "/" +:+ rest0 ->
        all_of (neg (is_char "/")) folder = true ->
        microfilm_of drive_rel_path d true
        = if Str.is_empty (Str.strip folder) then d else Str.strip folder)
  /\ (forall d,
        all_of (neg (is_char "/")) drive_rel_path = true ->
        microfilm_of drive_rel_path d true = d).
Proof.
  split_and!.
  - intros Hff. unfold default_microfilm_of, microfilm_of. rewrite Hff. simpl.
    rewrite andb_true_r. split; [reflexivity|]. split; [reflexivity|].
    destruct (Str.is_empty (Str.strip (microfilm_name a))) eqn:E.
    + split; [discriminate|]. split; [reflexivity|].
      apply is_empty_true in E. contradiction.
    + apply is_empty_false in E. split; [exact E|]. split; [contradiction | reflexivity].
  - intros Hff. unfold default_microfilm_of. rewrite Hff. simpl.
    rewrite andb_false_r. reflexivity.
  - intros folder rest0 d -> Hall. unfold microfilm_of, Str.split.
    change ("/" +:+ rest0) with (String "/" rest0).
    rewrite split_aux_first by exact Hall. simpl.
    pose proof (split_aux_nonempty "/" rest0 EmptyString) as Hne.
    destruct (Str.split_aux "/" EmptyString rest0); [contradiction | reflexivity].
  - intros d Hall. unfold microfilm_of, Str.split.
    rewrite split_aux_no_sep by exact Hall. reflexivity.
Qed.

Lemma microfilm_name_rule_witness :
  microfilm_of "roll 7/sheet1.png" (default_microfilm_of (demo_args false false)) false
  = "UNKNOWN"
  /\ microfilm_of " roll 7 /sheet1.png" "UNKNOWN" true = "roll 7"
  /\ microfilm_of "sheet1.png" "UNKNOWN" true = "UNKNOWN"
  /\ default_microfilm_of (Args false false 6 3 " Roll 12 " false) = "Roll 12".
Proof.
  split_and!; cycle 3.
  - apply (proj2 (proj2 (proj2 (proj2 (proj1 (microfilm_name_rule
                                                (Args false false 6 3 " Roll 12 " false)
                                                "sheet1.png") eq_refl))))).
    vm_compute. discriminate.
  - apply (proj1 (proj1 (microfilm_name_rule (demo_args false false) "roll 7/sheet1.png")
                    eq_refl)).
  - apply (proj1 (proj2 (proj2 (microfilm_name_rule (demo_args false false)
                                  " roll 7 /sheet1.png")))
             " roll 7 " "sheet1.png" "UNKNOWN"); reflexivity.
  - apply (proj2 (proj2 (proj2 (microfilm_name_rule (demo_args false false) "sheet1.png")))
             "UNKNOWN"); reflexivity.
Defined.

(** ** Geocoding *)

Lemma first_located_none (f : string -> option (string * string)) (queries : list string) :
  (forall q, In q queries -> f q = None) ->
  first_located f queries = (EmptyString, EmptyString).
Proof.
  induction queries as [|q queries IH]; intros H; simpl; [reflexivity|].
  rewrite (H q) by (by left). apply IH. intros q' Hq'. apply H. by right.
Qed.

(** X15: geocoding gives empty coordinates when there is no geocoder, when
    the country is empty (a location or state alone is never looked up),
    and when the geocoder locates none of the queries; with country, state
    and location at hand the query of all three is asked first and its
    answer, if any, is the result. *)
Theorem geocode_latlon_rule (country state location : string)
    (f : string -> option (string * string)) :
  geocode_latlon country state location None = (EmptyString, EmptyString)
  /\ (country = EmptyString ->
      geocode_latlon country state location (Some f) = (EmptyString, EmptyString))
  /\ ((forall q, f q = None) ->
      geocode_latlon country state location (Some f) = (EmptyString, EmptyString))
  /\ (forall ll,
        country <> EmptyString -> state <> EmptyString -> location <> EmptyString ->
        f (location +:+ ", " +:+ state +:+ ", " +:+ country) = Some ll ->
        geocode_latlon country state location (Some f) = ll).
Proof.
  split_and!.
  - reflexivity.
  - intros ->. unfold geocode_latlon, geocode_queries, nonempty. simpl.
    rewrite !andb_false_r. reflexivity.
  - intros Hnone. unfold geocode_latlon. apply first_located_none. auto.
  - intros ll Hc Hs Hl Hf. unfold geocode_latlon, geocode_queries.
    apply nonempty_true in Hc, Hs, Hl. rewrite Hc, Hs, Hl.
    cbn [andb app first_located]. by rewrite Hf.
Qed.

Lemma geocode_latlon_rule_witness :
  geocode_latlon EmptyString "HONSHU" "TOKYO BAY" (Some (fun q => Some ("35.5", "139.8")))
  = (EmptyString, EmptyString)
  /\ geocode_latlon "JAPAN" "HONSHU" "TOKYO BAY"
       (Some (fun q => if String.eqb q "TOKYO BAY, HONSHU, JAPAN"
                       then Some ("35.5", "139.8") else Some ("36.0", "138.0")))
     = ("35.5", "139.8").
Proof.
  split.
  - apply (proj1 (proj2 (geocode_latlon_rule EmptyString "HONSHU" "TOKYO BAY"
                           (fun q => Some ("35.5", "139.8")))) eq_refl).
  - apply (proj2 (proj2 (proj2 (geocode_latlon_rule "JAPAN" "HONSHU" "TOKYO BAY"
             (fun q => if String.eqb q "TOKYO BAY, HONSHU, JAPAN"
                       then Some ("35.5", "139.8") else Some ("36.0", "138.0")))))
             ("35.5", "139.8")); try discriminate; reflexivity.
Defined.

(** ** Bounds of the anchor score *)

Lemma filter_length_bound {A : Type} (p : A -> bool) (l : list A) :
  length (List.filter p l) <= length l.
Proof. induction l as [|x l IH]; simpl; [lia|]. destruct (p x); simpl; lia. Qed.

Lemma anchor_score_bounds (text : string) : (0 <= _anchor_score text <= 8)%Z.
Proof.
  split; [apply anchor_score_nonneg|].
  destruct (Str.is_empty text) eqn:E.
  - unfold _anchor_score. rewrite E. lia.
  - apply is_empty_false in E. rewrite (anchor_score_formula _ E).
    pose proof (filter_length_bound (fun pat => found (search pat (Str.upper text)))
                  OCR_ANCHORS) as Hle.
    unfold anchors_found. change (length OCR_ANCHORS) with 5 in Hle.
    destruct (nonempty (normalize_date_to_ymd _)), (nonempty (parse_scale _)); lia.
Qed.

(** X16: the anchor score of a text lies between 0 and 8 and is 0 for the
    empty text. Without any rendering the scorer returns its initial
    values: empty text, confidence -1, no rendering, anchor score -1; with
    at least one it returns one of the renderings, with an anchor score
    from 0 to 8. *)
Theorem best_ocr_from_variants_bounds (ocr : list (string * Q)) :
  (forall text, (0 <= _anchor_score text <= 8)%Z)
  /\ _anchor_score EmptyString = 0%Z
  /\ best_ocr_from_variants [] = Best EmptyString (-1) None (-1)
  /\ (ocr <> [] ->
      (0 <= best_anchor (best_ocr_from_variants ocr) <= 8)%Z
      /\ exists i,
           best_variant (best_ocr_from_variants ocr) = Some i /\ i < length ocr
           /\ ocr !! i = Some (best_text (best_ocr_from_variants ocr),
                               best_conf (best_ocr_from_variants ocr))).
Proof.
  split_and!; [exact anchor_score_bounds | reflexivity | reflexivity |].
  intros Hne. unfold best_ocr_from_variants.
  destruct (variants_loop_first_best ocr [] (Best EmptyString (-1) None (-1)))
    as [[Hnil _]|(i & Hi & Hnth & Hanc & _)]; [left; auto | simpl in Hnil; contradiction |].
  simpl in *. split.
  - rewrite Hanc. apply anchor_score_bounds.
  - exists i. split_and!; [exact Hi | by eapply lookup_lt_Some | exact Hnth].
Qed.

Lemma best_ocr_from_variants_bounds_witness :
  (0 <= best_anchor (best_ocr_from_variants [("COUNTRY: JAPAN 2021-03-11", 90%Q)]) <= 8)%Z
  /\ exists i,
       best_variant (best_ocr_from_variants [("COUNTRY: JAPAN 2021-03-11", 90%Q)]) = Some i
       /\ i < length [("COUNTRY: JAPAN 2021-03-11", 90%Q)]
       /\ [("COUNTRY: JAPAN 2021-03-11", 90%Q)] !! i
          = Some (best_text (best_ocr_from_variants [("COUNTRY: JAPAN 2021-03-11", 90%Q)]),
                  best_conf (best_ocr_from_variants [("COUNTRY: JAPAN 2021-03-11", 90%Q)])).
Proof.
  apply (proj2 (proj2 (proj2 (best_ocr_from_variants_bounds
                                [("COUNTRY: JAPAN 2021-03-11", 90%Q)])))).
  discriminate.
Defined.

(** ** The shape of a station code *)

Lemma ioc_code_re_complete (code : string) :
  ioc_code_shape code -> found (re_match IOC_CODE_RE code) = true.
Proof.
  intros (body & tail & -> & [Hlo Hhi] & Hall & Htail).
  destruct body as [|c1 [|c2 [|c3 body]]]; simpl in Hlo; try lia.
  simpl in Hall.
  apply andb_true_iff in Hall as [H1 Hall]. apply andb_true_iff in Hall as [H2 Hall].
  apply andb_true_iff in Hall as [H3 Hall].
  unfold re_match, match_at.
  cbn [rmatch IOC_CODE_RE seqs between times upto opt Nat.sub prev rest String.append].
  rewrite H1, H2, H3.
  destruct body as [|c4 body].
  { destruct Htail as [-> | ->]; reflexivity. }
  simpl in Hall. apply andb_true_iff in Hall as [H4 Hall].
  cbn [String.append]. rewrite H4.
  destruct body as [|c5 body].
  { destruct Htail as [-> | ->]; reflexivity. }
  simpl in Hall. apply andb_true_iff in Hall as [H5 Hall].
  cbn [String.append]. rewrite H5.
  destruct body as [|c6 body].
  { destruct Htail as [-> | ->]; reflexivity. }
  simpl in Hall. apply andb_true_iff in Hall as [H6 Hall].
  cbn [String.append]. rewrite H6.
  destruct body as [|c7 body]; [|simpl in Hhi; lia].
  destruct Htail as [-> | ->]; reflexivity.
Qed.

(** X17: the station code pattern accepts exactly the texts made of three
    to six letters or digits, with at most one line feed after them (the
    [$] of the pattern also holds before a final line feed). *)
Theorem ioc_code_re_accepts (code : string) :
  found (re_match IOC_CODE_RE code) = true <-> ioc_code_shape code.
Proof. split; [apply ioc_code_re_shape | apply ioc_code_re_complete]. Qed.

Lemma ioc_shape_nonempty (code : string) : ioc_code_shape code -> nonempty code = true.
Proof.
  intros (body & tail & -> & [Hlo _] & _). destruct body; [simpl in Hlo; lia | reflexivity].
Qed.

(** X18: for a country and a location that are not empty, station code
    resolution returns the entry of the Station Index for their
    upper-cased trimmed forms when that entry has the shape of a station
    code, with the flag cleared; it returns the empty string with the flag
    set when there is no entry or the entry has another shape, and
    whenever the country or the location is empty. *)
Theorem resolve_location_short_strict_rule (country location : string)
    (ioc_index : gmap (string * string) string) :
  (forall code,
      country <> EmptyString -> location <> EmptyString ->
      ioc_index !! (_upper country, _upper location) = Some code ->
      resolve_location_short_strict country location ioc_index
      = if found (re_match IOC_CODE_RE code) then (code, false) else (EmptyString, true))
  /\ (ioc_index !! (_upper country, _upper location) = None ->
      resolve_location_short_strict country location ioc_index = (EmptyString, true))
  /\ (country = EmptyString \/ location = EmptyString ->
      resolve_location_short_strict country location ioc_index = (EmptyString, true)).
Proof.
  unfold resolve_location_short_strict. split_and!.
  - intros code Hc Hl Hidx.
    assert (Hne : bool_decide (ioc_index = ∅) = false).
    { apply bool_decide_eq_false. intros ->. by rewrite lookup_empty in Hidx. }
    apply is_empty_false in Hc, Hl. rewrite Hne, Hc, Hl, Hidx. simpl.
    destruct (found (re_match IOC_CODE_RE code)) eqn:E.
    + rewrite (ioc_shape_nonempty code) by (by apply ioc_code_re_shape). reflexivity.
    + by rewrite andb_false_r.
  - intros Hidx. rewrite Hidx. simpl.
    destruct (bool_decide _ || Str.is_empty country || Str.is_empty location); reflexivity.
  - intros [-> | ->]; simpl; by rewrite ?orb_true_r.
Qed.

Lemma resolve_location_short_strict_rule_witness :
  resolve_location_short_strict " japan " "Tokyo" {[ ("JAPAN", "TOKYO") := "toky" ]}
  = ("toky", false)
  /\ resolve_location_short_strict "JAPAN" "TOKYO" {[ ("JAPAN", "TOKYO") := "to" ]}
     = (EmptyString, true)
  /\ resolve_location_short_strict "JAPAN" "OSAKA" {[ ("JAPAN", "TOKYO") := "toky" ]}
     = (EmptyString, true)
  /\ resolve_location_short_strict EmptyString "TOKYO" {[ ("JAPAN", "TOKYO") := "toky" ]}
     = (EmptyString, true).
Proof.
  split_and!.
  - apply (proj1 (resolve_location_short_strict_rule " japan " "Tokyo"
                    {[ ("JAPAN", "TOKYO") := "toky" ]}) "toky");
      [discriminate | discriminate | reflexivity].
  - apply (proj1 (resolve_location_short_strict_rule "JAPAN" "TOKYO"
                    {[ ("JAPAN", "TOKYO") := "to" ]}) "to");
      [discriminate | discriminate | reflexivity].
  - apply (proj1 (proj2 (resolve_location_short_strict_rule "JAPAN" "OSAKA"
                           {[ ("JAPAN", "TOKYO") := "toky" ]}))).
    reflexivity.
  - apply (proj2 (proj2 (resolve_location_short_strict_rule EmptyString "TOKYO"
                           {[ ("JAPAN", "TOKYO") := "toky" ]}))).
    left. reflexivity.
Defined.

(** ** The region code in brackets *)

Lemma region_bracket_not_here (c : ascii) (s before : string) (pv : option ascii) :
  is_char "[" c = false ->
  match_at REGION_BRACKET before (Cursor pv (String c s)) = None.
Proof.
  intros H. unfold match_at. cbn [rmatch REGION_BRACKET seqs lit prev rest].
  by rewrite H.
Qed.

Lemma region_bracket_skip (pre rest0 : string) : forall (before : string) pv,
  all_of (neg (is_char "[")) pre = true ->
  search_from REGION_BRACKET before pv (pre +:+ rest0)
  = search_from REGION_BRACKET (before +:+ pre) (last_char pv pre) rest0.
Proof.
  induction pre as [|c pre IH]; intros before pv Hall; simpl.
  - by rewrite append_nil_r.
  - simpl in Hall. apply andb_true_iff in Hall as [Hc Hall].
    unfold neg in Hc. apply negb_true_iff in Hc.
    rewrite region_bracket_not_here by exact Hc.
    rewrite IH by exact Hall. by rewrite append_assoc.
Qed.

Lemma region_bracket_here (before post : string) (pv : option ascii) (d1 d2 : ascii) :
  is_digit d1 = true -> is_digit d2 = true ->
  match_at REGION_BRACKET before
    (Cursor pv (String "[" (String d1 (String d2 (String "]" post)))))
  = Some (Match before (String "[" (String d1 (String d2 "]")))
            [("1", String d1 (String d2 EmptyString))] (Cursor (Some "]"%char) post)).
Proof.
  intros H1 H2. unfold match_at.
  cbn [rmatch REGION_BRACKET seqs lit times prev rest].
  rewrite H1, H2. reflexivity.
Qed.

(** X19: a text whose first opening bracket starts a two-digit code in
    brackets resolves to that code, flag cleared, when the code is a key of
    the Region Map. With an empty Region Map nothing is ever accepted. Only
    the leftmost bracketed code is tried: when it is not a key, a later one
    that is a key is not taken. *)
Theorem region_code_in_brackets (pre post : string) (d1 d2 : ascii)
    (regions_map : gmap string string) :
  (all_of (neg (is_char "[")) pre = true ->
   is_digit d1 = true -> is_digit d2 = true ->
   is_Some (regions_map !! String d1 (String d2 EmptyString)) ->
   parse_region_code_strict
     (pre +:+ "[" +:+ String d1 (String d2 EmptyString) +:+ "]" +:+ post) regions_map
   = (String d1 (String d2 EmptyString), false))
  /\ (forall text, parse_region_code_strict text ∅ = (EmptyString, true))
  /\ parse_region_code_strict "[11] [22]" {[ "22" := "NORTH PACIFIC" ]} = (EmptyString, true).
Proof.
  split_and!.
  - intros Hpre H1 H2 Hkey. unfold parse_region_code_strict.
    destruct (Str.is_empty _) eqn:E.
    { apply is_empty_true in E. destruct pre; discriminate E. }
    assert (Hs : search REGION_BRACKET
                   (pre +:+ "[" +:+ String d1 (String d2 EmptyString) +:+ "]" +:+ post)
                 = Some (Match pre (String "[" (String d1 (String d2 "]")))
                           [("1", String d1 (String d2 EmptyString))]
                           (Cursor (Some "]"%char) post))).
    { unfold search. rewrite region_bracket_skip by exact Hpre.
      apply search_from_here. simpl. by apply region_bracket_here. }
    rewrite Hs. unfold region_hit, region_of, group_or_empty. simpl.
    by rewrite bool_decide_eq_true_2.
  - intros text. unfold parse_region_code_strict, region_hit.
    destruct (Str.is_empty text); [reflexivity|].
    destruct (search REGION_BRACKET text), (search REGION_WORD text);
      rewrite ?lookup_empty; simpl;
      rewrite ?bool_decide_eq_false_2 by (intros [? ?]; discriminate); reflexivity.
  - vm_compute. reflexivity.
Qed.

Lemma region_code_in_brackets_witness :
  parse_region_code_strict "Marigram sheet [22] REGION 07"
    {[ "22" := "NORTH PACIFIC"; "07" := "ATLANTIC" ]} = ("22", false).
Proof.
  apply (proj1 (region_code_in_brackets "Marigram sheet " " REGION 07" "2" "2"
                  {[ "22" := "NORTH PACIFIC"; "07" := "ATLANTIC" ]}));
    try reflexivity.
  eexists. reflexivity.
Defined.

(** ** Sanitizing *)

Lemma star_greedy_total {R : Type} (p : ascii -> bool) (s : string) :
  forall (pv : option ascii) (k : string -> cursor -> option R),
    (forall u c, k u c <> None) ->
    star_greedy p pv s k
    = k (take_while p s) (Cursor (last_char pv (take_while p s)) (drop_while p s)).
Proof.
  induction s as [|c s IH]; intros pv k Hk; simpl; [reflexivity|].
  destruct (p c); [|reflexivity].
  rewrite IH by (intros u c'; apply Hk). simpl.
  destruct (k _ _) eqn:E; [reflexivity|]. by apply Hk in E.
Qed.

Lemma match_at_blanks (before : string) (pv : option ascii) (s : string) :
  match_at BLANKS before (Cursor pv s)
  = match s with
    | String c s' =>
        if is_blank c
        then Some (Match before (String c (take_while is_blank s')) []
                     (Cursor (last_char (Some c) (take_while is_blank s'))
                        (drop_while is_blank s')))
        else None
    | EmptyString => None
    end.
Proof.
  unfold match_at, BLANKS, plus. cbn [rmatch rest prev].
  destruct s as [|c s']; [reflexivity|].
  fold is_blank. destruct (is_blank c); [|reflexivity].
  cbn [rmatch rest prev]. rewrite star_greedy_total by discriminate. reflexivity.
Qed.

Lemma sub_blanks_step (fuel : nat) (pv : option ascii) (s : string) :
  sub_from (S fuel) BLANKS " " pv s
  = match s with
    | EmptyString => EmptyString
    | String c s' =>
        if is_blank c
        then String " " (sub_from fuel BLANKS " "
                           (last_char (Some c) (take_while is_blank s'))
                           (drop_while is_blank s'))
        else String c (sub_from fuel BLANKS " " (Some c) s')
    end.
Proof.
  cbn [sub_from]. rewrite match_at_blanks.
  destruct s as [|c s']; [reflexivity|]. destruct (is_blank c); reflexivity.
Qed.

Lemma drop_while_length (p : ascii -> bool) (s : string) :
  String.length (drop_while p s) <= String.length s.
Proof. induction s as [|c s IH]; simpl; [lia|]. destruct (p c); simpl; lia. Qed.

Lemma drop_while_head (p : ascii -> bool) (s : string) :
  holds p (head_char (drop_while p s)) = false.
Proof.
  induction s as [|c s IH]; simpl; [reflexivity|].
  destruct (p c) eqn:E; [exact IH | simpl; exact E].
Qed.

(** The first character of the output is blank only if it is the one
    space that stands for a run of blanks at the start of the input. *)
Lemma sub_blanks_head (fuel : nat) (pv : option ascii) (s : string) :
  holds is_blank (head_char s) = false ->
  holds is_blank (head_char (sub_from fuel BLANKS " " pv s)) = false.
Proof.
  destruct fuel as [|fuel]; [simpl; auto|].
  rewrite sub_blanks_step. destruct s as [|c s']; [auto|]. simpl.
  intros H. rewrite H. simpl. exact H.
Qed.

Lemma sub_blanks_tidy (fuel : nat) : forall (pv : option ascii) (s : string),
  String.length s < fuel ->
  all_of (neg (is_char "009")) (sub_from fuel BLANKS " " pv s) = true
  /\ has_pair is_blank (sub_from fuel BLANKS " " pv s) = false.
Proof.
  induction fuel as [|fuel IH]; intros pv s Hlen; [lia|].
  rewrite sub_blanks_step. destruct s as [|c s']; [auto|]. simpl in Hlen.
  destruct (is_blank c) eqn:Hc.
  - pose proof (drop_while_length is_blank s') as Hd.
    destruct (IH (last_char (Some c) (take_while is_blank s')) (drop_while is_blank s'))
      as [H1 H2]; [lia|].
    cbn [all_of has_pair]. rewrite H1, H2.
    rewrite sub_blanks_head by apply drop_while_head.
    split; reflexivity.
  - destruct (IH (Some c) s') as [H1 H2]; [lia|].
    cbn [all_of has_pair]. rewrite H1, H2, Hc.
    split; [|reflexivity]. rewrite andb_true_r. unfold neg.
    unfold is_blank, either in Hc. apply orb_false_iff in Hc as [_ Hc]. by rewrite Hc.
Qed.

Lemma sub_blanks_keeps (q : ascii -> bool) (fuel : nat) :
  q " "%char = true ->
  forall (pv : option ascii) (s : string),
    all_of q s = true ->
    all_of q (sub_from fuel BLANKS " " pv s) = true.
Proof.
  intros Hq. induction fuel as [|fuel IH]; intros pv s Hall; [exact Hall|].
  rewrite sub_blanks_step. destruct s as [|c s']; [reflexivity|].
  simpl in Hall. apply andb_true_iff in Hall as [Hc Hall].
  destruct (is_blank c).
  - cbn [all_of]. rewrite Hq. simpl. apply IH.
    clear -Hall. induction s' as [|c' s' IH']; simpl; [reflexivity|].
    simpl in Hall. apply andb_true_iff in Hall as [Hc' Hall].
    destruct (is_blank c'); [by apply IH' | simpl; by rewrite Hc', Hall].
  - cbn [all_of]. rewrite Hc. simpl. by apply IH.
Qed.

Lemma replace_char_all (a b : ascii) (q : ascii -> bool) (s : string) :
  q b = true ->
  (forall c, Ascii.eqb a c = false -> q c = true) ->
  all_of q (Str.replace_char a b s) = true.
Proof.
  intros Hb Hq. unfold Str.replace_char.
  induction s as [|c s IH]; simpl; [reflexivity|].
  rewrite IH, andb_true_r. destruct (Ascii.eqb a c) eqn:E; [exact Hb | by apply Hq].
Qed.

Lemma replace_char_keeps (a b : ascii) (q : ascii -> bool) (s : string) :
  q b = true -> all_of q s = true -> all_of q (Str.replace_char a b s) = true.
Proof.
  intros Hb. unfold Str.replace_char.
  induction s as [|c s IH]; simpl; [reflexivity|].
  intros Hall. apply andb_true_iff in Hall as [Hc Hall].
  rewrite IH by exact Hall. rewrite andb_true_r. destruct (Ascii.eqb a c); assumption.
Qed.

Lemma replace_char_length (a b : ascii) (s : string) :
  String.length (Str.replace_char a b s) = String.length s.
Proof. unfold Str.replace_char. induction s; simpl; congruence. Qed.

(** X20: in a sanitized text there is no tab and no form feed, and no two
    spaces stand side by side: every run of spaces and tabs has become one
    space. A class of characters that holds the space and every character
    of the text still holds every character of the sanitized text. *)
Theorem sanitize_text_tidy (text : string) :
  all_of (neg (is_char "009")) (sanitize_text text) = true
  /\ all_of (neg (is_char "012")) (sanitize_text text) = true
  /\ has_pair is_blank (sanitize_text text) = false
  /\ (forall q, q " "%char = true -> all_of q text = true ->
                all_of q (sanitize_text text) = true).
Proof.
  unfold sanitize_text, Re.sub.
  destruct (sub_blanks_tidy (S (String.length (Str.replace_char "012" " " text))) None
              (Str.replace_char "012" " " text)) as [H1 H2]; [lia|].
  split_and!; [exact H1 | | exact H2 |].
  - apply sub_blanks_keeps; [reflexivity|].
    apply replace_char_all; [reflexivity|].
    intros c Hc. unfold neg, is_char. by rewrite Hc.
  - intros q Hq Hall. apply sub_blanks_keeps; [exact Hq|].
    by apply replace_char_keeps.
Qed.

(** ** Strategy A after sanitizing *)

Lemma all_of_app (q : ascii -> bool) (a b : string) :
  all_of q (a +:+ b) = all_of q a && all_of q b.
Proof. induction a as [|c a IH]; simpl; [reflexivity|]. by rewrite IH, andb_assoc. Qed.

Lemma has_pair_cons (p : ascii -> bool) (c : ascii) (s : string) :
  has_pair p s = true -> has_pair p (String c s) = true.
Proof. intros H. simpl. rewrite H. apply orb_true_r. Qed.

Lemma has_pair_mid (p : ascii -> bool) (c1 c2 : ascii) (a b : string) :
  p c1 = true -> p c2 = true ->
  has_pair p (a +:+ String c1 (String c2 b)) = true.
Proof.
  intros H1 H2. induction a as [|c a IH]; simpl.
  - by rewrite H1, H2.
  - rewrite IH. apply orb_true_r.
Qed.

Lemma has_pair_app_false (p : ascii -> bool) (a b : string) :
  has_pair p (a +:+ b) = false -> has_pair p a = false /\ has_pair p b = false.
Proof.
  induction a as [|c a IH]; simpl; [auto|].
  intros H. apply orb_false_iff in H as [H1 H2]. destruct (IH H2) as [Ha Hb].
  split; [|exact Hb]. rewrite Ha, orb_false_r.
  destruct (p c); [|reflexivity]. simpl in *.
  destruct a as [|c' a]; [reflexivity | exact H1].
Qed.

Lemma has_pair_within (r p q : ascii -> bool) (s : string) :
  all_of r s = true ->
  (forall c, r c = true -> p c = true -> q c = true) ->
  has_pair q s = false -> has_pair p s = false.
Proof.
  intros Hall Hpq. induction s as [|c s IH]; simpl; [auto|].
  simpl in Hall. apply andb_true_iff in Hall as [Hc Hall].
  intros H. apply orb_false_iff in H as [H1 H2]. rewrite (IH Hall H2), orb_false_r.
  destruct (p c) eqn:Ep; [|reflexivity]. rewrite (Hpq c Hc Ep) in H1. simpl in *.
  destruct s as [|c' s]; [reflexivity|]. simpl in *.
  apply andb_true_iff in Hall as [Hc' _].
  destruct (p c') eqn:Ep'; [|reflexivity]. by rewrite (Hpq c' Hc' Ep') in H1.
Qed.

Lemma lstrip_suffix (s : string) : exists a, s = a +:+ Str.lstrip s.
Proof.
  induction s as [|c s [a Ha]]; simpl; [by exists EmptyString|].
  destruct (is_space c); [|by exists EmptyString].
  exists (String c a). simpl. by rewrite <- Ha.
Qed.

Lemma rstrip_prefix (s : string) : exists b, s = Str.rstrip s +:+ b.
Proof.
  induction s as [|c s [b Hb]]; simpl; [by exists EmptyString|].
  destruct (is_space c && Str.is_empty (Str.rstrip s)).
  - by exists (String c s).
  - exists b. simpl. by rewrite <- Hb.
Qed.

Lemma strip_within (s : string) : exists a b, s = a +:+ Str.strip s +:+ b.
Proof.
  unfold Str.strip. destruct (lstrip_suffix s) as [a Ha].
  destruct (rstrip_prefix (Str.lstrip s)) as [b Hb].
  exists a, b. by rewrite <- Hb.
Qed.

Lemma strip_has_pair (p : ascii -> bool) (s : string) :
  has_pair p s = false -> has_pair p (Str.strip s) = false.
Proof.
  destruct (strip_within s) as (a & b & Hs). intros H. rewrite Hs in H.
  apply has_pair_app_false in H as [_ H]. by apply has_pair_app_false in H as [H _].
Qed.

Lemma strip_all_of (q : ascii -> bool) (s : string) :
  all_of q s = true -> all_of q (Str.strip s) = true.
Proof.
  destruct (strip_within s) as (a & b & Hs). intros H. rewrite Hs in H.
  rewrite !all_of_app in H. apply andb_true_iff in H as [_ H].
  by apply andb_true_iff in H as [H _].
Qed.

Lemma splitlines_plain (s : string) : forall cur,
  has_pair is_gap (cur +:+ s) = false ->
  all_of (neg is_linebreak) cur = true ->
  Forall plain_line (Str.splitlines_aux cur s).
Proof.
  induction s as [|c s IH]; intros cur Hpair Hcur; simpl.
  - rewrite append_nil_r in Hpair.
    destruct (Str.is_empty cur); constructor; [split; assumption | constructor].
  - destruct (has_pair_app_false _ _ _ Hpair) as [Hc_pair Hs_pair].
    simpl in Hs_pair. apply orb_false_iff in Hs_pair as [_ Hs_pair].
    destruct (is_linebreak c) eqn:Hlb.
    + assert (Hnext : Forall plain_line (Str.splitlines_aux EmptyString s))
        by (apply IH; [exact Hs_pair | reflexivity]).
      assert (Hhere : plain_line cur) by (split; assumption).
      destruct c as [[] [] [] [] [] [] [] []]; try (constructor; assumption).
      destruct s as [|c' s']; [constructor; assumption|].
      destruct c' as [[] [] [] [] [] [] [] []]; try (constructor; assumption).
      constructor; [exact Hhere|]. simpl in Hnext. by apply Forall_cons in Hnext as [_ Hnext].
    + apply IH.
      * rewrite append_assoc. exact Hpair.
      * rewrite all_of_app, Hcur. simpl. unfold neg. by rewrite Hlb.
Qed.

Lemma plain_line_no_space_pair (line : string) :
  plain_line line -> has_pair is_space (Str.strip line) = false.
Proof.
  intros [Hpair Hlb]. apply strip_has_pair.
  apply (has_pair_within (neg is_linebreak) is_space is_gap); [exact Hlb| |exact Hpair].
  intros c Hc Hs. unfold is_gap, neg in *. by rewrite Hs, Hc.
Qed.

Lemma upper_triple_split_needs_pair (line : string) (m : rmatch_result) :
  re_match UPPER_TRIPLE_SPLIT line = Some m -> has_pair is_space line = true.
Proof.
  unfold re_match. intros H. apply match_at_sound in H as [_ Hm].
  pose proof (matches_rest _ _ _ _ _ _ Hm) as Hrest. simpl in Hrest.
  unfold_pattern Hm.
  inversion Hm as [| |? ? ? ? ? ? ? ? ? ? Hbol H1| | | | | | | | |]; subst; clear Hm Hbol.
  inversion H1 as [| |? ? ? ? ? ? ? ? ? ? Hg1 H2| | | | | | | | |]; subst; clear H1 Hg1.
  inversion H2 as [| |? ? ? ? ? ? ? ? ? ? Hsp H3| | | | | | | | |]; subst; clear H2 H3.
  inversion Hsp as [| |? ? ? ? ? ? ? ? ? ? Htwo Hrun| | | | | | | | |]; subst; clear Hsp Hrun.
  invert_matches.
  match goal with H : _ = m_text m |- _ => rewrite <- H end.
  rewrite !append_assoc. simpl.
  match goal with
  | |- has_pair _ (?a +:+ ?b +:+ _) = true => rewrite <- (append_assoc a b)
  end.
  by apply has_pair_mid.
Qed.

Lemma sanitize_text_no_blank_pair (text : string) :
  all_of (neg (is_char "009")) (sanitize_text text) = true
  /\ has_pair is_blank (sanitize_text text) = false.
Proof.
  unfold sanitize_text, Re.sub. apply sub_blanks_tidy. lia.
Qed.

Lemma sanitize_text_keeps (q : ascii -> bool) (text : string) :
  q " "%char = true -> all_of q text = true -> all_of q (sanitize_text text) = true.
Proof.
  intros Hq Hall. unfold sanitize_text, Re.sub.
  apply sub_blanks_keeps; [exact Hq|]. by apply replace_char_keeps.
Qed.

(** X21: when the OCR text holds no unit separator (character 31),
    Strategy A finds nothing in the lines [process_one_image] gives to the
    parser: sanitizing has left no two whitespace characters side by side
    in any line, and the pattern of Strategy A needs two. The triplet then
    comes from Strategy B or, failing that, from Strategy C. *)
Theorem strategy_a_never_fires_after_sanitize (ocr_text : string) :
  all_of (neg (is_char "031")) ocr_text = true ->
  let lines := nonblank_lines (sanitize_text ocr_text) in
  strategy_a lines = None
  /\ strategy_a (firstn 20 lines) = None
  /\ parse_country_state_location lines
     = match strategy_b (firstn 30 lines) with
       | Some t => t
       | None => strategy_c (firstn 80 lines)
       end.
Proof.
  intros Hus lines.
  assert (Hplain : Forall (fun line => has_pair is_space (Str.strip line) = false) lines).
  { subst lines. unfold nonblank_lines.
    destruct (sanitize_text_no_blank_pair ocr_text) as [Htab Hpair].
    assert (Hgap : has_pair is_gap (sanitize_text ocr_text) = false).
    { apply (has_pair_within (fun c => neg (is_char "009") c && neg (is_char "031") c)
               is_gap is_blank); [| |exact Hpair].
      - pose proof (sanitize_text_keeps (neg (is_char "031")) ocr_text eq_refl Hus) as Hus'.
        clear -Htab Hus'. induction (sanitize_text ocr_text) as [|c s IH]; [reflexivity|].
        simpl in *. apply andb_true_iff in Htab as [H1 H2].
        apply andb_true_iff in Hus' as [G1 G2]. by rewrite H1, G1, IH.
      - intros c. destruct c as [[] [] [] [] [] [] [] []]; try discriminate; reflexivity. }
    pose proof (splitlines_plain (sanitize_text ocr_text) EmptyString Hgap eq_refl) as Hl.
    fold (Str.splitlines (sanitize_text ocr_text)) in Hl.
    apply Forall_map. apply List.Forall_forall. intros line Hin.
    apply filter_In in Hin as [Hin _].
    rewrite List.Forall_forall in Hl. specialize (Hl line Hin).
    apply strip_has_pair. by apply plain_line_no_space_pair. }
  assert (Hnone : forall ls, Forall (fun line => has_pair is_space (Str.strip line) = false) ls ->
                             strategy_a ls = None).
  { induction 1 as [|line ls Hline _ IH]; [reflexivity|]. simpl.
    destruct (re_match UPPER_TRIPLE_SPLIT (Str.strip line)) as [m|] eqn:E; [|exact IH].
    apply upper_triple_split_needs_pair in E. congruence. }
  assert (H20 : strategy_a (firstn 20 lines) = None).
  { apply Hnone. by apply Forall_take. }
  split_and!; [by apply Hnone | exact H20 |].
  unfold parse_country_state_location. by rewrite H20.
Qed.

Lemma strategy_a_never_fires_after_sanitize_witness :
  all_of (neg (is_char "031")) "JAPAN  HONSHU  TOKYO BAY" = true
  /\ let lines := nonblank_lines (sanitize_text "JAPAN  HONSHU  TOKYO BAY") in
     strategy_a lines = None
     /\ strategy_a (firstn 20 lines) = None
     /\ parse_country_state_location lines
        = match strategy_b (firstn 30 lines) with
          | Some t => t
          | None => strategy_c (firstn 80 lines)
          end.
Proof.
  split; [reflexivity|].
  apply (strategy_a_never_fires_after_sanitize "JAPAN  HONSHU  TOKYO BAY"). reflexivity.
Defined.
